(** * mcp-memory-bank: chunking, reconstruction and search ranking

    A shallow embedding of the chunking-and-retrieval core of the server:
    [EmbeddingService._splitTextWithTokenizer] / [chunkText],
    [DatabaseService] (chunk and search methods), [ProjectService.projectExists],
    [MemoryBankService.updateFileContent] / [getFileContent],
    [SearchService.search] and the [memoryBank_search] tool entry point.

    Conventions.
    - JavaScript strings are modelled by [string]; a character stands for one
      code unit below 256.
    - JavaScript integers ([chunkSize], [chunkIndex], [topK], array indices)
      are [Z]; distances are rationals ([Q]), which is exact for every use the
      code makes of them (copying and comparing).
    - The tokenizer, the feature extractor, the answers of the chunk
      collection to a query, [localeCompare], the uuid source and the
      parsing of dates come from outside the repository and are parameters.
    - The ChromaDB collections are lists of rows in the store's own order;
      the clock, the failures of the store and the order in which requests
      in flight are answered are part of the world. *)

From Stdlib Require Import String Ascii List ZArith QArith Bool Lia.
From Stdlib Require Import Sorted Permutation RelationClasses OrderedTypeEx.
Import ListNotations.

Local Open Scope string_scope.
Local Open Scope list_scope.
Local Open Scope Z_scope.

(* ================================================================= *)
(** ** JavaScript string and array primitives used by the services *)

Module Js.

(** [s.length] *)
Definition length (s : string) : Z := Z.of_nat (String.length s).

(** White space as [String.prototype.trim] sees it, on code units below 256:
    TAB, LF, VT, FF, CR, SPACE and NBSP. *)
Definition is_white (c : ascii) : bool :=
  let n := nat_of_ascii c in
  (Nat.eqb n 9 || Nat.eqb n 10 || Nat.eqb n 11 || Nat.eqb n 12
   || Nat.eqb n 13 || Nat.eqb n 32 || Nat.eqb n 160)%bool.

Fixpoint trimStart (s : string) : string :=
  match s with
  | EmptyString => EmptyString
  | String c s' => if is_white c then trimStart s' else s
  end.

(** [trimEnd] keeps a character when it is not white space or when something
    survives to its right. *)
Fixpoint trimEnd (s : string) : string :=
  match s with
  | EmptyString => EmptyString
  | String c s' =>
      match trimEnd s' with
      | EmptyString => if is_white c then EmptyString else String c EmptyString
      | t => String c t
      end
  end.

(** [s.trim()] *)
Definition trim (s : string) : string := trimEnd (trimStart s).

Fixpoint drop (n : nat) (s : string) : string :=
  match n, s with
  | O, _ => s
  | S _, EmptyString => EmptyString
  | S n', String _ s' => drop n' s'
  end.

(** [s.substring(start)]: a negative start counts as 0, a start beyond the
    end gives the empty string. *)
Definition substring (s : string) (start : Z) : string :=
  drop (Z.to_nat (Z.max 0 start)) s.

(** [s.split(sep)] for a non-empty separator: [skip] counts the characters of
    a separator occurrence still to be passed over, [cur] is the piece being
    built. *)
Fixpoint split_from (sep s : string) (skip : nat) (cur : string) : list string :=
  match s with
  | EmptyString => [cur]
  | String c s' =>
      match skip with
      | S k => split_from sep s' k cur
      | O =>
          if String.prefix sep s
          then cur :: split_from sep s' (String.length sep - 1) EmptyString
          else split_from sep s' O (cur ++ String c EmptyString)%string
      end
  end.

Definition split (s sep : string) : list string := split_from sep s O EmptyString.

(** [s.toLowerCase()] on code units below 256: A-Z, and the Latin-1 capitals
    U+00C0..U+00DE except the multiplication sign U+00D7. *)
Definition lower_char (c : ascii) : ascii :=
  let n := nat_of_ascii c in
  if ((Nat.leb 65 n && Nat.leb n 90)
      || (Nat.leb 192 n && Nat.leb n 222 && negb (Nat.eqb n 215)))%bool
  then ascii_of_nat (n + 32) else c.

Fixpoint toLowerCase (s : string) : string :=
  match s with
  | EmptyString => EmptyString
  | String c s' => String (lower_char c) (toLowerCase s')
  end.

(** [s.includes(sub)] *)
Fixpoint includes (s sub : string) : bool :=
  if String.prefix sub s then true
  else match s with
       | EmptyString => false
       | String _ s' => includes s' sub
       end.

(** [arr.join('')] *)
Definition join (l : list string) : string := String.concat EmptyString l.

(** [arr.slice(start, end)] with JavaScript's treatment of negative and
    out-of-range indices. *)
Definition slice {A : Type} (l : list A) (start stop : Z) : list A :=
  let len := Z.of_nat (List.length l) in
  let k := if start <? 0 then Z.max (len + start) 0 else Z.min start len in
  let e := if stop <? 0 then Z.max (len + stop) 0 else Z.min stop len in
  firstn (Z.to_nat (e - k)) (skipn (Z.to_nat k) l).

(** [Array.prototype.sort(compare)]: a stable sort; [compare a b] is read by
    its sign only ([Lt]: negative, [Eq]: zero or NaN, [Gt]: positive).
    For a consistent comparator every stable sort returns this list. *)
Section Sort.
Context {A : Type} (compare : A -> A -> comparison).

Fixpoint insert (x : A) (l : list A) : list A :=
  match l with
  | [] => [x]
  | y :: t =>
      match compare x y with
      | Gt => y :: insert x t
      | _ => x :: y :: t
      end
  end.

Definition sort (l : list A) : list A := fold_right insert [] l.
End Sort.

Fixpoint repeat_string (n : nat) (s : string) : string :=
  match n with
  | O => EmptyString
  | S n' => (s ++ repeat_string n' s)%string
  end.

End Js.

(* ================================================================= *)
(** ** Tokenizer adapter *)

(** The tokenizer is loaded from a model by [AutoTokenizer.from_pretrained];
    the services use [tokenizer.encode(text)] and
    [tokenizer.decode(ids, {skip_special_tokens: true})]. *)
Record PreTrainedTokenizer := {
  encode : string -> list Z;
  decode : list Z -> string
}.

Definition tokenCount (tokenizer : PreTrainedTokenizer) (text : string) : Z :=
  Z.of_nat (List.length (encode tokenizer text)).

(** Two concrete tokenizers used to run the chunker. *)
Module Tokenizers.

Fixpoint codes (s : string) : list Z :=
  match s with
  | EmptyString => []
  | String c s' => Z.of_nat (nat_of_ascii c) :: codes s'
  end.

Fixpoint uncodes (l : list Z) : string :=
  match l with
  | [] => EmptyString
  | z :: l' => String (ascii_of_nat (Z.to_nat z)) (uncodes l')
  end.

(** One token per character, no special tokens; [decode] inverts [encode]. *)
Definition char_level : PreTrainedTokenizer :=
  {| encode := codes; decode := uncodes |}.

(** As [char_level], but [encode] brackets the ids with the special tokens
    [CLS] = 101 and [SEP] = 102, the way the BERT-family tokenizers behind
    [AutoTokenizer] do; ordinary ids are shifted by 1000 and [decode] skips
    the special tokens. *)
Definition CLS : Z := 101.
Definition SEP : Z := 102.

Definition is_special (z : Z) : bool := ((z =? CLS) || (z =? SEP))%bool.

Definition bert_like : PreTrainedTokenizer :=
  {| encode := fun s => CLS :: map (fun z => z + 1000) (codes s) ++ [SEP];
     decode := fun ids =>
       uncodes (map (fun z => z - 1000) (filter (fun z => negb (is_special z)) ids)) |}.

End Tokenizers.

(* ================================================================= *)
(** ** EmbeddingService: the recursive text splitter *)

Record TextSplitterOptions := {
  chunkSize : Z;     (* target size in tokens *)
  chunkOverlap : Z   (* overlap size in tokens *)
}.

(** The default value of the [separators] parameter. *)
Definition LF : string := String (ascii_of_nat 10) EmptyString.
Definition default_separators : list string :=
  [(LF ++ LF)%string; LF; ". "; "? "; "! "; " "; ""].

Section Splitter.
Variable options : TextSplitterOptions.
Variable tokenizer : PreTrainedTokenizer.

(** The base-case loop
    [for (let i = 0; i < tokenIds.length; i += chunkSize - chunkOverlap)].
    The loop is run with fuel; [None] means the fuel ran out. *)
Fixpoint window_loop (fuel : nat) (tokenIds : list Z) (i : Z)
         (finalChunks : list string) : option (list string) :=
  match fuel with
  | O => None
  | S fuel' =>
      if i <? Z.of_nat (List.length tokenIds) then
        let chunkTokenIds := Js.slice tokenIds i (i + chunkSize options) in
        let finalChunks' :=
          if 0 <? Z.of_nat (List.length chunkTokenIds)
          then finalChunks ++ [decode tokenizer chunkTokenIds]
          else finalChunks in
        window_loop fuel' tokenIds (i + (chunkSize options - chunkOverlap options))
                    finalChunks'
      else Some finalChunks
  end.

(** The state of the loop over [splits]. *)
Record LoopState := {
  finalChunks : list string;
  currentChunk : string;
  currentChunkTokens : Z
}.

Definition push_if_not_blank (chunks : list string) (chunk : string) : list string :=
  if 0 <? Js.length (Js.trim chunk) then chunks ++ [chunk] else chunks.

Section Segments.
(** [recurse] is the call with [remainingSeparators]; it gives [None] when
    that call does not return. *)
Variable recurse : string -> option (list string).
Variable separator : string.

Fixpoint segments_loop (i : nat) (splits : list string) (st : LoopState)
  : option LoopState :=
  match splits with
  | [] => Some st
  | split :: rest =>
      let splitWithSeparator :=
        if (Nat.ltb 0 i && negb (separator =? "")%string)%bool
        then (separator ++ split)%string else split in
      let splitTokens := tokenCount tokenizer splitWithSeparator in
      if chunkSize options <? splitTokens then
        (* a single split is too large: recurse with finer separators *)
        match recurse split with
        | None => None
        | Some subChunks =>
            segments_loop (S i) rest
              {| finalChunks := finalChunks st ++ subChunks;
                 currentChunk := "";
                 currentChunkTokens := 0 |}
        end
      else if currentChunkTokens st + splitTokens <=? chunkSize options then
        segments_loop (S i) rest
          {| finalChunks := finalChunks st;
             currentChunk := (currentChunk st ++ splitWithSeparator)%string;
             currentChunkTokens := currentChunkTokens st + splitTokens |}
      else
        (* the current chunk is full: finalize it, start a new one *)
        let finalChunks1 := push_if_not_blank (finalChunks st) (currentChunk st) in
        let overlapStartIndex :=
          Z.max 0 (Js.length (currentChunk st) - chunkOverlap options * 4) in
        let overlapText := Js.substring (currentChunk st) overlapStartIndex in
        let currentChunk1 := (overlapText ++ splitWithSeparator)%string in
        let currentChunkTokens1 := tokenCount tokenizer currentChunk1 in
        if chunkSize options <? currentChunkTokens1 then
          match recurse splitWithSeparator with
          | None => None
          | Some subChunks =>
              segments_loop (S i) rest
                {| finalChunks := finalChunks1 ++ subChunks;
                   currentChunk := "";
                   currentChunkTokens := 0 |}
          end
        else
          segments_loop (S i) rest
            {| finalChunks := finalChunks1;
               currentChunk := currentChunk1;
               currentChunkTokens := currentChunkTokens1 |}
  end.

Definition split_segments (splits : list string) : option (list string) :=
  match segments_loop O splits
          {| finalChunks := []; currentChunk := ""; currentChunkTokens := 0 |} with
  | None => None
  | Some st => Some (push_if_not_blank (finalChunks st) (currentChunk st))
  end.
End Segments.

(** [_splitTextWithTokenizer(text, options, tokenizer, separators)].
    [None] means that the call does not return.

    - An empty [separators] makes [separators[0]] undefined, [text.split]
      then returns [[text]], and an oversized [text] is passed to the same
      call again, without end; [chunkText] never gets there, since the
      default list ends with the empty separator.
    - In the base case the window loop gets one unit of fuel per token plus
      one; [window_loop_enough_fuel] and [window_loop_stuck] show that this
      is enough exactly when some amount of fuel is. *)
Fixpoint _splitTextWithTokenizer (separators : list string) (text : string)
  : option (list string) :=
  match separators with
  | [] => split_segments (fun _ => None) "undefined" [text]
  | separator :: remainingSeparators =>
      if (separator =? "")%string then
        if Js.length text =? 0 then Some []
        else
          let tokenIds := encode tokenizer text in
          window_loop (S (List.length tokenIds)) tokenIds 0 []
      else
        split_segments (_splitTextWithTokenizer remainingSeparators) separator
                       (Js.split text separator)
  end.
End Splitter.

(** [chunkText(content)] once the service is initialized: the options are
    fixed to 450 / 50 and the separators are the default ones. *)
Definition chunk_options : TextSplitterOptions :=
  {| chunkSize := 450; chunkOverlap := 50 |}.

Definition chunk (tokenizer : PreTrainedTokenizer) (content : string)
  : option (list string) :=
  _splitTextWithTokenizer chunk_options tokenizer default_separators content.


(* ================================================================= *)
(** ** Errors, outcomes and the service monad *)

(** [ErrorCode] of the MCP SDK, with the two codes the services use. *)
Inductive ErrorCode := InvalidParams | InternalError.

Definition code_number (c : ErrorCode) : string :=
  match c with
  | InvalidParams => "-32602"
  | InternalError => "-32603"
  end.

(** A thrown value: an [McpError] or a plain [Error]. *)
Inductive exn :=
| McpError (code : ErrorCode) (reason : string)
| Error (reason : string).

(** [error.message]; the constructor of [McpError] prefixes the code. *)
Definition message (e : exn) : string :=
  match e with
  | McpError c m => ("MCP error " ++ code_number c ++ ": " ++ m)%string
  | Error m => m
  end.

(** [error instanceof McpError] *)
Definition instanceof_McpError (e : exn) : bool :=
  match e with
  | McpError _ _ => true
  | Error _ => false
  end.

Definition Embedding := list Q.

(** The metadata the services store with a project row. *)
Record ProjectMetadata := {
  pm_project_id : string;
  pm_project_name : string;
  pm_created_at : string;
  pm_last_modified_at : string
}.

(** The metadata the services store with a chunk row. *)
Record ChunkMetadata := {
  chunk_id : string;
  project_id : string;
  file_name : string;
  chunk_index : Z;
  created_at : string;
  updated_at : string
}.

Record ProjectRow := {
  project_row_id : string;
  project_row_metadata : option ProjectMetadata;
  project_row_document : option string
}.

Record ChunkRow := {
  row_id : string;
  row_embedding : option Embedding;
  row_metadata : option ChunkMetadata;
  row_document : option string
}.

(** A [where] filter of ChromaDB: a conjunction of conditions on metadata. *)
Inductive Condition :=
| project_id_eq (v : string)
| file_name_eq (v : string)
| file_name_in (vs : list string).

Definition Where := list Condition.

(** The calls that leave the process: to the ChromaDB client and to the
    feature-extraction pipeline. *)
Inductive Event :=
| EvProjectsGet (id : string)
| EvProjectsUpdate (id : string)
| EvChunksGet (filter : Where) (limit : option Z)
| EvChunksQuery (filter : Where) (nResults : Z)
| EvChunksDelete (ids : list string)
| EvChunksAdd (id : string)
| EvExtractor (text : string).

(** What the services can see and change.
    - [db_isInitialized] stands for the [isInitialized] flag of
      [DatabaseService] together with its client and collection handles,
      which [initialize] sets and clears together.
    - [chroma_outages] tells, for the coming answers of the ChromaDB client
      in turn, whether the request fails ([Some m]: the client throws an
      [Error] with message [m]) or is answered ([None]); once the list is
      used up every request is answered.
    - [arrivals] tells, whenever several requests are in flight, which of
      them is answered next: its position among those still pending (a
      position beyond the last one stands for the last one); once the list
      is used up the oldest pending request is answered first.
    - [embedding_isInitialized] stands for the flag of [EmbeddingService]
      together with its extractor and tokenizer handles.
    - [trace] records the external calls, oldest first. *)
Record World := {
  projectsCollection : list ProjectRow;
  chunksCollection : list ChunkRow;
  db_isInitialized : bool;
  chroma_outages : list (option string);
  arrivals : list nat;
  embedding_isInitialized : bool;
  clock : string;
  uuid_count : nat;
  trace : list Event
}.

Definition with_trace (w : World) (t : list Event) : World :=
  {| projectsCollection := projectsCollection w;
     chunksCollection := chunksCollection w;
     db_isInitialized := db_isInitialized w;
     chroma_outages := chroma_outages w;
     arrivals := arrivals w;
     embedding_isInitialized := embedding_isInitialized w;
     clock := clock w;
     uuid_count := uuid_count w;
     trace := t |}.

Definition with_chunks (w : World) (c : list ChunkRow) : World :=
  {| projectsCollection := projectsCollection w;
     chunksCollection := c;
     db_isInitialized := db_isInitialized w;
     chroma_outages := chroma_outages w;
     arrivals := arrivals w;
     embedding_isInitialized := embedding_isInitialized w;
     clock := clock w;
     uuid_count := uuid_count w;
     trace := trace w |}.

Definition with_projects (w : World) (p : list ProjectRow) : World :=
  {| projectsCollection := p;
     chunksCollection := chunksCollection w;
     db_isInitialized := db_isInitialized w;
     chroma_outages := chroma_outages w;
     arrivals := arrivals w;
     embedding_isInitialized := embedding_isInitialized w;
     clock := clock w;
     uuid_count := uuid_count w;
     trace := trace w |}.

Definition with_outages (w : World) (o : list (option string)) : World :=
  {| projectsCollection := projectsCollection w;
     chunksCollection := chunksCollection w;
     db_isInitialized := db_isInitialized w;
     chroma_outages := o;
     arrivals := arrivals w;
     embedding_isInitialized := embedding_isInitialized w;
     clock := clock w;
     uuid_count := uuid_count w;
     trace := trace w |}.

Definition with_arrivals (w : World) (a : list nat) : World :=
  {| projectsCollection := projectsCollection w;
     chunksCollection := chunksCollection w;
     db_isInitialized := db_isInitialized w;
     chroma_outages := chroma_outages w;
     arrivals := a;
     embedding_isInitialized := embedding_isInitialized w;
     clock := clock w;
     uuid_count := uuid_count w;
     trace := trace w |}.

Definition with_uuid_count (w : World) (n : nat) : World :=
  {| projectsCollection := projectsCollection w;
     chunksCollection := chunksCollection w;
     db_isInitialized := db_isInitialized w;
     chroma_outages := chroma_outages w;
     arrivals := arrivals w;
     embedding_isInitialized := embedding_isInitialized w;
     clock := clock w;
     uuid_count := n;
     trace := trace w |}.

(** How an [async] method ends: it returns, it throws, or it never settles. *)
Inductive outcome (A : Type) :=
| Return (a : A)
| Throw (e : exn)
| Hang.
Arguments Return {A} a.
Arguments Throw {A} e.
Arguments Hang {A}.

Definition M (A : Type) : Type := World -> outcome A * World.

Definition ret {A} (a : A) : M A := fun w => (Return a, w).
Definition throw {A} (e : exn) : M A := fun w => (Throw e, w).

Definition bind {A B} (m : M A) (k : A -> M B) : M B :=
  fun w =>
    match m w with
    | (Return a, w') => k a w'
    | (Throw e, w') => (Throw e, w')
    | (Hang, w') => (Hang, w')
    end.

(** [try { body } catch (error) { handler }] *)
Definition try_catch {A} (body : M A) (handler : exn -> M A) : M A :=
  fun w =>
    match body w with
    | (Throw e, w') => handler e w'
    | r => r
    end.

Declare Scope service_scope.
Delimit Scope service_scope with service.
Notation "x <- m ;; k" := (bind m (fun x => k))
  (at level 61, m at next level, right associativity) : service_scope.
Notation "m ;;; k" := (bind m (fun _ => k))
  (at level 61, right associativity) : service_scope.
Local Open Scope service_scope.

Definition log (ev : Event) : M unit :=
  fun w => (Return tt, with_trace w (trace w ++ [ev])).

(** An [async] function that awaits one request. Calling it runs it up to
    that [await]: this is the outer computation, which sends the request
    and gives what is left to do once the request is answered. *)
Definition Async (A : Type) : Type := M (M A).

(** [await f(...)]: the call, and what is left of it as soon as the
    request is answered; nothing else runs in between. *)
Definition await {A} (call : Async A) : M A := rest <- call ;; rest.

(** The promise of a call that has been started. *)
Inductive Promise (A : Type) :=
| Pending (rest : M A)
| Fulfilled (a : A)
| Rejected (e : exn).
Arguments Pending {A} rest.
Arguments Fulfilled {A} a.
Arguments Rejected {A} e.

(** [items.map(f)] for an [async] [f]: the calls are started one after the
    other, each up to its [await]. A call that throws before its [await]
    gives a promise that is rejected already, and the next calls are
    started all the same. *)
Fixpoint start_all {A} (calls : list (Async A)) : M (list (Promise A)) :=
  match calls with
  | [] => ret []
  | call :: calls' =>
      promise <- (fun w => match call w with
                           | (Return rest, w1) => (Return (Pending rest), w1)
                           | (Throw e, w1) => (Return (Rejected e), w1)
                           | (Hang, w1) => (Hang, w1)
                           end) ;;
      promises <- start_all calls' ;;
      ret (promise :: promises)
  end.

Fixpoint first_rejected {A} (promises : list (Promise A)) : option exn :=
  match promises with
  | [] => None
  | Rejected e :: _ => Some e
  | _ :: promises' => first_rejected promises'
  end.

Fixpoint pending_count {A} (promises : list (Promise A)) : nat :=
  match promises with
  | [] => O
  | Pending _ :: promises' => S (pending_count promises')
  | _ :: promises' => pending_count promises'
  end.

(** The answer to the [k]-th pending request arrives (to the last one when
    there are fewer): what is left of that call runs, and its promise is
    fulfilled unless it throws. *)
Fixpoint settle_one {A} (k : nat) (promises : list (Promise A)) : M (list (Promise A)) :=
  match promises with
  | [] => ret []
  | Pending rest :: promises' =>
      match k, pending_count promises' with
      | S k', S _ => promises'' <- settle_one k' promises' ;;
                     ret (Pending rest :: promises'')
      | _, _ => a <- rest ;; ret (Fulfilled a :: promises')
      end
  | promise :: promises' =>
      promises'' <- settle_one k promises' ;; ret (promise :: promises'')
  end.

(** Which of the pending requests is answered next. *)
Definition next_arrival : M nat :=
  fun w => (Return (hd O (arrivals w)), with_arrivals w (tl (arrivals w))).

(** The answers arrive one by one, in the order the world decides, until
    every promise is fulfilled or one call throws. [fuel] bounds the number
    of answers; the number of promises is enough. *)
Fixpoint settle_all {A} (fuel : nat) (promises : list (Promise A))
  : M (list (Promise A)) :=
  match fuel with
  | O => ret promises
  | S fuel' =>
      match pending_count promises with
      | O => ret promises
      | S _ =>
          k <- next_arrival ;;
          promises' <- settle_one k promises ;;
          settle_all fuel' promises'
      end
  end.

Definition values {A} (promises : list (Promise A)) : list A :=
  flat_map (fun promise => match promise with
                           | Fulfilled a => [a]
                           | _ => []
                           end) promises.

(** [await Promise.all(items.map(f))]. The calls are started in order. A
    promise that is rejected from the start rejects the whole at once.
    Otherwise the requests are in flight together and are answered in the
    order the world decides; the value is the list of the values, in the
    order of the calls, when every promise is fulfilled, and the first
    rejection is thrown as soon as it happens. The requests that are still
    in flight at that moment are not waited for: the world at the throw is
    the world before their answers, and what these answers do later is not
    part of a run. *)
Definition Promise_all {A} (calls : list (Async A)) : M (list A) :=
  promises <- start_all calls ;;
  match first_rejected promises with
  | Some e => throw e
  | None =>
      settled <- settle_all (List.length promises) promises ;;
      ret (values settled)
  end.

(** [arr.map((x, i) => f x i)] *)
Fixpoint mapi_from {A B} (i : Z) (f : A -> Z -> B) (l : list A) : list B :=
  match l with
  | [] => []
  | x :: t => f x i :: mapi_from (i + 1) f t
  end.

Definition mapi {A B} (f : A -> Z -> B) (l : list A) : list B := mapi_from 0 f l.

(* ================================================================= *)
(** ** The ChromaDB client, as the services use it *)

Module Chroma.

Definition holds (c : Condition) (m : ChunkMetadata) : bool :=
  match c with
  | project_id_eq v => (project_id m =? v)%string
  | file_name_eq v => (file_name m =? v)%string
  | file_name_in vs => existsb (fun v => (file_name m =? v)%string) vs
  end.

Definition matches (filter : Where) (r : ChunkRow) : bool :=
  forallb (fun c => match row_metadata r with
                    | Some m => holds c m
                    | None => false
                    end) filter.

Definition limited {A} (limit : option Z) (l : list A) : list A :=
  match limit with
  | Some n => firstn (Z.to_nat n) l
  | None => l
  end.

(** A request to the client: it is recorded when it is sent; when the
    answer arrives the client returns it, or throws an [Error] with the
    message of the failure. *)
Definition request {A} (ev : Event) (answer : M A) : Async A :=
  log ev ;;;
  ret (fun w =>
         match chroma_outages w with
         | [] => answer w
         | Some failure :: rest => (Throw (Error failure), with_outages w rest)
         | None :: rest => answer (with_outages w rest)
         end).

(** [await collection.method(...)] *)
Definition call {A} (ev : Event) (answer : M A) : M A := await (request ev answer).

(** A [where] object as it is written: conditions under keys of the object
    itself, or in the list of an [$and]. *)
Inductive WhereClause :=
| where_keys (cs : Where)
| where_and (cs : Where).

Definition conditions (clause : WhereClause) : Where :=
  match clause with
  | where_keys cs => cs
  | where_and cs => cs
  end.

(** The store takes one condition at the top of a [where] object and at
    least two in an [$and]; it refuses an object with several keys. *)
Definition valid_where (clause : WhereClause) : bool :=
  match clause with
  | where_keys [] => true
  | where_keys [_] => true
  | where_keys (_ :: _ :: _) => false
  | where_and (_ :: _ :: _) => true
  | where_and _ => false
  end.

Definition invalid_where : exn := Error "Invalid where clause".

(** [projectsCollection.get({ ids: [id], limit })] *)
Definition projects_get (id : string) (limit : option Z) : M (list ProjectRow) :=
  call (EvProjectsGet id)
       (fun w => (Return (limited limit
                   (filter (fun r => (project_row_id r =? id)%string)
                           (projectsCollection w))), w)).

(** [projectsCollection.update({ ids: [id], metadatas: [m] })] *)
Definition projects_update (id : string) (m : ProjectMetadata) : M unit :=
  call (EvProjectsUpdate id)
       (fun w => (Return tt,
                  with_projects w
                    (map (fun r => if (project_row_id r =? id)%string
                                   then {| project_row_id := project_row_id r;
                                           project_row_metadata := Some m;
                                           project_row_document := project_row_document r |}
                                   else r)
                         (projectsCollection w)))).

(** [chunksCollection.get({ where, limit })]: the matching rows in the
    store's order, at most [limit] of them. The parallel arrays of the
    response are kept zipped, one row per index. *)
Definition chunks_get (clause : WhereClause) (limit : option Z) : M (list ChunkRow) :=
  call (EvChunksGet (conditions clause) limit)
       (fun w => if valid_where clause
                 then (Return (limited limit
                         (List.filter (matches (conditions clause))
                                      (chunksCollection w))), w)
                 else (Throw invalid_where, w)).

(** [chunksCollection.delete({ ids })] *)
Definition chunks_delete (ids : list string) : M unit :=
  call (EvChunksDelete ids)
       (fun w => (Return tt,
                  with_chunks w
                    (List.filter
                       (fun r => negb (existsb (fun i => (row_id r =? i)%string) ids))
                       (chunksCollection w)))).

(** [chunksCollection.add({ ids: [id], embeddings, metadatas, documents })],
    not awaited yet. *)
Definition chunks_add (row : ChunkRow) : Async unit :=
  request (EvChunksAdd (row_id row))
          (fun w => (Return tt, with_chunks w (chunksCollection w ++ [row]))).

(** One entry of the first (and only) result list of a query response;
    [q_distance] is absent when the response carries no distance there. *)
Record QueryRow := {
  q_id : string;
  q_distance : option Q;
  q_metadata : option ChunkMetadata;
  q_document : option string
}.

(** [chunksCollection.query({ queryEmbeddings: [q], nResults, where })].
    Which entries the store reports for the rows it holds, in which order
    and with which distances, is the store's business: [answer] stands for
    it. The client refuses a request for fewer than one result. *)
Definition chunks_query
           (answer : Embedding -> Z -> Where -> list ChunkRow -> list QueryRow)
           (queryEmbedding : Embedding) (nResults : Z) (clause : WhereClause)
  : M (list QueryRow) :=
  call (EvChunksQuery (conditions clause) nResults)
       (fun w =>
          if nResults <? 1
          then (Throw (Error "Number of requested results cannot be negative, or zero."), w)
          else if valid_where clause
          then (Return (answer queryEmbedding nResults (conditions clause)
                               (chunksCollection w)), w)
          else (Throw invalid_where, w)).

End Chroma.

(* ================================================================= *)
(** ** Types of the memory bank *)

Module Project.
Record t := {
  projectId : string;
  projectName : string;
  createdAt : string;
  lastModifiedAt : string
}.
End Project.

Module MemoryBankChunk.
Record t := {
  chunkId : string;
  projectId : string;
  fileName : string;
  chunkIndex : Z;
  chunkText : string;
  embedding : option Embedding;
  createdAt : string;
  updatedAt : string
}.
End MemoryBankChunk.

(** [DatabaseSearchResult extends MemoryBankChunk] with a [score]. *)
Module DatabaseSearchResult.
Record t := {
  chunkId : string;
  projectId : string;
  fileName : string;
  chunkIndex : Z;
  chunkText : string;
  createdAt : string;
  updatedAt : string;
  score : option Q
}.
End DatabaseSearchResult.

Module SearchResult.
Record t := {
  text : string;
  fileName : string;
  chunkIndex : Z;
  score : option Q
}.
End SearchResult.

(** The numbers that [results.sort] subtracts: a score, or [Infinity] in the
    place of [null]. *)
Inductive number :=
| Finite (q : Q)
| Infinity
| NegInfinity
| NaN.

Definition minus (a b : number) : number :=
  match a, b with
  | NaN, _ => NaN
  | _, NaN => NaN
  | Finite x, Finite y => Finite (x - y)%Q
  | Finite _, Infinity => NegInfinity
  | Finite _, NegInfinity => Infinity
  | Infinity, Infinity => NaN
  | Infinity, _ => Infinity
  | NegInfinity, NegInfinity => NaN
  | NegInfinity, _ => NegInfinity
  end.

(** The sign a sort reads off a comparator's result; NaN counts as zero. *)
Definition sign (n : number) : comparison :=
  match n with
  | Finite q => Qcompare q 0
  | Infinity => Gt
  | NegInfinity => Lt
  | NaN => Eq
  end.

(** [score ?? Infinity] *)
Definition or_Infinity (s : option Q) : number :=
  match s with
  | Some q => Finite q
  | None => Infinity
  end.

Definition sign_Z (z : Z) : comparison := Z.compare z 0.

(* ================================================================= *)
(** ** The services *)

Section Services.
(** What the services get from outside the repository. *)
Variable tokenizer : PreTrainedTokenizer.
(** The feature-extraction pipeline with mean pooling and normalization;
    [None] when the call throws or gives no usable data. *)
Variable extractor : string -> option Embedding.
(** What the chunk collection answers to a query: for the query embedding,
    the number of results asked for, the conditions of the filter and the
    rows it holds, the entries of its response. *)
Variable queryAnswer : Embedding -> Z -> Where -> list ChunkRow -> list Chroma.QueryRow.
(** [a.localeCompare(b)] *)
Variable localeCompare : string -> string -> Z.
(** The successive results of [uuidv4()]. *)
Variable uuidv4 : nat -> string.
(** [new Date(s).toISOString()]: the time [s] stands for in the ISO format,
    or [None] when [s] does not parse to a time; [toISOString] then throws
    a [RangeError]. A [Date] made with [new Date(s)] is kept as [s]. *)
Variable toISOString : string -> option string.

(* ----------------------------------------------------------------- *)
(** *** DatabaseService *)

Definition ensureInitialized : M unit :=
  fun w =>
    if db_isInitialized w then (Return tt, w)
    else (Throw (McpError InternalError
            "Database service is not initialized. Initialization attempt failed or was not performed."), w).

(** [new Date().toISOString()] *)
Definition now : M string := fun w => (Return (clock w), w).

Definition next_uuid : M string :=
  fun w => (Return (uuidv4 (uuid_count w)), with_uuid_count w (S (uuid_count w))).

Definition findProjectById (projectId : string) : M (option Project.t) :=
  ensureInitialized ;;;
  try_catch
    (results <- Chroma.projects_get projectId (Some 1) ;;
     match results with
     | row :: _ =>
         match project_row_metadata row with
         | None => ret None
         | Some meta =>
             ret (Some {| Project.projectId := project_row_id row;
                          Project.projectName := pm_project_name meta;
                          Project.createdAt := pm_created_at meta;
                          Project.lastModifiedAt := pm_last_modified_at meta |})
         end
     | [] => ret None
     end)
    (fun e => throw (McpError InternalError
                       ("DB error finding project by ID: " ++ message e)%string)).

Definition updateProjectLastModified (projectId : string) : M unit :=
  ensureInitialized ;;;
  try_catch
    (existing <- findProjectById projectId ;;
     match existing with
     | Some existing =>
         now_ <- now ;;
         created_at_ <- match toISOString (Project.createdAt existing) with
                        | Some iso => ret iso
                        | None => throw (Error "Invalid time value")
                        end ;;
         Chroma.projects_update projectId
           {| pm_project_id := Project.projectId existing;
              pm_project_name := Project.projectName existing;
              pm_created_at := created_at_;
              pm_last_modified_at := now_ |}
     | None => ret tt
     end)
    (fun e => throw (McpError InternalError
                       ("DB error updating project timestamp: " ++ message e)%string)).

Definition deleteMemoryBankContentByFile (projectId fileName : string) : M bool :=
  ensureInitialized ;;;
  try_catch
    ((* Step 1: all chunks of the project *)
     results <- Chroma.chunks_get (Chroma.where_keys [project_id_eq projectId]) None ;;
     match results with
     | [] => ret true
     | _ =>
         (* Step 2: keep the ids whose metadata names the file *)
         let idsToDelete :=
           map row_id
               (List.filter (fun r => match row_metadata r with
                                      | Some meta => (file_name meta =? fileName)%string
                                      | None => false
                                      end) results) in
         match idsToDelete with
         | [] => ret true
         | _ => Chroma.chunks_delete idsToDelete ;;; ret true
         end
     end)
    (fun e => throw (McpError InternalError
                       ("DB error deleting file chunks: " ++ message e)%string)).

(** The method awaits one request, the [add]; what comes before it runs
    when the method is called. *)
Definition insertMemoryBankChunk (projectId fileName : string) (chunkIndex : Z)
           (chunkText : string) (embeddingVector : Embedding)
  : Async MemoryBankChunk.t :=
  ensureInitialized ;;;
  chunkId <- next_uuid ;;
  now_ <- now ;;
  let metadata :=
    {| chunk_id := chunkId;
       project_id := projectId;
       file_name := fileName;
       chunk_index := chunkIndex;
       created_at := now_;
       updated_at := now_ |} in
  added <- Chroma.chunks_add {| row_id := chunkId;
                                row_embedding := Some embeddingVector;
                                row_metadata := Some metadata;
                                row_document := Some chunkText |} ;;
  ret (try_catch
         (added ;;;
          ret {| MemoryBankChunk.chunkId := chunkId;
                 MemoryBankChunk.projectId := projectId;
                 MemoryBankChunk.fileName := fileName;
                 MemoryBankChunk.chunkIndex := chunkIndex;
                 MemoryBankChunk.chunkText := chunkText;
                 MemoryBankChunk.embedding := Some embeddingVector;
                 MemoryBankChunk.createdAt := now_;
                 MemoryBankChunk.updatedAt := now_ |})
         (fun e => throw (McpError InternalError
                            ("DB error inserting chunk: " ++ message e)%string))).

(** The rows of a [get] response turned into chunks; rows without metadata
    or document are left out. *)
Definition chunk_of_row (r : ChunkRow) : list MemoryBankChunk.t :=
  match row_metadata r, row_document r with
  | Some meta, Some doc =>
      [{| MemoryBankChunk.chunkId := row_id r;
          MemoryBankChunk.projectId := project_id meta;
          MemoryBankChunk.fileName := file_name meta;
          MemoryBankChunk.chunkIndex := chunk_index meta;
          MemoryBankChunk.chunkText := doc;
          MemoryBankChunk.embedding := row_embedding r;
          MemoryBankChunk.createdAt := created_at meta;
          MemoryBankChunk.updatedAt := updated_at meta |}]
  | _, _ => []
  end.

Definition by_chunkIndex (a b : MemoryBankChunk.t) : comparison :=
  sign_Z (MemoryBankChunk.chunkIndex a - MemoryBankChunk.chunkIndex b).

Definition getMemoryBankChunksByFile (projectId fileName : string)
  : M (list MemoryBankChunk.t) :=
  ensureInitialized ;;;
  try_catch
    (results <- Chroma.chunks_get
                  (Chroma.where_and [project_id_eq projectId; file_name_eq fileName])
                  None ;;
     match results with
     | [] => ret []
     | _ => ret (Js.sort by_chunkIndex (flat_map chunk_of_row results))
     end)
    (fun _ => throw (McpError InternalError "Database error getting file chunks.")).

Definition search_filter (projectId : string) (fileFilter : option (list string)) : Where :=
  match fileFilter with
  | Some (f :: fs) => [project_id_eq projectId; file_name_in (f :: fs)]
  | _ => [project_id_eq projectId]
  end.

Definition result_of_query_row (r : Chroma.QueryRow) : list DatabaseSearchResult.t :=
  match Chroma.q_metadata r, Chroma.q_document r with
  | Some meta, Some doc =>
      [{| DatabaseSearchResult.chunkId := Chroma.q_id r;
          DatabaseSearchResult.projectId := project_id meta;
          DatabaseSearchResult.fileName := file_name meta;
          DatabaseSearchResult.chunkIndex := chunk_index meta;
          DatabaseSearchResult.chunkText := doc;
          DatabaseSearchResult.createdAt := created_at meta;
          DatabaseSearchResult.updatedAt := updated_at meta;
          (* the raw distance; lower is better *)
          DatabaseSearchResult.score := Chroma.q_distance r |}]
  | _, _ => []
  end.

Definition semanticSearchChunks (projectId : string) (queryEmbedding : Embedding)
           (topK : Z) (fileFilter : option (list string))
  : M (list DatabaseSearchResult.t) :=
  ensureInitialized ;;;
  try_catch
    (results <- Chroma.chunks_query queryAnswer queryEmbedding topK
                  (Chroma.where_keys (search_filter projectId fileFilter)) ;;
     ret (flat_map result_of_query_row results))
    (fun e => throw (McpError InternalError
                       ("DB error during semantic search: " ++ message e)%string)).

Definition keyword_match (lowerCaseQuery : string) (r : ChunkRow)
  : list DatabaseSearchResult.t :=
  match row_metadata r, row_document r with
  | Some meta, Some doc =>
      if Js.includes (Js.toLowerCase doc) lowerCaseQuery
      then [{| DatabaseSearchResult.chunkId := row_id r;
               DatabaseSearchResult.projectId := project_id meta;
               DatabaseSearchResult.fileName := file_name meta;
               DatabaseSearchResult.chunkIndex := chunk_index meta;
               DatabaseSearchResult.chunkText := doc;
               DatabaseSearchResult.createdAt := created_at meta;
               DatabaseSearchResult.updatedAt := updated_at meta;
               DatabaseSearchResult.score := None |}]
      else []
  | _, _ => []
  end.

Definition by_fileName_chunkIndex (a b : DatabaseSearchResult.t) : comparison :=
  if negb (DatabaseSearchResult.fileName a =? DatabaseSearchResult.fileName b)%string
  then sign_Z (localeCompare (DatabaseSearchResult.fileName a)
                             (DatabaseSearchResult.fileName b))
  else sign_Z (DatabaseSearchResult.chunkIndex a - DatabaseSearchResult.chunkIndex b).

Definition keywordSearchChunks (projectId query : string) (topK : Z)
           (fileFilter : option (list string))
  : M (list DatabaseSearchResult.t) :=
  ensureInitialized ;;;
  try_catch
    ((* 1. candidate chunks, at most 100 *)
     candidates <- Chroma.chunks_get
                     (Chroma.where_keys (search_filter projectId fileFilter))
                     (Some 100) ;;
     (* 2. keyword matching *)
     let lowerCaseQuery := Js.toLowerCase query in
     let matchedResults := flat_map (keyword_match lowerCaseQuery) candidates in
     (* 3. sort and limit *)
     ret (Js.slice (Js.sort by_fileName_chunkIndex matchedResults) 0 topK))
    (fun e => throw (McpError InternalError
                       ("DB error during keyword search: " ++ message e)%string)).

(* ----------------------------------------------------------------- *)
(** *** ProjectService *)

Definition projectExists (projectId : string) : M bool :=
  if (projectId =? "")%string then ret false   (* an invalid id cannot exist *)
  else
    try_catch
      (project <- findProjectById projectId ;;
       ret (match project with Some _ => true | None => false end))
      (fun _ => throw (McpError InternalError
                         "Database error checking project existence.")).

Definition updateLastModified (projectId : string) : M unit :=
  if (projectId =? "")%string
  then throw (McpError InvalidParams "Invalid project ID provided for timestamp update.")
  else
    try_catch
      (updateProjectLastModified projectId)
      (fun _ => throw (McpError InternalError
                         "Failed to update project last modified time due to database error.")).

(* ----------------------------------------------------------------- *)
(** *** EmbeddingService *)

(** The method awaits one request, the call of the pipeline. *)
Definition generateEmbedding (text : string) : Async Embedding :=
  fun w =>
    if negb (embedding_isInitialized w)
    then (Throw (McpError InternalError "Embedding service pipeline is not ready."), w)
    else
      (log (EvExtractor text) ;;;
       ret (try_catch
              (match extractor text with
               | Some embedding => ret embedding
               | None => throw (Error "Embedding pipeline returned unexpected output structure or null data.")
               end)
              (fun e => throw (McpError InternalError
                                 ("Embedding generation failed: " ++ message e)%string))))
        w.

(** [chunkText(content)]; the splitter is pure, and a call of it that does
    not return leaves the method hanging. *)
Definition chunkText (content : string) : M (list string) :=
  fun w =>
    if negb (embedding_isInitialized w)
    then (Throw (McpError InternalError
                   "Embedding service/tokenizer is not ready for chunking."), w)
    else
      match chunk tokenizer content with
      | Some chunks => (Return chunks, w)
      | None => (Hang, w)
      end.

(* ----------------------------------------------------------------- *)
(** *** MemoryBankService *)

Definition project_not_found (projectId : string) : exn :=
  McpError InvalidParams ("Project with ID '" ++ projectId ++ "' not found.")%string.

Definition rethrow_McpError_or {A} (prefix : string) (e : exn) : M A :=
  if instanceof_McpError e then throw e
  else throw (McpError InternalError (prefix ++ message e)%string).

Definition updateFileContent (projectId fileName content : string) : M unit :=
  (* 1. the project must exist *)
  exists_ <- projectExists projectId ;;
  if negb exists_ then throw (project_not_found projectId)
  else if ((fileName =? "")%string || (content =? "")%string)%bool
  then throw (McpError InvalidParams "File name and content cannot be empty.")
  else
    try_catch
      ((* 2. chunk the content *)
       chunks <- chunkText content ;;
       match chunks with
       | [] =>
           (* zero usable chunks: clear the file *)
           deleteMemoryBankContentByFile projectId fileName ;;;
           updateLastModified projectId ;;;
           ret tt
       | _ =>
           (* 3. embeddings for every chunk, the whole batch or nothing *)
           embeddings <-
             try_catch
               (Promise_all (map generateEmbedding chunks))
               (fun embeddingError =>
                  throw (McpError InternalError
                           ("Embedding generation failed: " ++ message embeddingError)%string)) ;;
           (* 4a. delete the existing chunks of the file *)
           deleteMemoryBankContentByFile projectId fileName ;;;
           (* 4b. insert the new chunks *)
           Promise_all
             (mapi (fun chunkText_ i =>
                      insertMemoryBankChunk projectId fileName i chunkText_
                        (nth (Z.to_nat i) embeddings []))
                   chunks) ;;;
           (* 5. the project's last modified timestamp *)
           updateLastModified projectId
       end)
      (rethrow_McpError_or "Failed to update file content: ").

Definition no_content_found (projectId fileName : string) : exn :=
  McpError InvalidParams
    ("No content found for file '" ++ fileName ++ "' in project '" ++ projectId ++ "'.")%string.

Definition getFileContent (projectId fileName : string) : M string :=
  exists_ <- projectExists projectId ;;
  if negb exists_ then throw (project_not_found projectId)
  else
    try_catch
      (chunks <- getMemoryBankChunksByFile projectId fileName ;;
       match chunks with
       | [] => throw (no_content_found projectId fileName)
       | _ =>
           (* reconstruction: simple concatenation *)
           ret (Js.join (map MemoryBankChunk.chunkText chunks))
       end)
      (rethrow_McpError_or "Failed to get file content: ").

(* ----------------------------------------------------------------- *)
(** *** SearchService *)

Definition format_result (chunk : DatabaseSearchResult.t) : SearchResult.t :=
  {| SearchResult.text := DatabaseSearchResult.chunkText chunk;
     SearchResult.fileName := DatabaseSearchResult.fileName chunk;
     SearchResult.chunkIndex := DatabaseSearchResult.chunkIndex chunk;
     SearchResult.score := DatabaseSearchResult.score chunk |}.

(** [(a, b) => (a.score ?? Infinity) - (b.score ?? Infinity)] *)
Definition by_score (a b : SearchResult.t) : comparison :=
  sign (minus (or_Infinity (SearchResult.score a)) (or_Infinity (SearchResult.score b))).

(** [searchType] is a string here: the method handles values other than
    'semantic' and 'keyword' itself. *)
Definition search (projectId query searchType : string) (topK : Z)
           (fileFilter : option (list string)) : M (list SearchResult.t) :=
  (* 1. the project must exist *)
  exists_ <- projectExists projectId ;;
  if negb exists_ then throw (project_not_found projectId)
  else if ((query =? "")%string || (searchType =? "")%string || (topK =? 0))%bool
  then throw (McpError InvalidParams "Missing required search parameters.")
  else
    try_catch
      (chunks <-
         (if (searchType =? "semantic")%string then
            queryEmbedding <- await (generateEmbedding query) ;;
            semanticSearchChunks projectId queryEmbedding topK fileFilter
          else if (searchType =? "keyword")%string then
            keywordSearchChunks projectId query topK fileFilter
          else
            throw (McpError InvalidParams ("Invalid search type: " ++ searchType)%string)) ;;
       (* 3. format the results *)
       let results := map format_result chunks in
       (* semantic results are sorted by score, ascending *)
       ret (if (searchType =? "semantic")%string
            then Js.sort by_score results
            else results))
      (rethrow_McpError_or "Search failed: ").

(* ----------------------------------------------------------------- *)
(** *** The memoryBank_search tool *)

(** A JSON value of a tool call's arguments. *)
Inductive json :=
| JNull
| JBool (b : bool)
| JNumber (q : Q)
| JString (s : string)
| JArray (items : list json).

(** The arguments object of a call, one optional value per key. *)
Record RawSearchArgs := {
  raw_projectId : option json;
  raw_query : option json;
  raw_searchType : option json;
  raw_topK : option json;
  raw_fileFilter : option json
}.

(** The arguments after validation by [TOOL_PARAMS_SEARCH]. *)
Record SearchArgs := {
  projectId : string;
  query : string;
  searchType : string;
  topK : Z;
  fileFilter : option (list string)
}.

Definition is_hex (c : ascii) : bool :=
  let n := nat_of_ascii c in
  ((Nat.leb 48 n && Nat.leb n 57) || (Nat.leb 65 n && Nat.leb n 70)
   || (Nat.leb 97 n && Nat.leb n 102))%bool.

Fixpoint uuid_from (i : nat) (s : string) : bool :=
  match s with
  | EmptyString => Nat.eqb i 36
  | String c s' =>
      ((if (Nat.eqb i 8 || Nat.eqb i 13 || Nat.eqb i 18 || Nat.eqb i 23)%bool
        then Ascii.eqb c "-" else is_hex c)
       && uuid_from (S i) s')%bool
  end.

(** [z.string().uuid()]: 8-4-4-4-12 hexadecimal digits. *)
Definition is_uuid (s : string) : bool := uuid_from 0 s.

Definition is_file_char (c : ascii) : bool :=
  let n := nat_of_ascii c in
  ((Nat.leb 48 n && Nat.leb n 57) || (Nat.leb 65 n && Nat.leb n 90)
   || (Nat.leb 97 n && Nat.leb n 122)
   || Nat.eqb n 95 || Nat.eqb n 46 || Nat.eqb n 45)%bool.

Fixpoint all_chars (p : ascii -> bool) (s : string) : bool :=
  match s with
  | EmptyString => true
  | String c s' => (p c && all_chars p s')%bool
  end.

(** [/^[a-zA-Z0-9_.-]+\.md$/]: a non-empty run of file characters followed
    by ".md" (whose characters are file characters themselves). *)
Definition matches_md (s : string) : bool :=
  (all_chars is_file_char s
   && Nat.ltb 3 (String.length s)
   && (Js.drop (String.length s - 3) s =? ".md")%string)%bool.

(** [z.string().min(1).max(100).regex(...)] *)
Definition parse_file_name (j : json) : option string :=
  match j with
  | JString s =>
      if (Nat.leb 1 (String.length s) && Nat.leb (String.length s) 100
          && matches_md s)%bool
      then Some s else None
  | _ => None
  end.

Fixpoint parse_all {A B} (f : A -> option B) (l : list A) : option (list B) :=
  match l with
  | [] => Some []
  | x :: t =>
      match f x, parse_all f t with
      | Some y, Some ys => Some (y :: ys)
      | _, _ => None
      end
  end.

(** [z.number().int()] *)
Definition is_int (q : Q) : bool := Pos.eqb (Qden (Qred q)) 1.

(** [projectId: z.string().uuid()] *)
Definition parse_projectId (j : option json) : option string :=
  match j with
  | Some (JString p) => if is_uuid p then Some p else None
  | _ => None
  end.

(** [query: z.string().trim().min(1)]; the parsed value is the trimmed one. *)
Definition parse_query (j : option json) : option string :=
  match j with
  | Some (JString q) =>
      if Nat.leb 1 (String.length (Js.trim q)) then Some (Js.trim q) else None
  | _ => None
  end.

(** [searchType: z.enum(['semantic', 'keyword']).default('semantic')] *)
Definition parse_searchType (j : option json) : option string :=
  match j with
  | None => Some "semantic"
  | Some (JString s) =>
      if ((s =? "semantic")%string || (s =? "keyword")%string)%bool then Some s else None
  | Some _ => None
  end.

(** [topK: z.number().int().min(1).max(20).default(5)] *)
Definition parse_topK (j : option json) : option Z :=
  match j with
  | None => Some 5
  | Some (JNumber k) =>
      if (is_int k && Qle_bool 1 k && Qle_bool k 20)%bool
      then Some (Qnum (Qred k)) else None
  | Some _ => None
  end.

(** [fileFilter: z.array(z.string().min(1).max(100).regex(...)).optional()] *)
Definition parse_fileFilter (j : option json) : option (option (list string)) :=
  match j with
  | None => Some None
  | Some (JArray items) => option_map Some (parse_all parse_file_name items)
  | Some _ => None
  end.

(** Parsing with [z.object(TOOL_PARAMS_SEARCH)]; [None] when a key fails. *)
Definition parse_search_args (raw : RawSearchArgs) : option SearchArgs :=
  match parse_projectId (raw_projectId raw), parse_query (raw_query raw),
        parse_searchType (raw_searchType raw), parse_topK (raw_topK raw),
        parse_fileFilter (raw_fileFilter raw) with
  | Some p, Some q, Some st, Some k, Some ff =>
      Some {| projectId := p; query := q; searchType := st; topK := k; fileFilter := ff |}
  | _, _, _, _, _ => None
  end.

(** The handler registered with [server.tool]: the SDK validates the
    arguments against the schema and rejects the call with [InvalidParams]
    before the callback runs; the callback passes the validated arguments to
    the service. The result is the list that goes into the response text. *)
Definition memoryBank_search (raw : RawSearchArgs) : M (list SearchResult.t) :=
  match parse_search_args raw with
  | None => throw (McpError InvalidParams "Invalid arguments for tool memoryBank_search")
  | Some args =>
      try_catch
        (search (projectId args) (query args) (searchType args) (topK args)
                (fileFilter args))
        (fun e => if instanceof_McpError e then throw e
                  else throw (McpError InternalError (message e)))
  end.

End Services.

(* ================================================================= *)
(** ** Vocabulary of the properties *)

(** [ceil(n / d)] for a positive [d]. *)
Definition ceil_div (n d : Z) : Z := (n + d - 1) / d.

(** The step of the token window. *)
Definition window_step (options : TextSplitterOptions) : Z :=
  chunkSize options - chunkOverlap options.

(** A string without any non-white character. *)
Definition blank (s : string) : Prop := Js.trim s = "".

(** Inputs on which the chunker is run below. *)
Definition TAB : string := String (ascii_of_nat 9) EmptyString.

Definition intro_then_long_paragraph : string :=
  ("intro" ++ LF ++ LF ++ Js.repeat_string 120 "word ")%string.

(** A chunk whose token count is within [chunkSize]. *)
Definition within_budget (options : TextSplitterOptions) (tokenizer : PreTrainedTokenizer)
           (c : string) : Prop :=
  tokenCount tokenizer c <= chunkSize options.

(** The decoding of some token window of some text. *)
Definition decoded_window (options : TextSplitterOptions) (tokenizer : PreTrainedTokenizer)
           (c : string) : Prop :=
  exists text j,
    c = decode tokenizer (Js.slice (encode tokenizer text) j (j + chunkSize options)).

(** A chunk within [chunkSize], or a decoded token window that counts at
    most [slack] tokens more. *)
Definition within_budget_or_window (options : TextSplitterOptions)
           (tokenizer : PreTrainedTokenizer) (slack : Z) (c : string) : Prop :=
  within_budget options tokenizer c
  \/ (decoded_window options tokenizer c
      /\ tokenCount tokenizer c <= chunkSize options + slack).

(** What the loop over the splits maintains about the budget. *)
Definition budget_invariant (options : TextSplitterOptions) (tokenizer : PreTrainedTokenizer)
           (slack : Z) (st : LoopState) : Prop :=
  Forall (within_budget_or_window options tokenizer slack) (finalChunks st)
  /\ 0 <= currentChunkTokens st <= chunkSize options
  /\ (currentChunk st = ""
      \/ tokenCount tokenizer (currentChunk st) <= currentChunkTokens st).

(** A tokenizer whose count is 1000 for a text that holds both an [a] and a
    [b] and 1 otherwise: the count of a concatenation can exceed the sum of
    the counts. *)
Definition has_char (c : ascii) (s : string) : bool :=
  existsb (Ascii.eqb c) (list_ascii_of_string s).

Definition clashing : PreTrainedTokenizer :=
  {| encode := fun s => if (has_char "a" s && has_char "b" s)%bool
                        then repeat 7 1000%nat else [7];
     decode := fun _ => "" |}.

(** How a predicate on outcome and final world holds of a run. *)
Definition run_satisfies {A} (m : M A) (w : World) (Q : outcome A -> World -> Prop) : Prop :=
  Q (fst (m w)) (snd (m w)).

(** The calls that change the chunk collection. *)
Definition is_chunk_write (ev : Event) : bool :=
  match ev with
  | EvChunksDelete _ => true
  | EvChunksAdd _ => true
  | _ => false
  end.

(** The calls that reach the chunk collection or the embedder. *)
Definition is_chunk_or_embedder_call (ev : Event) : bool :=
  match ev with
  | EvProjectsGet _ => false
  | EvProjectsUpdate _ => false
  | _ => true
  end.

(** [w'] comes after [w] with the stored chunks and the service flags as
    they were and without any write to the chunk collection in between. *)
Definition chunks_untouched (w w' : World) : Prop :=
  chunksCollection w' = chunksCollection w
  /\ db_isInitialized w' = db_isInitialized w
  /\ embedding_isInitialized w' = embedding_isInitialized w
  /\ exists evs, trace w' = trace w ++ evs
                 /\ Forall (fun ev => is_chunk_write ev = false) evs.

(** Ascending scores, [null] counting as [Infinity]. *)
Definition score_le (a b : option Q) : Prop :=
  match a, b with
  | Some x, Some y => (x <= y)%Q
  | _, None => True
  | None, Some _ => False
  end.

Definition score_ascending (a b : SearchResult.t) : Prop :=
  score_le (SearchResult.score a) (SearchResult.score b).

(** The result that stands for an entry of a query response, with the
    distance the store reported as its score. *)
Definition reported (r : Chroma.QueryRow) : list SearchResult.t :=
  match Chroma.q_metadata r, Chroma.q_document r with
  | Some meta, Some doc =>
      [{| SearchResult.text := doc;
          SearchResult.fileName := file_name meta;
          SearchResult.chunkIndex := chunk_index meta;
          SearchResult.score := Chroma.q_distance r |}]
  | _, _ => []
  end.

(** File name ascending, then chunk index ascending. *)
Definition fileName_chunkIndex_le (localeCompare : string -> string -> Z)
           (a b : SearchResult.t) : Prop :=
  localeCompare (SearchResult.fileName a) (SearchResult.fileName b) < 0
  \/ (SearchResult.fileName a = SearchResult.fileName b
      /\ SearchResult.chunkIndex a <= SearchResult.chunkIndex b).

(** [localeCompare] orders the strings totally and strictly. *)
Definition strict_collation (localeCompare : string -> string -> Z) : Prop :=
  (forall a b, localeCompare a b = 0 <-> a = b)
  /\ (forall a b, 0 < localeCompare a b -> localeCompare b a < 0)
  /\ (forall a b c, localeCompare a b < 0 -> localeCompare b c < 0 ->
                    localeCompare a c < 0).

(** The stored chunk behind a search result. *)
Definition result_of_row (r : ChunkRow) (res : SearchResult.t) : Prop :=
  exists meta doc,
    row_metadata r = Some meta /\ row_document r = Some doc
    /\ SearchResult.text res = doc
    /\ SearchResult.fileName res = file_name meta
    /\ SearchResult.chunkIndex res = chunk_index meta.

(** The ids [deleteMemoryBankContentByFile] selects, and what is left of
    the collection without them. *)
Definition file_ids (projectId fileName : string) (rows : list ChunkRow) : list string :=
  map row_id
      (List.filter (fun r => match row_metadata r with
                             | Some meta => (file_name meta =? fileName)%string
                             | None => false
                             end)
                   (List.filter (Chroma.matches [project_id_eq projectId]) rows)).

Definition without_ids (ids : list string) (rows : list ChunkRow) : list ChunkRow :=
  List.filter (fun r => negb (existsb (fun i => (row_id r =? i)%string) ids)) rows.

(** Arguments that the schema of the search tool refuses: an empty query,
    a search mode outside the enumeration, a [topK] that is not an integer
    from 1 to 20. *)
Definition empty_query (raw : RawSearchArgs) : Prop :=
  exists q, raw_query raw = Some (JString q) /\ Js.trim q = "".

Definition unsupported_mode (raw : RawSearchArgs) : Prop :=
  exists j, raw_searchType raw = Some j
            /\ j <> JString "semantic" /\ j <> JString "keyword".

Definition topK_out_of_range (raw : RawSearchArgs) : Prop :=
  exists k, raw_topK raw = Some (JNumber k)
            /\ (is_int k = false \/ (k < 1)%Q \/ (20 < k)%Q).

(** Concrete surroundings for running the services. *)
Module Sample.

Definition pid : string := "123e4567-e89b-12d3-a456-426614174000".

(** Distance on one-dimensional embeddings. *)
Definition distance (a b : Embedding) : Q :=
  match a, b with
  | [x], [y] => Qred (if Qle_bool x y then y - x else x - y)
  | _, _ => 0%Q
  end.

(** Comparison by code units. *)
Definition localeCompare (a b : string) : Z :=
  match String_as_OT.cmp a b with
  | Lt => -1
  | Eq => 0
  | Gt => 1
  end.

(** The extractor fails on the text "unembeddable" and maps every other
    text to the origin. *)
Definition extractor (text : string) : option Embedding :=
  if (text =? "unembeddable")%string then None else Some [0%Q].

Definition uuidv4 (n : nat) : string := ("chunk-" ++ Js.repeat_string n "i")%string.

(** A store that reports the [nResults] rows nearest to the query, in the
    order it holds them. *)
Definition entry (queryEmbedding : Embedding) (r : ChunkRow) : list Chroma.QueryRow :=
  match row_embedding r with
  | Some e => [{| Chroma.q_id := row_id r;
                  Chroma.q_distance := Some (distance queryEmbedding e);
                  Chroma.q_metadata := row_metadata r;
                  Chroma.q_document := row_document r |}]
  | None => []
  end.

Definition by_distance (a b : Chroma.QueryRow) : comparison :=
  match Chroma.q_distance a, Chroma.q_distance b with
  | Some x, Some y => Qcompare x y
  | _, _ => Eq
  end.

Definition queryAnswer (queryEmbedding : Embedding) (nResults : Z) (filter : Where)
           (rows : list ChunkRow) : list Chroma.QueryRow :=
  let candidates :=
    flat_map (entry queryEmbedding) (List.filter (Chroma.matches filter) rows) in
  let nearest := firstn (Z.to_nat nResults) (Js.sort by_distance candidates) in
  List.filter (fun c => existsb (fun n => (Chroma.q_id n =? Chroma.q_id c)%string) nearest)
              candidates.

(** A stand-in for [Date] on the timestamps used here: a string of the
    form [YYYY-MM-DDTHH:mm:ss.sssZ] with month 01-12, day 01-28, hour 00-23,
    minute and second 00-59 is a time and is its own ISO form; any other
    string counts as no time. *)
Definition digit_at (s : string) (i : nat) : option nat :=
  match String.get i s with
  | Some c => let n := nat_of_ascii c in
              if (Nat.leb 48 n && Nat.leb n 57)%bool then Some (n - 48)%nat else None
  | None => None
  end.

Definition number_at (s : string) (i len : nat) : option nat :=
  fold_left (fun acc j => match acc, digit_at s (i + j) with
                          | Some a, Some d => Some (10 * a + d)%nat
                          | _, _ => None
                          end)
            (seq 0 len) (Some O).

Definition char_at (s : string) (i : nat) (c : string) : bool :=
  (String.substring i 1 s =? c)%string.

Definition between (lo hi : nat) (n : option nat) : bool :=
  match n with
  | Some n => (Nat.leb lo n && Nat.leb n hi)%bool
  | None => false
  end.

Definition toISOString (s : string) : option string :=
  if (Nat.eqb (String.length s) 24
      && between 0 99 (number_at s 0 2) && between 0 99 (number_at s 2 2)
      && char_at s 4 "-"
      && between 1 12 (number_at s 5 2) && char_at s 7 "-"
      && between 1 28 (number_at s 8 2) && char_at s 10 "T"
      && between 0 23 (number_at s 11 2) && char_at s 13 ":"
      && between 0 59 (number_at s 14 2) && char_at s 16 ":"
      && between 0 59 (number_at s 17 2) && char_at s 19 "."
      && between 0 999 (number_at s 20 3) && char_at s 23 "Z")%bool
  then Some s else None.

Definition t0 : string := "2024-01-01T00:00:00.000Z".
Definition t1 : string := "2024-01-02T00:00:00.000Z".

Definition row (id fileName : string) (index : Z) (doc : string) (e : Q) : ChunkRow :=
  {| row_id := id;
     row_embedding := Some [e];
     row_metadata := Some {| chunk_id := id; project_id := pid; file_name := fileName;
                             chunk_index := index; created_at := t0; updated_at := t0 |};
     row_document := Some doc |}.

Definition project_row : ProjectRow :=
  {| project_row_id := pid;
     project_row_metadata :=
       Some {| pm_project_id := pid; pm_project_name := "demo";
               pm_created_at := t0; pm_last_modified_at := t0 |};
     project_row_document := Some "demo" |}.

(** A project row whose creation time was not written by [toISOString]. *)
Definition undated_project_row : ProjectRow :=
  {| project_row_id := pid;
     project_row_metadata :=
       Some {| pm_project_id := pid; pm_project_name := "demo";
               pm_created_at := "last week"; pm_last_modified_at := t0 |};
     project_row_document := Some "demo" |}.

(** The requests of a batch are answered oldest first unless [order] says
    otherwise. *)
Definition world_in_order (rows : list ChunkRow) (outages : list (option string))
           (order : list nat) : World :=
  {| projectsCollection := [project_row];
     chunksCollection := rows;
     db_isInitialized := true;
     chroma_outages := outages;
     arrivals := order;
     embedding_isInitialized := true;
     clock := t1;
     uuid_count := 0;
     trace := [] |}.

Definition world_with (rows : list ChunkRow) (outages : list (option string)) : World :=
  world_in_order rows outages [].

Definition undated_world (rows : list ChunkRow) : World :=
  {| projectsCollection := [undated_project_row];
     chunksCollection := rows;
     db_isInitialized := true;
     chroma_outages := [];
     arrivals := [];
     embedding_isInitialized := true;
     clock := t1;
     uuid_count := 0;
     trace := [] |}.

(** The message of a client that cannot reach the store. *)
Definition unreachable : string := "Failed to connect to chromadb.".

(** Five chunks at distances 0.1, 0.9, 0.3, 0.05 (= 1/20) and 0.5 from the
    origin. *)
Definition five_chunks : list ChunkRow :=
  [row "c1" "notes.md" 0 "alpha" (1 # 10);
   row "c2" "notes.md" 1 "beta" (9 # 10);
   row "c3" "notes.md" 2 "gamma" (3 # 10);
   row "c4" "plan.md" 0 "delta" (1 # 20);
   row "c5" "plan.md" 1 "epsilon" (5 # 10)].

(** The three chunks of the keyword example, in the store's order. *)
Definition keyword_chunks : list ChunkRow :=
  [row "k1" "fileA.md" 2 "no match" 0;
   row "k2" "fileA.md" 0 "hello world" 0;
   row "k3" "fileB.md" 0 "hello" 0].

Definition search_args (mode : string) (q : string) (k : Z) : RawSearchArgs :=
  {| raw_projectId := Some (JString pid);
     raw_query := Some (JString q);
     raw_searchType := Some (JString mode);
     raw_topK := Some (JNumber (inject_Z k));
     raw_fileFilter := None |}.

End Sample.

(** [w'] comes after [w] with nothing but look-ups of projects in between:
    both collections and the flags are as they were. *)
Definition only_project_lookups (w w' : World) : Prop :=
  chunksCollection w' = chunksCollection w
  /\ projectsCollection w' = projectsCollection w
  /\ db_isInitialized w' = db_isInitialized w
  /\ embedding_isInitialized w' = embedding_isInitialized w
  /\ exists evs, trace w' = trace w ++ evs
                 /\ Forall (fun ev => is_chunk_or_embedder_call ev = false) evs.

(** Chunk index ascending. *)
Definition chunkIndex_le (a b : MemoryBankChunk.t) : Prop :=
  MemoryBankChunk.chunkIndex a <= MemoryBankChunk.chunkIndex b.

(** The chunks stored for a project and file, in the store's order. *)
Definition stored_chunks (projectId fileName : string) (w : World)
  : list MemoryBankChunk.t :=
  flat_map chunk_of_row
           (List.filter (Chroma.matches [project_id_eq projectId; file_name_eq fileName])
                        (chunksCollection w)).

(** The chunks of a file as the store holds them, read off the rows without
    the services: index and text of every row that carries the project id
    and the file name and has a text, in the store's order. *)
Definition stored_texts (projectId fileName : string) (rows : list ChunkRow)
  : list (Z * string) :=
  flat_map (fun r => match row_metadata r, row_document r with
                     | Some meta, Some doc =>
                         if ((project_id meta =? projectId)%string
                             && (file_name meta =? fileName)%string)%bool
                         then [(chunk_index meta, doc)]
                         else []
                     | _, _ => []
                     end) rows.

Definition index_ascending (a b : Z * string) : Prop := fst a <= fst b.

(** The texts put one after the other, nothing in between. *)
Definition concatenation (texts : list string) : string :=
  fold_right String.append EmptyString texts.

(** Whether the coming call to the client throws. *)
Definition next_call_fails (w : World) : bool :=
  match chroma_outages w with
  | Some _ :: _ => true
  | _ => false
  end.

(** The message with which the coming call to the client fails, if it
    fails. *)
Definition next_failure (w : World) : option string :=
  match chroma_outages w with
  | Some failure :: _ => Some failure
  | _ => None
  end.

(** [text] contains [query] as a substring, case ignored. *)
Definition contains_ignoring_case (text query : string) : Prop :=
  Js.includes (Js.toLowerCase text) (Js.toLowerCase query) = true.

(** The candidate pool of a keyword search. *)
Definition keyword_pool (projectId : string) (fileFilter : option (list string))
           (w : World) : list ChunkRow :=
  firstn 100 (List.filter (Chroma.matches (search_filter projectId fileFilter))
                          (chunksCollection w)).

(** What the claim says of one result of a keyword search. *)
Definition keyword_result (pool : list ChunkRow) (query : string) (r : SearchResult.t)
  : Prop :=
  SearchResult.score r = None
  /\ contains_ignoring_case (SearchResult.text r) query
  /\ exists row, In row pool /\ result_of_row row r.

(** The response of the store to a semantic query. *)
Definition query_response
           (queryAnswer : Embedding -> Z -> Where -> list ChunkRow -> list Chroma.QueryRow)
           (queryEmbedding : Embedding) (topK : Z) (projectId : string)
           (fileFilter : option (list string)) (w : World) : list Chroma.QueryRow :=
  queryAnswer queryEmbedding topK (search_filter projectId fileFilter) (chunksCollection w).

(** The same order on the rows a keyword search sorts. *)
Definition db_fileName_chunkIndex_le (localeCompare : string -> string -> Z)
           (a b : DatabaseSearchResult.t) : Prop :=
  fileName_chunkIndex_le localeCompare (format_result a) (format_result b).

(* ================================================================= *)
(** ** Further calls of the ChromaDB client *)

(** The calls below are recorded with the events of the same collection and
    kind: a read of the project collection as [EvProjectsGet] with the key of
    the call (here a project name), a write to it as [EvProjectsUpdate] with
    the id written, a delete on the chunk collection as [EvChunksDelete] with
    the ids of the rows the filter selects. *)
Module ChromaMore.

Definition has_name (name : string) (r : ProjectRow) : bool :=
  match project_row_metadata r with
  | Some m => (pm_project_name m =? name)%string
  | None => false
  end.

(** [projectsCollection.get({ where: { project_name }, limit })] *)
Definition projects_get_by_name (name : string) (limit : option Z) : M (list ProjectRow) :=
  Chroma.call (EvProjectsGet name)
       (fun w => (Return (Chroma.limited limit
                   (List.filter (has_name name) (projectsCollection w))), w)).

(** [projectsCollection.add({ ids: [id], metadatas: [m], documents: [d] })] *)
Definition projects_add (row : ProjectRow) : M unit :=
  Chroma.call (EvProjectsUpdate (project_row_id row))
       (fun w => (Return tt, with_projects w (projectsCollection w ++ [row]))).

(** [projectsCollection.delete({ ids: [id] })] *)
Definition projects_delete (id : string) : M unit :=
  Chroma.call (EvProjectsUpdate id)
       (fun w => (Return tt,
                  with_projects w
                    (List.filter (fun r => negb (project_row_id r =? id)%string)
                                 (projectsCollection w)))).

(** [chunksCollection.delete({ where })] *)
Definition chunks_delete_where (filter : Where) : M unit :=
  fun w =>
    Chroma.call
      (EvChunksDelete (map row_id (List.filter (Chroma.matches filter) (chunksCollection w))))
      (fun w1 => (Return tt,
                  with_chunks w1
                    (List.filter (fun r => negb (Chroma.matches filter r))
                                 (chunksCollection w1))))
      w.

End ChromaMore.

(* ================================================================= *)
(** ** Further methods of the services *)

(** [Array.from(set)] after [set.add] of every element in turn: the
    elements in the order of their first occurrence. *)
Definition set_add (seen : list string) (x : string) : list string :=
  if existsb (fun y => (y =? x)%string) seen then seen else seen ++ [x].

Definition distinct (l : list string) : list string := fold_left set_add l [].

Section MoreServices.
Variable tokenizer : PreTrainedTokenizer.
Variable extractor : string -> option Embedding.
Variable uuidv4 : nat -> string.
Variable toISOString : string -> option string.
(** The successive results of [crypto.randomUUID()]. *)
Variable randomUUID : nat -> string.

(* ----------------------------------------------------------------- *)
(** *** DatabaseService *)

Definition findProjectByName (projectName : string) : M (option Project.t) :=
  ensureInitialized ;;;
  try_catch
    (results <- ChromaMore.projects_get_by_name projectName (Some 1) ;;
     match results with
     | row :: _ =>
         match project_row_metadata row with
         | None => ret None
         | Some meta =>
             ret (Some {| Project.projectId := project_row_id row;
                          Project.projectName := pm_project_name meta;
                          Project.createdAt := pm_created_at meta;
                          Project.lastModifiedAt := pm_last_modified_at meta |})
         end
     | [] => ret None
     end)
    (fun e => throw (McpError InternalError
                       ("DB error finding project by name: " ++ message e)%string)).

Definition insertProject (projectId projectName : string) : M Project.t :=
  ensureInitialized ;;;
  now_ <- now ;;
  let metadata :=
    {| pm_project_id := projectId;
       pm_project_name := projectName;
       pm_created_at := now_;
       pm_last_modified_at := now_ |} in
  try_catch
    ((* uniqueness is checked at application level before inserting *)
     existing <- findProjectByName projectName ;;
     match existing with
     | Some _ =>
         throw (McpError InvalidParams
                  ("Project name '" ++ projectName ++ "' already exists.")%string)
     | None =>
         ChromaMore.projects_add {| project_row_id := projectId;
                                    project_row_metadata := Some metadata;
                                    project_row_document := Some projectName |} ;;;
         ret {| Project.projectId := projectId;
                Project.projectName := projectName;
                Project.createdAt := now_;
                Project.lastModifiedAt := now_ |}
     end)
    (rethrow_McpError_or "DB error inserting project: ").

Definition deleteProjectRecord (projectId : string) : M bool :=
  ensureInitialized ;;;
  try_catch
    (ChromaMore.projects_delete projectId ;;; ret true)
    (fun e => throw (McpError InternalError
                       ("DB error deleting project record: " ++ message e)%string)).

Definition deleteMemoryBankContentByProject (projectId : string) : M bool :=
  ensureInitialized ;;;
  try_catch
    (ChromaMore.chunks_delete_where [project_id_eq projectId] ;;; ret true)
    (fun e => throw (McpError InternalError
                       ("DB error deleting project chunks: " ++ message e)%string)).

(** The file names of a [get] response that go into the set: rows with
    metadata and a non-empty [file_name]. *)
Definition named_file (r : ChunkRow) : list string :=
  match row_metadata r with
  | Some meta => if (file_name meta =? "")%string then [] else [file_name meta]
  | None => []
  end.

Definition getDistinctFileNamesByProject (projectId : string) : M (list string) :=
  ensureInitialized ;;;
  try_catch
    (results <- Chroma.chunks_get (Chroma.where_keys [project_id_eq projectId]) None ;;
     ret (distinct (flat_map named_file results)))
    (fun _ => throw (McpError InternalError "Database error getting distinct file names.")).

(* ----------------------------------------------------------------- *)
(** *** ProjectService *)

Definition createProject (projectName : string) : M Project.t :=
  if ((projectName =? "")%string || (100 <? Js.length projectName))%bool
  then throw (McpError InvalidParams "Invalid project name provided.")
  else
    (* the name must not exist yet *)
    existingProject <- findProjectByName projectName ;;
    match existingProject with
    | Some _ =>
        throw (McpError InvalidParams
                 ("Project name '" ++ projectName ++ "' already exists.")%string)
    | None =>
        projectId <- (fun w => (Return (randomUUID (uuid_count w)),
                                with_uuid_count w (S (uuid_count w)))) ;;
        try_catch
          (insertProject projectId projectName)
          (fun _ => throw (McpError InternalError
                             "Failed to create project due to database error."))
    end.

Definition deleteProject (projectId : string) : M bool :=
  if (projectId =? "")%string
  then throw (McpError InvalidParams "Invalid project ID provided.")
  else
    projectExists_ <- findProjectById projectId ;;
    match projectExists_ with
    | None => throw (project_not_found projectId)
    | Some _ =>
        try_catch
          ((* 1. the content first *)
           deleteMemoryBankContentByProject projectId ;;;
           (* 2. the project record *)
           deleted <- deleteProjectRecord projectId ;;
           if deleted : bool then ret true
           else throw (McpError InternalError "Failed to delete project record."))
          (fun _ => throw (McpError InternalError
                             "Failed to delete project due to database error."))
    end.

(* ----------------------------------------------------------------- *)
(** *** MemoryBankService *)

Definition listFiles (projectId : string) : M (list string) :=
  exists_ <- projectExists projectId ;;
  if negb exists_ then throw (project_not_found projectId)
  else
    try_catch
      (getDistinctFileNamesByProject projectId)
      (rethrow_McpError_or "Failed to list files: ").

Definition deleteFileContent (projectId fileName : string) : M bool :=
  exists_ <- projectExists projectId ;;
  if negb exists_ then throw (project_not_found projectId)
  else
    try_catch
      (deleteMemoryBankContentByFile projectId fileName ;;;
       updateLastModified toISOString projectId ;;;
       ret true)
      (rethrow_McpError_or "Failed to delete file content: ").

(* ----------------------------------------------------------------- *)
(** *** The memoryBank_updateFile tool *)

Record RawUpdateFileArgs := {
  raw_update_projectId : option json;
  raw_update_fileName : option json;
  raw_update_content : option json
}.

Record UpdateFileArgs := {
  update_projectId : string;
  update_fileName : string;
  update_content : string
}.

(** [fileName: z.string().min(1).max(100).regex(...)] *)
Definition parse_fileName (j : option json) : option string :=
  match j with
  | Some v => parse_file_name v
  | None => None
  end.

(** [content: z.string().trim().min(1)]; the parsed value is the trimmed one. *)
Definition parse_content (j : option json) : option string :=
  match j with
  | Some (JString c) =>
      if Nat.leb 1 (String.length (Js.trim c)) then Some (Js.trim c) else None
  | _ => None
  end.

(** Parsing with [z.object(TOOL_PARAMS_UPDATE_FILE)]. *)
Definition parse_update_args (raw : RawUpdateFileArgs) : option UpdateFileArgs :=
  match parse_projectId (raw_update_projectId raw),
        parse_fileName (raw_update_fileName raw),
        parse_content (raw_update_content raw) with
  | Some p, Some f, Some c =>
      Some {| update_projectId := p; update_fileName := f; update_content := c |}
  | _, _, _ => None
  end.

(** The handler registered for the tool, behind the schema check of the
    SDK. *)
Definition memoryBank_updateFile (raw : RawUpdateFileArgs) : M unit :=
  match parse_update_args raw with
  | None => throw (McpError InvalidParams "Invalid arguments for tool memoryBank_updateFile")
  | Some args =>
      try_catch
        (updateFileContent tokenizer extractor uuidv4 toISOString
           (update_projectId args) (update_fileName args) (update_content args))
        (fun e => if instanceof_McpError e then throw e
                  else throw (McpError InternalError (message e)))
  end.

End MoreServices.

(* ================================================================= *)
(** ** Vocabulary of the further properties *)

(** Token position [k] lies in a window whose decoding is among [chunks]. *)
Definition covered (options : TextSplitterOptions) (tokenizer : PreTrainedTokenizer)
           (ids : list Z) (chunks : list string) (k : Z) : Prop :=
  exists j, 0 <= j <= k /\ k < j + chunkSize options
            /\ In (decode tokenizer (Js.slice ids j (j + chunkSize options))) chunks.

(** The splits with the separator put back, as the loop over the splits
    measures and appends them, from index [i] on. *)
Fixpoint reattached (separator : string) (i : nat) (splits : list string) : list string :=
  match splits with
  | [] => []
  | split :: rest =>
      (if (Nat.ltb 0 i && negb (separator =? "")%string)%bool
       then (separator ++ split)%string else split)
        :: reattached separator (S i) rest
  end.

(** The sum of the token counts the loop over the splits measures. *)
Definition measured_tokens (tokenizer : PreTrainedTokenizer) (separator text : string) : Z :=
  fold_right Z.add 0
             (map (tokenCount tokenizer) (reattached separator 0 (Js.split text separator))).

(** The rows that the inserts of an update add for the chunks, with ids
    from the [n]-th uuid on and chunk indices from [i] on. *)
Fixpoint inserted_rows (uuidv4 : nat -> string) (projectId fileName now_ : string)
         (embeddings : list Embedding) (n : nat) (i : Z) (chunks : list string)
  : list ChunkRow :=
  match chunks with
  | [] => []
  | c :: rest =>
      {| row_id := uuidv4 n;
         row_embedding := Some (nth (Z.to_nat i) embeddings []);
         row_metadata := Some {| chunk_id := uuidv4 n;
                                 project_id := projectId;
                                 file_name := fileName;
                                 chunk_index := i;
                                 created_at := now_;
                                 updated_at := now_ |};
         row_document := Some c |}
        :: inserted_rows uuidv4 projectId fileName now_ embeddings (S n) (i + 1) rest
  end.

(** Index and text of a chunk. *)
Definition index_and_text (c : MemoryBankChunk.t) : Z * string :=
  (MemoryBankChunk.chunkIndex c, MemoryBankChunk.chunkText c).

(** The project collection holds a usable row for the id: the first row
    with that id has metadata. *)
Definition known_project (projectId : string) (projects : list ProjectRow) : Prop :=
  projectId <> ""
  /\ exists row rest meta,
      List.filter (fun r => (project_row_id r =? projectId)%string) projects = row :: rest
      /\ project_row_metadata row = Some meta.

(** The creation time recorded for the project is one that [new Date]
    reads and [toISOString] writes: the first row with the id has metadata
    whose [created_at] is a valid date. *)
Definition created_at_parses (toISOString : string -> option string) (projectId : string)
           (projects : list ProjectRow) : Prop :=
  exists row rest meta iso,
    List.filter (fun r => (project_row_id r =? projectId)%string) projects = row :: rest
    /\ project_row_metadata row = Some meta
    /\ toISOString (pm_created_at meta) = Some iso.

(** A chunk row of the project that carries the file name. *)
Definition file_of_project (projectId fileName : string) (rows : list ChunkRow) : Prop :=
  exists row meta,
    In row rows /\ row_metadata row = Some meta
    /\ project_id meta = projectId /\ file_name meta = fileName.

(** The names recorded in the project collection. *)
Definition project_names (rows : list ProjectRow) : list string :=
  flat_map (fun r => match project_row_metadata r with
                     | Some m => [pm_project_name m]
                     | None => []
                     end) rows.

(** [res] stands for a stored chunk of the project and, when the filter
    names files, of one of these files. *)
Definition within_scope (projectId : string) (fileFilter : option (list string))
           (rows : list ChunkRow) (res : SearchResult.t) : Prop :=
  exists row meta,
    In row rows /\ row_metadata row = Some meta
    /\ project_id meta = projectId
    /\ (forall f fs, fileFilter = Some (f :: fs) -> In (file_name meta) (f :: fs))
    /\ result_of_row row res.

(** The store answers a query with rows it holds that satisfy the
    conditions of the query, and reports their metadata and documents. *)
Definition reports_stored_rows
           (queryAnswer : Embedding -> Z -> Where -> list ChunkRow -> list Chroma.QueryRow)
  : Prop :=
  forall queryEmbedding nResults filter rows entry,
    In entry (queryAnswer queryEmbedding nResults filter rows) ->
    exists row,
      In row rows /\ Chroma.matches filter row = true
      /\ Chroma.q_metadata entry = row_metadata row
      /\ Chroma.q_document entry = row_document row.

(** Both collections are as they were. *)
Definition stores_kept (w w' : World) : Prop :=
  chunksCollection w' = chunksCollection w
  /\ projectsCollection w' = projectsCollection w.

(** A computation that leaves both collections as they are, however it
    ends. *)
Definition read_only {A} (m : M A) : Prop := forall w, stores_kept w (snd (m w)).

(** A computation whose every failure is an [McpError]. *)
Definition throws_only_McpError {A} (m : M A) : Prop :=
  forall w e, fst (m w) = Throw e -> instanceof_McpError e = true.

(** A computation whose every failure is an [McpError] of code
    [InternalError]. *)
Definition fails_internally {A} (m : M A) : Prop :=
  forall w e, fst (m w) = Throw e -> exists msg, e = McpError InternalError msg.

(** A computation that settles from every world. *)
Definition never_hangs {A} (m : M A) : Prop := forall w, fst (m w) <> Hang.

(** The row [insertProject] adds for a project. *)
Definition row_of_project (p : Project.t) : ProjectRow :=
  {| project_row_id := Project.projectId p;
     project_row_metadata :=
       Some {| pm_project_id := Project.projectId p;
               pm_project_name := Project.projectName p;
               pm_created_at := Project.createdAt p;
               pm_last_modified_at := Project.lastModifiedAt p |};
     project_row_document := Some (Project.projectName p) |}.

(* ================================================================= *)
(** ** Vocabulary for requests in flight *)

(** A computation that ends in the same way in every world and leaves the
    world as it is. *)
Definition settles_to {A} (rest : M A) (o : outcome A) : Prop :=
  forall w, rest w = (o, w).

(** The promise of a call whose rest does nothing to the world, with the
    outcome of the call. *)
Definition pure_promise {A} (promise : Promise A) (o : outcome A) : Prop :=
  match promise with
  | Pending rest => settles_to rest o /\ o <> Hang
  | Fulfilled a => o = Return a
  | Rejected _ => False
  end.

(** How a call of [generateEmbedding] ends once the pipeline has answered. *)
Definition embedding_outcome (extractor : string -> option Embedding) (text : string)
  : outcome Embedding :=
  match extractor text with
  | Some embedding => Return embedding
  | None =>
      Throw (McpError InternalError
               "Embedding generation failed: Embedding pipeline returned unexpected output structure or null data.")
  end.

(** The error of an insert whose request failed with message [m]. *)
Definition insert_failed (m : string) : exn :=
  McpError InternalError ("DB error inserting chunk: " ++ m)%string.

(** The rest of a call that adds [row] when its request is answered and
    throws when the request fails. *)
Definition adds {A} (row : ChunkRow) (rest : M A) : Prop :=
  forall w, exists a,
    rest w = match chroma_outages w with
             | [] => (Return a, with_chunks w (chunksCollection w ++ [row]))
             | None :: o =>
                 (Return a, with_chunks (with_outages w o) (chunksCollection w ++ [row]))
             | Some m :: o => (Throw (insert_failed m), with_outages w o)
             end.

Definition add_promise {A} (promise : Promise A) (row : ChunkRow) : Prop :=
  match promise with
  | Pending rest => adds row rest
  | Fulfilled _ => True
  | Rejected _ => False
  end.

(** The rows of the promises that are still pending. *)
Fixpoint pending_rows {A} (promises : list (Promise A)) (rows : list ChunkRow)
  : list ChunkRow :=
  match promises, rows with
  | Pending _ :: promises', row :: rows' => row :: pending_rows promises' rows'
  | _ :: promises', _ :: rows' => pending_rows promises' rows'
  | _, _ => []
  end.

(** The first [n] requests found the store answering, and [after] is what
    is left of the outages [before]. *)
Definition answered (n : nat) (before after : list (option string)) : Prop :=
  after = skipn n before /\ Forall (fun o => o = None) (firstn n before).

(** [w'] is [w] with the rows [landed] added at the end of the chunk
    collection; the outages and the arrivals apart, nothing else differs. *)
Definition landed_between (w w' : World) (landed : list ChunkRow) : Prop :=
  chunksCollection w' = chunksCollection w ++ landed
  /\ projectsCollection w' = projectsCollection w
  /\ db_isInitialized w' = db_isInitialized w
  /\ embedding_isInitialized w' = embedding_isInitialized w
  /\ clock w' = clock w
  /\ uuid_count w' = uuid_count w
  /\ trace w' = trace w.

(* ################################################################# *)
(** * Properties *)

(* ================================================================= *)
(** ** The token window of the base case *)

Section WindowLoop.
Variable options : TextSplitterOptions.
Variable tokenizer : PreTrainedTokenizer.

Lemma window_loop_more_fuel (ids : list Z) :
  forall fuel i acc res,
    window_loop options tokenizer fuel ids i acc = Some res ->
    window_loop options tokenizer (S fuel) ids i acc = Some res.
Proof.
  induction fuel as [|fuel IH]; intros i acc res H.
  - discriminate.
  - cbn [window_loop] in H. cbn [window_loop].
    destruct (i <? Z.of_nat (List.length ids)); [|exact H].
    apply IH in H. exact H.
Qed.

Lemma window_loop_fuel_le (ids : list Z) :
  forall fuel fuel' i acc res,
    (fuel <= fuel')%nat ->
    window_loop options tokenizer fuel ids i acc = Some res ->
    window_loop options tokenizer fuel' ids i acc = Some res.
Proof.
  intros fuel fuel' i acc res Hle H.
  induction Hle as [|m Hle IH]; [exact H|].
  now apply window_loop_more_fuel.
Qed.

Lemma ceil_div_step (m d : Z) :
  0 < d -> 0 < m -> 1 + ceil_div (Z.max 0 (m - d)) d <= ceil_div m d.
Proof.
  intros Hd Hm. unfold ceil_div.
  replace (m + d - 1) with ((m - 1) + 1 * d) by ring.
  rewrite Z.div_add by lia.
  destruct (Z.le_gt_cases d m) as [Hle|Hgt].
  - rewrite Z.max_r by lia.
    replace (m - d + d - 1) with (m - 1) by ring. lia.
  - rewrite Z.max_l by lia.
    replace (0 + d - 1) with (d - 1) by ring.
    rewrite (Z.div_small (d - 1) d) by lia.
    assert (0 <= (m - 1) / d) by (apply Z.div_pos; lia). lia.
Qed.

Lemma ceil_div_nonneg (m d : Z) : 0 < d -> 0 <= m -> 0 <= ceil_div m d.
Proof. intros. unfold ceil_div. apply Z.div_pos; lia. Qed.

(** With a positive step the loop ends within one round per remaining token,
    appends to what it was given and emits at most one chunk per round. *)
Lemma window_loop_enough_fuel (ids : list Z) :
  0 < window_step options ->
  forall fuel i acc,
    0 <= i ->
    (Z.to_nat (Z.of_nat (List.length ids) - i) < fuel)%nat ->
    exists out,
      window_loop options tokenizer fuel ids i acc = Some (acc ++ out)
      /\ Z.of_nat (List.length out)
         <= ceil_div (Z.max 0 (Z.of_nat (List.length ids) - i)) (window_step options).
Proof.
  intros Hstep. unfold window_step in *.
  induction fuel as [|fuel IH]; intros i acc Hi Hfuel; [lia|].
  cbn [window_loop].
  destruct (Z.ltb_spec i (Z.of_nat (List.length ids))) as [Hlt|Hge].
  - destruct (IH (i + (chunkSize options - chunkOverlap options))
                (if 0 <? Z.of_nat (List.length (Js.slice ids i (i + chunkSize options)))
                 then acc ++ [decode tokenizer (Js.slice ids i (i + chunkSize options))]
                 else acc)) as [out [Hout Hlen]]; [lia|lia|].
    pose proof (ceil_div_step (Z.of_nat (List.length ids) - i)
                  (chunkSize options - chunkOverlap options) Hstep ltac:(lia)) as Hc.
    rewrite (Z.max_r 0 (Z.of_nat (List.length ids) - i)) by lia.
    replace (Z.of_nat (List.length ids) - (i + (chunkSize options - chunkOverlap options)))
      with (Z.of_nat (List.length ids) - i - (chunkSize options - chunkOverlap options))
      in Hlen by ring.
    destruct (0 <? Z.of_nat (List.length (Js.slice ids i (i + chunkSize options)))).
    + exists (decode tokenizer (Js.slice ids i (i + chunkSize options)) :: out).
      split.
      * rewrite Hout, <- app_assoc. reflexivity.
      * cbn [List.length]. lia.
    + exists out. split; [exact Hout|lia].
  - exists []. split.
    + now rewrite app_nil_r.
    + cbn. apply ceil_div_nonneg; lia.
Qed.

(** With a step that is not positive the window never leaves the start of a
    non-empty token sequence: no amount of fuel is enough. *)
Lemma window_loop_stuck (ids : list Z) :
  window_step options <= 0 ->
  ids <> [] ->
  forall fuel i acc,
    i <= 0 -> window_loop options tokenizer fuel ids i acc = None.
Proof.
  intros Hstep Hne. unfold window_step in Hstep.
  induction fuel as [|fuel IH]; intros i acc Hi; [reflexivity|].
  cbn [window_loop].
  assert (0 < Z.of_nat (List.length ids)) by (destruct ids; [congruence|cbn; lia]).
  destruct (Z.ltb_spec i (Z.of_nat (List.length ids))); [|lia].
  apply IH. lia.
Qed.

(** Every chunk the loop adds is the decoding of a window that starts at a
    non-negative index. *)
Lemma window_loop_Forall (P : string -> Prop) (ids : list Z) :
  0 <= window_step options ->
  (forall j, 0 <= j -> P (decode tokenizer (Js.slice ids j (j + chunkSize options)))) ->
  forall fuel i acc res,
    0 <= i ->
    Forall P acc ->
    window_loop options tokenizer fuel ids i acc = Some res ->
    Forall P res.
Proof.
  intros Hstep HP. unfold window_step in Hstep.
  induction fuel as [|fuel IH]; intros i acc res Hi Hacc H; [discriminate|].
  cbn [window_loop] in H.
  destruct (i <? Z.of_nat (List.length ids)).
  - apply IH in H; [exact H|lia|].
    destruct (0 <? Z.of_nat (List.length (Js.slice ids i (i + chunkSize options)))).
    + apply Forall_app. split; [exact Hacc|]. constructor; [now apply HP|constructor].
    + exact Hacc.
  - congruence.
Qed.

End WindowLoop.

(** The empty-separator case with a positive step. *)
Lemma terminal_case_returns
  (options : TextSplitterOptions) (tokenizer : PreTrainedTokenizer)
  (remainingSeparators : list string) (text : string) :
  0 < window_step options ->
  exists chunks,
    _splitTextWithTokenizer options tokenizer ("" :: remainingSeparators) text
      = Some chunks
    /\ (text <> "" ->
        forall fuel, (List.length (encode tokenizer text) < fuel)%nat ->
          window_loop options tokenizer fuel (encode tokenizer text) 0 [] = Some chunks)
    /\ Z.of_nat (List.length chunks)
       <= ceil_div (tokenCount tokenizer text) (window_step options).
Proof.
  intros Hstep. cbn [_splitTextWithTokenizer String.eqb].
  destruct text as [|c text'].
  - exists []. cbn. split; [reflexivity|]. split; [congruence|].
    apply ceil_div_nonneg; [exact Hstep|]. unfold tokenCount. lia.
  - set (text := String c text').
    assert (Hlen : (Js.length text =? 0) = false).
    { unfold Js.length, text. cbn [String.length]. apply Z.eqb_neq. lia. }
    rewrite Hlen.
    destruct (window_loop_enough_fuel options tokenizer (encode tokenizer text) Hstep
                (S (List.length (encode tokenizer text))) 0 [])
      as [out [Hout Hbound]]; [lia|lia|].
    exists out. cbn [app] in Hout. split; [exact Hout|]. split.
    + intros _ fuel Hfuel.
      apply (window_loop_fuel_le options tokenizer _
               (S (List.length (encode tokenizer text))) fuel); [lia|exact Hout].
    + unfold tokenCount. rewrite Z.sub_0_r, Z.max_r in Hbound by lia. exact Hbound.
Qed.

(** C7, as the code has it: the empty-separator case slides the window by
    [chunkSize - chunkOverlap]; whenever that step is positive the call
    returns, the loop ends within one round per token, and the number of
    chunks is at most [ceil(tokenCount / (chunkSize - chunkOverlap))]. *)
Theorem window_terminates_with_positive_step
  (options : TextSplitterOptions) (tokenizer : PreTrainedTokenizer)
  (remainingSeparators : list string) (text : string) :
  0 < window_step options ->
  exists chunks,
    _splitTextWithTokenizer options tokenizer ("" :: remainingSeparators) text
      = Some chunks
    /\ (text <> "" ->
        forall fuel, (List.length (encode tokenizer text) < fuel)%nat ->
          window_loop options tokenizer fuel (encode tokenizer text) 0 [] = Some chunks)
    /\ Z.of_nat (List.length chunks)
       <= ceil_div (tokenCount tokenizer text) (window_step options).
Proof. exact (terminal_case_returns options tokenizer remainingSeparators text). Qed.

Lemma window_terminates_with_positive_step_witness :
  0 < window_step chunk_options
  /\ exists chunks,
      _splitTextWithTokenizer chunk_options Tokenizers.char_level [""] "abc" = Some chunks
      /\ ("abc" <> "" ->
          forall fuel, (List.length (encode Tokenizers.char_level "abc") < fuel)%nat ->
            window_loop chunk_options Tokenizers.char_level fuel
              (encode Tokenizers.char_level "abc") 0 [] = Some chunks)
      /\ Z.of_nat (List.length chunks)
         <= ceil_div (tokenCount Tokenizers.char_level "abc") (window_step chunk_options).
Proof.
  split.
  - reflexivity.
  - apply (window_terminates_with_positive_step chunk_options Tokenizers.char_level [] "abc").
    reflexivity.
Defined.

(** C7 as stated fails: no minimum step is enforced. With
    [chunkSize = chunkOverlap = 50] the window over the one token of "a"
    never advances, whatever the fuel, and the call does not return. *)
Lemma window_without_minimum_step_never_ends :
  ~ (exists fuel chunks,
        window_loop {| chunkSize := 50; chunkOverlap := 50 |} Tokenizers.char_level
          fuel (encode Tokenizers.char_level "a") 0 [] = Some chunks)
  /\ _splitTextWithTokenizer {| chunkSize := 50; chunkOverlap := 50 |}
       Tokenizers.char_level [""] "a" = None
  /\ _splitTextWithTokenizer {| chunkSize := 50; chunkOverlap := 50 |}
       Tokenizers.char_level default_separators (Js.repeat_string 51 "a") = None.
Proof.
  split.
  - intros [fuel [chunks H]].
    rewrite window_loop_stuck in H.
    + discriminate.
    + unfold window_step. cbn. lia.
    + vm_compute. congruence.
    + lia.
  - split; vm_compute; reflexivity.
Qed.

(* ================================================================= *)
(** ** What the chunker does on particular documents *)

Lemma push_if_not_blank_empty (chunks : list string) :
  push_if_not_blank chunks "" = chunks.
Proof. reflexivity. Qed.

(** C1 at a failing input: the pending chunk "intro" is reset, not emitted,
    when the next paragraph is too large for one chunk; the word occurs in
    the document and in none of the chunks. *)
Theorem chunk_drops_pending_chunk :
  exists chunks,
    chunk Tokenizers.char_level intro_then_long_paragraph = Some chunks
    /\ Js.includes intro_then_long_paragraph "intro" = true
    /\ Js.includes (Js.join chunks) "intro" = false
    /\ Js.includes (Js.join chunks) "i" = false.
Proof.
  eexists. split; [vm_compute; reflexivity|].
  repeat split; vm_compute; reflexivity.
Qed.

(** The same for every tokenizer: when the first split fits the budget and
    the second, with its separator, does not, the chunks are those of the
    second split alone. *)
Lemma pending_chunk_dropped (options : TextSplitterOptions) (tokenizer : PreTrainedTokenizer)
      (recurse : string -> option (list string)) (separator s1 s2 : string)
      (subChunks : list string) :
  separator <> "" ->
  tokenCount tokenizer s1 <= chunkSize options ->
  chunkSize options < tokenCount tokenizer (separator ++ s2)%string ->
  recurse s2 = Some subChunks ->
  split_segments options tokenizer recurse separator [s1; s2] = Some subChunks.
Proof.
  intros Hsep H1 H2 Hrec. unfold split_segments. cbn [segments_loop]. cbv zeta.
  cbn [Nat.ltb Nat.leb andb].
  destruct (String.eqb_spec separator "") as [E|_]; [congruence|]. cbn [negb].
  destruct (Z.ltb_spec (chunkSize options) (tokenCount tokenizer s1)); [lia|].
  cbn [currentChunkTokens currentChunk finalChunks].
  destruct (Z.leb_spec (0 + tokenCount tokenizer s1) (chunkSize options)); [|lia].
  destruct (Z.ltb_spec (chunkSize options) (tokenCount tokenizer (separator ++ s2)%string));
    [|lia].
  rewrite Hrec. cbn [finalChunks currentChunk app]. apply f_equal.
  apply push_if_not_blank_empty.
Qed.

(** A single line of 2000 tokens is cut into five chunks of at most 450
    tokens by the character-level tokenizer. *)
Lemma long_line_yields_five_chunks :
  exists chunks,
    chunk Tokenizers.char_level (Js.repeat_string 2000 "x") = Some chunks
    /\ List.length chunks = 5%nat
    /\ forallb (fun c => tokenCount Tokenizers.char_level c <=? 450) chunks = true.
Proof.
  eexists. split; [vm_compute; reflexivity|]. split; vm_compute; reflexivity.
Qed.


(** C9 at failing inputs: the base case pushes every decoded window.
    - With special tokens, the last window of 799 exclamation marks holds
      the closing special token alone and decodes to the empty string.
    - With one token per character, 451 tab characters are white space
      only, yet two chunks of white space come back. *)
Theorem chunk_emits_blank_chunks :
  (exists chunks,
      chunk Tokenizers.bert_like (Js.repeat_string 799 "!") = Some chunks
      /\ In "" chunks)
  /\ (exists chunks,
         chunk Tokenizers.char_level (Js.repeat_string 451 TAB) = Some chunks
         /\ blank (Js.repeat_string 451 TAB)
         /\ chunks <> []
         /\ Forall blank chunks).
Proof.
  split.
  - eexists. split; [vm_compute; reflexivity|]. cbn. tauto.
  - eexists. split; [vm_compute; reflexivity|].
    split; [vm_compute; reflexivity|].
    split; [discriminate|].
    repeat constructor.
Qed.

(* ================================================================= *)
(** ** Totality of the splitter and the token budget *)

Lemma slice_length_le {A : Type} (l : list A) (j size : Z) :
  0 <= j -> 0 <= size ->
  Z.of_nat (List.length (Js.slice l j (j + size))) <= size.
Proof.
  intros Hj Hsize. unfold Js.slice.
  destruct (Z.ltb_spec j 0); [lia|].
  destruct (Z.ltb_spec (j + size) 0); [lia|].
  pose proof (firstn_le_length
                (Z.to_nat (Z.min (j + size) (Z.of_nat (List.length l))
                           - Z.min j (Z.of_nat (List.length l))))
                (skipn (Z.to_nat (Z.min j (Z.of_nat (List.length l)))) l)).
  lia.
Qed.

Section SplitterProperties.
Variable options : TextSplitterOptions.
Variable tokenizer : PreTrainedTokenizer.

(** The loop over the splits returns whenever the recursive call does. *)
Lemma segments_loop_total (recurse : string -> option (list string)) (separator : string) :
  (forall s, recurse s <> None) ->
  forall splits i st,
    segments_loop options tokenizer recurse separator i splits st <> None.
Proof.
  intros Hrec. induction splits as [|split rest IH]; intros i st.
  - discriminate.
  - cbn [segments_loop]. cbv zeta.
    repeat match goal with
           | |- context [if ?b then _ else _] => destruct b
           | |- context [match recurse ?s with _ => _ end] =>
               let E := fresh "E" in
               destruct (recurse s) eqn:E; [|exfalso; exact (Hrec s E)]
           end; apply IH.
Qed.

Lemma split_segments_total (recurse : string -> option (list string))
      (separator : string) (splits : list string) :
  (forall s, recurse s <> None) ->
  split_segments options tokenizer recurse separator splits <> None.
Proof.
  intros Hrec. unfold split_segments.
  destruct (segments_loop options tokenizer recurse separator 0 splits _) eqn:E.
  - discriminate.
  - exfalso. exact (segments_loop_total recurse separator Hrec _ _ _ E).
Qed.

(** With a positive step and the empty separator in the list, the splitter
    returns on every text. *)
Lemma splitText_total :
  0 < window_step options ->
  forall separators, In "" separators ->
    forall text, _splitTextWithTokenizer options tokenizer separators text <> None.
Proof.
  intros Hstep. induction separators as [|separator rest IH]; intros Hin text.
  - destruct Hin.
  - cbn [_splitTextWithTokenizer].
    destruct (String.eqb_spec separator "") as [->|Hne].
    + destruct (terminal_case_returns options tokenizer rest text Hstep)
        as [chunks [H _]].
      cbn [_splitTextWithTokenizer String.eqb] in H.
      destruct (Js.length text =? 0); [discriminate|]. rewrite H. discriminate.
    + apply split_segments_total. apply IH.
      destruct Hin as [E|Hin]; [congruence|exact Hin].
Qed.

Section Budget.
(** How many tokens a decoded window may gain when it is encoded again. *)
Variable slack : Z.
Hypothesis size_nonneg : 0 <= chunkSize options.
Hypothesis step_nonneg : 0 <= window_step options.
(** The separators the splitter is called with. *)
Variable separators0 : list string.
(** Where the splitter joins, at a separator, the count of the whole is at
    most the sum of the counts of the parts. *)
Hypothesis count_subadditive :
  forall a separator s,
    In separator separators0 -> separator <> "" ->
    tokenCount tokenizer (a ++ (separator ++ s))%string
    <= tokenCount tokenizer a + tokenCount tokenizer (separator ++ s)%string.
(** Decoding a token window of a text and encoding the result again gives
    at most [slack] ids more than the window held. *)
Hypothesis reencode_slack :
  forall text j, 0 <= j ->
    tokenCount tokenizer
      (decode tokenizer (Js.slice (encode tokenizer text) j (j + chunkSize options)))
    <= Z.of_nat (List.length (Js.slice (encode tokenizer text) j (j + chunkSize options)))
       + slack.

Lemma push_within_budget (chunks : list string) (c : string) :
  Forall (within_budget_or_window options tokenizer slack) chunks ->
  (c = "" \/ (within_budget options tokenizer) c) ->
  Forall (within_budget_or_window options tokenizer slack) (push_if_not_blank chunks c).
Proof.
  intros Hc [->|Hb]; [now rewrite push_if_not_blank_empty|].
  unfold push_if_not_blank. destruct (0 <? Js.length (Js.trim c)); [|exact Hc].
  apply Forall_app. split; [exact Hc|]. constructor; [now left|constructor].
Qed.

Lemma tokenCount_nonneg (s : string) : 0 <= tokenCount tokenizer s.
Proof. unfold tokenCount. lia. Qed.

Lemma segments_loop_budget (recurse : string -> option (list string)) (separator : string) :
  In separator separators0 -> separator <> "" ->
  (forall s l, recurse s = Some l ->
               Forall (within_budget_or_window options tokenizer slack) l) ->
  forall splits i st st',
    (i = O -> currentChunk st = "") ->
    (budget_invariant options tokenizer slack) st ->
    segments_loop options tokenizer recurse separator i splits st = Some st' ->
    (budget_invariant options tokenizer slack) st'.
Proof.
  intros Hin Hsep Hrec. induction splits as [|split rest IH]; intros i st st' Hfirst Hinv H.
  - cbn in H. now injection H as <-.
  - destruct Hinv as [Hfin [Htok Hcur]].
    cbn [segments_loop] in H. cbv zeta in H.
    set (sws := if (Nat.ltb 0 i && negb (separator =? "")%string)%bool
                then (separator ++ split)%string else split) in *.
    pose proof (tokenCount_nonneg sws) as Hsws.
    destruct (Z.ltb_spec (chunkSize options) (tokenCount tokenizer sws)) as [Hbig|Hfit].
    + destruct (recurse split) as [sub|] eqn:E; [|discriminate].
      apply IH in H; [exact H|discriminate|].
      repeat split; cbn; try lia; [|now left].
      apply Forall_app. split; [exact Hfin|exact (Hrec _ _ E)].
    + destruct (Z.leb_spec (currentChunkTokens st + tokenCount tokenizer sws)
                           (chunkSize options)) as [Hroom|Hfull].
      * apply IH in H; [exact H|discriminate|].
        repeat split; cbn; try lia; [exact Hfin|].
        right. destruct Hcur as [->|Hcur]; [cbn; lia|].
        destruct i as [|i'].
        -- rewrite (Hfirst eq_refl). cbn. lia.
        -- assert (Hjoined : sws = (separator ++ split)%string).
           { unfold sws. cbn [Nat.ltb Nat.leb andb].
             destruct (String.eqb_spec separator "") as [E|_]; [contradiction|reflexivity]. }
           rewrite Hjoined in *.
           pose proof (count_subadditive (currentChunk st) separator split Hin Hsep). lia.
      * set (cc1 := (Js.substring (currentChunk st)
                       (Z.max 0 (Js.length (currentChunk st) - chunkOverlap options * 4))
                     ++ sws)%string) in *.
        assert (Hpush : Forall (within_budget_or_window options tokenizer slack)
                          (push_if_not_blank (finalChunks st) (currentChunk st))).
        { apply push_within_budget; [exact Hfin|].
          destruct Hcur as [->|Hcur]; [now left|right; unfold within_budget; lia]. }
        destruct (Z.ltb_spec (chunkSize options) (tokenCount tokenizer cc1)) as [Hover|Hok].
        -- destruct (recurse sws) as [sub|] eqn:E; [|discriminate].
           apply IH in H; [exact H|discriminate|].
           repeat split; cbn; try lia; [|now left].
           apply Forall_app. split; [exact Hpush|exact (Hrec _ _ E)].
        -- apply IH in H; [exact H|discriminate|].
           pose proof (tokenCount_nonneg cc1).
           repeat split; cbn; try lia; exact Hpush.
Qed.

Lemma split_segments_budget (recurse : string -> option (list string))
      (separator : string) (splits chunks : list string) :
  In separator separators0 -> separator <> "" ->
  (forall s l, recurse s = Some l ->
               Forall (within_budget_or_window options tokenizer slack) l) ->
  split_segments options tokenizer recurse separator splits = Some chunks ->
  Forall (within_budget_or_window options tokenizer slack) chunks.
Proof.
  intros Hin Hsep Hrec H. unfold split_segments in H.
  destruct (segments_loop options tokenizer recurse separator 0 splits _) as [st|] eqn:E;
    [|discriminate].
  injection H as <-.
  apply segments_loop_budget in E; try assumption.
  - destruct E as [Hfin [Htok Hcur]].
    apply push_within_budget; [exact Hfin|].
    destruct Hcur as [->|Hcur]; [now left|right; unfold within_budget; lia].
  - reflexivity.
  - repeat split; cbn; try lia; [constructor|now left].
Qed.

(** With no separator left the text is the only split: it is returned as
    it is when it fits. *)
Lemma single_split_budget (text : string) (chunks : list string) :
  split_segments options tokenizer (fun _ => None) "undefined" [text] = Some chunks ->
  Forall (within_budget_or_window options tokenizer slack) chunks.
Proof.
  unfold split_segments. cbn [segments_loop Nat.ltb Nat.leb andb]. cbv zeta.
  cbn [currentChunkTokens currentChunk finalChunks].
  pose proof (tokenCount_nonneg text).
  destruct (Z.ltb_spec (chunkSize options) (tokenCount tokenizer text)) as [Hbig|Hfit];
    [discriminate|].
  destruct (Z.leb_spec (0 + tokenCount tokenizer text) (chunkSize options)) as [Hroom|Hfull];
    [|lia].
  intros Hrun. injection Hrun as <-. cbn [finalChunks currentChunk].
  apply push_within_budget; [constructor|]. right. exact Hfit.
Qed.

(** Every chunk the splitter assembles from splits is within the budget,
    and every chunk it cuts with the token window is within the budget and
    the slack. *)
Lemma splitText_budget :
  forall separators text chunks,
    incl separators separators0 ->
    _splitTextWithTokenizer options tokenizer separators text = Some chunks ->
    Forall (within_budget_or_window options tokenizer slack) chunks.
Proof.
  induction separators as [|separator rest IH]; intros text chunks Hincl H.
  - cbn [_splitTextWithTokenizer] in H. now apply single_split_budget in H.
  - cbn [_splitTextWithTokenizer] in H.
    destruct (String.eqb_spec separator "") as [Hempty|Hsep].
    + destruct (Js.length text =? 0); [injection H as <-; constructor|].
      apply (window_loop_Forall options tokenizer
               (within_budget_or_window options tokenizer slack) (encode tokenizer text)
               step_nonneg) in H; [exact H| |lia|constructor].
      intros j Hj. right. split; [now exists text, j|].
      pose proof (reencode_slack text j Hj).
      pose proof (slice_length_le (encode tokenizer text) j (chunkSize options) Hj size_nonneg).
      lia.
    + apply split_segments_budget in H; [exact H| |exact Hsep|].
      * apply Hincl. now left.
      * intros s l. apply IH. intros x Hx. apply Hincl. now right.
Qed.

End Budget.
End SplitterProperties.

(** [chunkText] always returns: its options have a positive step and its
    separators end with the empty one. *)
Lemma chunk_total (tokenizer : PreTrainedTokenizer) (content : string) :
  exists chunks, chunk tokenizer content = Some chunks.
Proof.
  destruct (chunk tokenizer content) as [chunks|] eqn:E; [now exists chunks|].
  exfalso. revert E. apply splitText_total.
  - reflexivity.
  - cbn. tauto.
Qed.

(** The empty document gives no chunk, whatever the tokenizer. *)
Lemma segments_loop_empty_text (options : TextSplitterOptions)
      (tokenizer : PreTrainedTokenizer) (recurse : string -> option (list string))
      (separator : string) :
  recurse "" = Some [] ->
  split_segments options tokenizer recurse separator [""] = Some [].
Proof.
  intros Hrec. unfold split_segments. cbn [segments_loop]. cbv zeta.
  cbn [Nat.ltb Nat.leb andb].
  destruct (chunkSize options <? tokenCount tokenizer ""); [now rewrite Hrec|].
  destruct (currentChunkTokens _ + tokenCount tokenizer "" <=? chunkSize options) eqn:E1.
  - reflexivity.
  - cbn [currentChunk finalChunks Js.length String.length Js.substring Js.drop].
    replace (Js.substring "" _) with "" by (unfold Js.substring; now destruct (Z.to_nat _)).
    cbn [append].
    destruct (chunkSize options <? tokenCount tokenizer ""); [now rewrite Hrec|reflexivity].
Qed.

Lemma splitText_empty (options : TextSplitterOptions) (tokenizer : PreTrainedTokenizer) :
  forall separators, In "" separators ->
    _splitTextWithTokenizer options tokenizer separators "" = Some [].
Proof.
  induction separators as [|separator rest IH]; intros Hin; [destruct Hin|].
  cbn [_splitTextWithTokenizer].
  destruct (String.eqb_spec separator "") as [->|Hne]; [reflexivity|].
  replace (Js.split "" separator) with [""] by reflexivity.
  apply segments_loop_empty_text. apply IH.
  destruct Hin as [E|Hin]; [congruence|exact Hin].
Qed.

Lemma chunk_empty (tokenizer : PreTrainedTokenizer) : chunk tokenizer "" = Some [].
Proof. apply splitText_empty. cbn. tauto. Qed.

(** The two conditions on a tokenizer hold for the character-level one. *)
Lemma codes_app (a b : string) :
  Tokenizers.codes (a ++ b) = Tokenizers.codes a ++ Tokenizers.codes b.
Proof. induction a as [|c a IH]; cbn; [reflexivity|now rewrite IH]. Qed.

Lemma char_level_subadditive (a b : string) :
  tokenCount Tokenizers.char_level (a ++ b)%string
  <= tokenCount Tokenizers.char_level a + tokenCount Tokenizers.char_level b.
Proof.
  unfold tokenCount. cbn [encode Tokenizers.char_level].
  rewrite codes_app, length_app. lia.
Qed.

Lemma codes_uncodes_length (ids : list Z) :
  List.length (Tokenizers.codes (Tokenizers.uncodes ids)) = List.length ids.
Proof. induction ids as [|z ids IH]; cbn; [reflexivity|now rewrite IH]. Qed.

Lemma char_level_reencode (ids : list Z) :
  tokenCount Tokenizers.char_level (decode Tokenizers.char_level ids)
  <= Z.of_nat (List.length ids).
Proof.
  unfold tokenCount. cbn [encode decode Tokenizers.char_level].
  rewrite codes_uncodes_length. lia.
Qed.

Lemma filter_length_le {A : Type} (f : A -> bool) (l : list A) :
  (List.length (List.filter f l) <= List.length l)%nat.
Proof.
  induction l as [|x l IH]; [reflexivity|]. cbn. destruct (f x); cbn; lia.
Qed.

(** The same two conditions hold for the tokenizer with special tokens,
    with a slack of two tokens. *)
Lemma bert_like_subadditive (a b : string) :
  tokenCount Tokenizers.bert_like (a ++ b)%string
  <= tokenCount Tokenizers.bert_like a + tokenCount Tokenizers.bert_like b.
Proof.
  unfold tokenCount. cbn [encode Tokenizers.bert_like List.length].
  rewrite !length_app, !length_map, codes_app, length_app. cbn [List.length]. lia.
Qed.

Lemma bert_like_reencode (ids : list Z) :
  tokenCount Tokenizers.bert_like (decode Tokenizers.bert_like ids)
  <= Z.of_nat (List.length ids) + 2.
Proof.
  unfold tokenCount. cbn [encode decode Tokenizers.bert_like List.length].
  rewrite length_app, length_map, codes_uncodes_length, length_map.
  pose proof (filter_length_le (fun z => negb (Tokenizers.is_special z)) ids).
  cbn [List.length]. lia.
Qed.

(** Without the first condition a chunk assembled from splits can exceed
    the budget: the splits are measured one by one, each with its
    separator, and the chunk is not measured again. *)
Lemma chunk_over_budget_without_subadditivity :
  exists a s,
    tokenCount clashing a + tokenCount clashing ((LF ++ LF) ++ s)
    < tokenCount clashing (a ++ ((LF ++ LF) ++ s))%string
    /\ chunk clashing (a ++ ((LF ++ LF) ++ s)) = Some [a ++ ((LF ++ LF) ++ s)]%string
    /\ 450 < tokenCount clashing (a ++ ((LF ++ LF) ++ s)).
Proof.
  exists "a", "b". split; [vm_compute; reflexivity|].
  split; vm_compute; reflexivity.
Qed.



(* ================================================================= *)
(** ** Sorting *)

Section SortProperties.
Context {A : Type} (compare : A -> A -> comparison) (R : A -> A -> Prop).
(** [compare] decides the order [R]. *)
Hypothesis compare_le : forall x y, compare x y <> Gt -> R x y.
Hypothesis compare_gt : forall x y, compare x y = Gt -> R y x.

Lemma insert_perm (x : A) (l : list A) : Permutation (Js.insert compare x l) (x :: l).
Proof.
  induction l as [|y t IH]; cbn; [reflexivity|].
  destruct (compare x y); try reflexivity.
  rewrite IH. apply perm_swap.
Qed.

Lemma sort_perm (l : list A) : Permutation (Js.sort compare l) l.
Proof.
  induction l as [|x t IH]; cbn; [reflexivity|].
  rewrite insert_perm. now constructor.
Qed.

Lemma insert_sorted (x : A) (l : list A) :
  Sorted R l -> Sorted R (Js.insert compare x l).
Proof.
  induction l as [|y t IH]; intros Hs; cbn.
  - repeat constructor.
  - inversion Hs as [|? ? Ht Hhd]; subst.
    destruct (compare x y) eqn:E.
    + constructor; [exact Hs|]. constructor. apply compare_le. congruence.
    + constructor; [exact Hs|]. constructor. apply compare_le. congruence.
    + constructor; [now apply IH|].
      destruct t as [|z t']; cbn.
      * constructor. now apply compare_gt.
      * destruct (compare x z); constructor;
          try (now apply compare_gt); now inversion Hhd.
Qed.

Lemma sort_sorted (l : list A) : Sorted R (Js.sort compare l).
Proof.
  induction l as [|x t IH]; cbn; [constructor|now apply insert_sorted].
Qed.

Lemma sort_strongly_sorted (l : list A) :
  Transitive R -> StronglySorted R (Js.sort compare l).
Proof. intros HT. apply Sorted_StronglySorted; [exact HT|apply sort_sorted]. Qed.

End SortProperties.

Lemma In_firstn {A : Type} (n : nat) (l : list A) (x : A) :
  In x (firstn n l) -> In x l.
Proof.
  intros H. rewrite <- (firstn_skipn n l). apply in_or_app. now left.
Qed.

Lemma StronglySorted_firstn {A : Type} (R : A -> A -> Prop) (n : nat) (l : list A) :
  StronglySorted R l -> StronglySorted R (firstn n l).
Proof.
  revert l. induction n as [|n IH]; intros l Hs; cbn; [constructor|].
  destruct l as [|x t]; [constructor|].
  inversion Hs as [|? ? Ht Hall]; subst.
  constructor; [now apply IH|].
  rewrite Forall_forall in *. intros y Hy. apply Hall.
  revert Hy. apply In_firstn.
Qed.

Lemma StronglySorted_map {A B : Type} (R : A -> A -> Prop) (S : B -> B -> Prop)
      (f : A -> B) (l : list A) :
  (forall x y, R x y -> S (f x) (f y)) ->
  StronglySorted R l -> StronglySorted S (map f l).
Proof.
  intros Hf. induction 1 as [|x t Ht IH Hall]; cbn; constructor; [exact IH|].
  rewrite Forall_forall in *. intros y Hy.
  apply in_map_iff in Hy as [z [<- Hz]]. auto.
Qed.

(** The comparators of the services decide the orders of the properties. *)
Lemma sign_Z_le (z : Z) : sign_Z z <> Gt -> z <= 0.
Proof. unfold sign_Z. destruct (Z.compare_spec z 0); [lia|lia|congruence]. Qed.

Lemma sign_Z_gt (z : Z) : sign_Z z = Gt -> 0 < z.
Proof. unfold sign_Z. destruct (Z.compare_spec z 0); [discriminate|discriminate|lia]. Qed.

Lemma Qcompare_minus_le (x y : Q) : Qcompare (x - y) 0 <> Gt -> (x <= y)%Q.
Proof.
  intros H. apply Qnot_lt_le. intros Hlt. apply H.
  apply Qgt_alt. apply Qlt_minus_iff in Hlt.
  rewrite <- (Qplus_0_l 0) in Hlt.
  unfold Qminus. unfold Qlt in *. cbn in *. lia.
Qed.

Lemma Qcompare_minus_gt (x y : Q) : Qcompare (x - y) 0 = Gt -> (y <= x)%Q.
Proof.
  intros H. apply Qgt_alt in H. apply Qlt_le_weak.
  apply Qlt_minus_iff. unfold Qminus in H. unfold Qlt in *. cbn in *. lia.
Qed.

Lemma by_score_le (a b : SearchResult.t) : by_score a b <> Gt -> score_ascending a b.
Proof.
  unfold by_score, score_ascending, score_le.
  destruct (SearchResult.score a), (SearchResult.score b); cbn; try tauto; try congruence.
  apply Qcompare_minus_le.
Qed.

Lemma by_score_gt (a b : SearchResult.t) : by_score a b = Gt -> score_ascending b a.
Proof.
  unfold by_score, score_ascending, score_le.
  destruct (SearchResult.score a), (SearchResult.score b); cbn; try tauto; try discriminate.
  apply Qcompare_minus_gt.
Qed.

Lemma score_ascending_trans : Transitive score_ascending.
Proof.
  intros a b c. unfold score_ascending, score_le.
  destruct (SearchResult.score a), (SearchResult.score b), (SearchResult.score c);
    try tauto. apply Qle_trans.
Qed.

(* ================================================================= *)
(** ** Reasoning about runs of the services *)

Lemma bind_Return_inv {A B} (m : M A) (k : A -> M B) (w w' : World) (b : B) :
  bind m k w = (Return b, w') ->
  exists a w1, m w = (Return a, w1) /\ k a w1 = (Return b, w').
Proof.
  unfold bind. destruct (m w) as [[a|e|] w1]; intros H; try discriminate.
  now exists a, w1.
Qed.

Lemma try_catch_Return_inv {A} (body : M A) (handler : exn -> M A) (w w' : World) (a : A) :
  (forall e w1, fst (handler e w1) <> Return a) ->
  try_catch body handler w = (Return a, w') ->
  body w = (Return a, w').
Proof.
  intros Hh. unfold try_catch. destruct (body w) as [[a'|e|] w1]; intros H.
  - exact H.
  - exfalso. apply (Hh e w1). now rewrite H.
  - discriminate.
Qed.

Lemma rethrow_never_returns {A} (prefix : string) (e : exn) (w : World) (a : A) :
  fst (rethrow_McpError_or prefix e w) <> Return a.
Proof. unfold rethrow_McpError_or. destruct (instanceof_McpError e); discriminate. Qed.

Lemma chunks_untouched_refl (w : World) : chunks_untouched w w.
Proof.
  repeat split. exists []. split; [now rewrite app_nil_r|constructor].
Qed.

Lemma chunks_untouched_trans (w1 w2 w3 : World) :
  chunks_untouched w1 w2 -> chunks_untouched w2 w3 -> chunks_untouched w1 w3.
Proof.
  intros (Hc1 & Hd1 & He1 & evs1 & Ht1 & Hf1) (Hc2 & Hd2 & He2 & evs2 & Ht2 & Hf2).
  repeat split; try congruence.
  exists (evs1 ++ evs2). split.
  - rewrite Ht2, Ht1. now rewrite app_assoc.
  - apply Forall_app. now split.
Qed.

Lemma only_project_lookups_untouched (w w' : World) :
  only_project_lookups w w' -> chunks_untouched w w'.
Proof.
  intros (Hc & _ & Hd & He & evs & Ht & Hf). repeat split; try assumption.
  exists evs. split; [exact Ht|].
  revert Hf. apply Forall_impl. intros [] H; cbn in *; congruence.
Qed.

(** Unfolding of the monad operations and of the client calls. *)
Ltac unfold_run :=
  unfold Chroma.call, await, Chroma.request, bind, ret, throw, try_catch, log;
  cbn [fst snd trace chunksCollection projectsCollection db_isInitialized
       embedding_isInitialized chroma_outages arrivals clock uuid_count
       with_trace with_chunks with_projects with_outages with_arrivals with_uuid_count
       Chroma.valid_where Chroma.conditions].

(** The same, along a run on which the database service is initialized and
    the client answers. *)
Ltac run_with Hdb Hout :=
  repeat progress (unfold_run; rewrite ?Hdb, ?Hout).

(* ----------------------------------------------------------------- *)
(** *** Requests in flight *)

Lemma with_arrivals_same (w : World) : with_arrivals w (arrivals w) = w.
Proof. now destruct w. Qed.

Section PurePromises.
Context {A : Type}.

Lemma pure_fulfilled (promises : list (Promise A)) (outcomes : list (outcome A)) :
  Forall2 pure_promise promises outcomes ->
  pending_count promises = O ->
  outcomes = map Return (values promises).
Proof.
  induction 1 as [|p o ps os Hp _ IH]; intros Hc; [reflexivity|].
  destruct p as [rest|a|e]; cbn in *; [discriminate| |destruct Hp].
  subst o. now rewrite (IH Hc).
Qed.

Lemma settle_one_pure (promises : list (Promise A)) (outcomes : list (outcome A)) :
  Forall2 pure_promise promises outcomes ->
  forall k w,
    pending_count promises <> O ->
    snd (settle_one k promises w) = w
    /\ match fst (settle_one k promises w) with
       | Return promises' =>
           Forall2 pure_promise promises' outcomes
           /\ S (pending_count promises') = pending_count promises
       | Throw e => In (Throw e) outcomes
       | Hang => False
       end.
Proof.
  induction 1 as [|p o ps os Hp Hrest IH]; intros k w Hc; [now cbn in Hc|].
  destruct p as [rest|a|e]; cbn [settle_one pending_count] in *.
  - destruct Hp as [Hrun Hh].
    assert (Hhere : snd ((a <- rest ;; ret (Fulfilled a :: ps)) w) = w
                    /\ match fst ((a <- rest ;; ret (Fulfilled a :: ps)) w) with
                       | Return promises' =>
                           Forall2 pure_promise promises' (o :: os)
                           /\ S (pending_count promises') = S (pending_count ps)
                       | Throw e => In (Throw e) (o :: os)
                       | Hang => False
                       end).
    { unfold bind, ret. rewrite (Hrun w). destruct o as [a|e|]; cbn.
      - split; [reflexivity|]. split; [|reflexivity]. constructor; [reflexivity|exact Hrest].
      - split; [reflexivity|]. now left.
      - congruence. }
    destruct k as [|k']; [exact Hhere|].
    destruct (pending_count ps) as [|n] eqn:En; [exact Hhere|].
    destruct (IH k' w) as [Hw Hr]; [discriminate|].
    unfold bind at 1 2. destruct (settle_one k' ps w) as [[ps'|e|] w1]; cbn in Hw, Hr |- *.
    + subst w1. split; [reflexivity|]. destruct Hr as [Hf Hn]. split.
      * constructor; [split; assumption|exact Hf].
      * congruence.
    + subst w1. split; [reflexivity|]. now right.
    + destruct Hr.
  - destruct (IH k w Hc) as [Hw Hr].
    unfold bind at 1 2. destruct (settle_one k ps w) as [[ps'|e|] w1]; cbn in Hw, Hr |- *.
    + subst w1. split; [reflexivity|]. destruct Hr as [Hf Hn]. split.
      * constructor; [exact Hp|exact Hf].
      * exact Hn.
    + subst w1. split; [reflexivity|]. now right.
    + destruct Hr.
  - destruct Hp.
Qed.

(** Calls whose rests do nothing to the world settle in any order of the
    answers with the same promises; only the error thrown depends on the
    order. *)
Lemma settle_all_pure (outcomes : list (outcome A)) :
  forall fuel promises w,
    Forall2 pure_promise promises outcomes ->
    (pending_count promises <= fuel)%nat ->
    (exists l, snd (settle_all fuel promises w) = with_arrivals w l)
    /\ match fst (settle_all fuel promises w) with
       | Return promises' =>
           Forall2 pure_promise promises' outcomes /\ pending_count promises' = O
       | Throw e => In (Throw e) outcomes
       | Hang => False
       end.
Proof.
  induction fuel as [|fuel IH]; intros promises w Hp Hc.
  - cbn. split; [exists (arrivals w); now rewrite with_arrivals_same|].
    split; [exact Hp|lia].
  - cbn [settle_all]. destruct (pending_count promises) as [|n] eqn:En.
    + cbn. split; [exists (arrivals w); now rewrite with_arrivals_same|].
      split; [exact Hp|exact En].
    + unfold bind, next_arrival.
      destruct (settle_one_pure promises outcomes Hp (hd O (arrivals w))
                  (with_arrivals w (tl (arrivals w)))) as [Hw Hr];
        [rewrite En; discriminate|].
      destruct (settle_one (hd O (arrivals w)) promises
                           (with_arrivals w (tl (arrivals w)))) as [[ps'|e|] w1];
        cbn in Hw, Hr; subst w1.
      * destruct Hr as [Hf Hn].
        destruct (IH ps' (with_arrivals w (tl (arrivals w))) Hf) as [[l Hl] Hres];
          [rewrite En in Hn; lia|].
        destruct (settle_all fuel ps' (with_arrivals w (tl (arrivals w)))) as [r w2].
        cbn in Hl, Hres |- *. split; [exists l; rewrite Hl; reflexivity|exact Hres].
      * cbn. split; [eexists; reflexivity|exact Hr].
      * destruct Hr.
Qed.

End PurePromises.

Section RunProperties.
Variable tokenizer : PreTrainedTokenizer.
Variable extractor : string -> option Embedding.
Variable queryAnswer : Embedding -> Z -> Where -> list ChunkRow -> list Chroma.QueryRow.
Variable localeCompare : string -> string -> Z.
Variable uuidv4 : nat -> string.

Ltac one_event ev :=
  repeat split; cbn; try reflexivity;
  exists [ev]; split; [reflexivity|repeat constructor].

(** [projectExists] settles, and does nothing but look the project up. *)
Lemma projectExists_quiet (projectId : string) (w : World) :
  fst (projectExists projectId w) <> Hang
  /\ only_project_lookups w (snd (projectExists projectId w)).
Proof.
  unfold projectExists.
  destruct (projectId =? "")%string.
  - cbn. split; [discriminate|]. repeat split. exists []. split.
    + now rewrite app_nil_r.
    + constructor.
  - unfold findProjectById, ensureInitialized, Chroma.projects_get. unfold_run.
    destruct (db_isInitialized w) eqn:Hdb; unfold_run.
    + destruct (chroma_outages w) as [|[|] rest]; unfold_run.
      * destruct (Chroma.limited _ _) as [|row rows]; unfold_run.
        -- split; [discriminate|]. one_event (EvProjectsGet projectId).
        -- destruct (project_row_metadata row); unfold_run;
             (split; [discriminate|]); one_event (EvProjectsGet projectId).
      * split; [discriminate|]. one_event (EvProjectsGet projectId).
      * destruct (Chroma.limited _ _) as [|row rows]; unfold_run.
        -- split; [discriminate|]. one_event (EvProjectsGet projectId).
        -- destruct (project_row_metadata row); unfold_run;
             (split; [discriminate|]); one_event (EvProjectsGet projectId).
    + split; [discriminate|]. repeat split; cbn; try assumption.
      exists []. split; [now rewrite app_nil_r|constructor].
Qed.

(* ----------------------------------------------------------------- *)
(** *** Validation of the search arguments *)

Lemma empty_query_refused (raw : RawSearchArgs) :
  empty_query raw -> parse_search_args raw = None.
Proof.
  intros [q [Hq Ht]]. unfold parse_search_args.
  destruct (parse_projectId (raw_projectId raw)) as [p0|]; [|reflexivity].
  unfold parse_query. rewrite Hq, Ht. reflexivity.
Qed.

Lemma unsupported_mode_refused (raw : RawSearchArgs) :
  unsupported_mode raw -> parse_search_args raw = None.
Proof.
  intros [j [Hj [Hs Hk]]]. unfold parse_search_args.
  destruct (parse_projectId (raw_projectId raw)) as [p0|]; [|reflexivity].
  destruct (parse_query (raw_query raw)) as [q0|]; [|reflexivity].
  unfold parse_searchType. rewrite Hj.
  destruct j as [| | |s|]; try reflexivity.
  destruct (String.eqb_spec s "semantic") as [->|_]; [congruence|].
  destruct (String.eqb_spec s "keyword") as [->|_]; [congruence|].
  reflexivity.
Qed.

Lemma topK_out_of_range_refused (raw : RawSearchArgs) :
  topK_out_of_range raw -> parse_search_args raw = None.
Proof.
  intros [k [Hk Hbad]]. unfold parse_search_args.
  destruct (parse_projectId (raw_projectId raw)) as [p0|]; [|reflexivity].
  destruct (parse_query (raw_query raw)) as [q0|]; [|reflexivity].
  destruct (parse_searchType (raw_searchType raw)) as [st0|]; [|reflexivity].
  unfold parse_topK. rewrite Hk.
  assert (E : (is_int k && Qle_bool 1 k && Qle_bool k 20)%bool = false).
  { destruct Hbad as [Hi|[Hlo|Hhi]].
    - now rewrite Hi.
    - destruct (Qle_bool 1 k) eqn:E1.
      + apply Qle_bool_iff in E1. exfalso. exact (Qlt_not_le _ _ Hlo E1).
      + now rewrite andb_false_r.
    - destruct (Qle_bool k 20) eqn:E1.
      + apply Qle_bool_iff in E1. exfalso. exact (Qlt_not_le _ _ Hhi E1).
      + now rewrite andb_false_r. }
  rewrite E. reflexivity.
Qed.

(** The arguments that come out of the validation are in range. *)
Lemma parsed_args_valid (raw : RawSearchArgs) (args : SearchArgs) :
  parse_search_args raw = Some args ->
  query args <> ""
  /\ (searchType args = "semantic" \/ searchType args = "keyword")
  /\ 1 <= topK args <= 20.
Proof.
  unfold parse_search_args.
  destruct (parse_projectId (raw_projectId raw)) as [p|]; [|discriminate].
  destruct (parse_query (raw_query raw)) as [q|] eqn:Eq; [|discriminate].
  destruct (parse_searchType (raw_searchType raw)) as [st|] eqn:Est; [|discriminate].
  destruct (parse_topK (raw_topK raw)) as [k|] eqn:Ek; [|discriminate].
  destruct (parse_fileFilter (raw_fileFilter raw)) as [ff|]; [|discriminate].
  intros H. injection H as <-. cbn. repeat split.
  - unfold parse_query in Eq.
    destruct (raw_query raw) as [[| | |q0|]|]; try discriminate.
    destruct (Js.trim q0) eqn:Et; cbn in Eq; [discriminate|].
    injection Eq as <-. discriminate.
  - unfold parse_searchType in Est.
    destruct (raw_searchType raw) as [[| | |s|]|]; try discriminate.
    + destruct (String.eqb_spec s "semantic") as [E|_].
      * cbn in Est. injection Est as <-. now left.
      * destruct (String.eqb_spec s "keyword") as [E|_]; [|discriminate].
        cbn in Est. injection Est as <-. now right.
    + injection Est as <-. now left.
  - unfold parse_topK in Ek.
    destruct (raw_topK raw) as [[| |k0| |]|]; try discriminate; [|injection Ek as <-; lia].
    destruct (is_int k0) eqn:Ei; [|discriminate].
    destruct (Qle_bool 1 k0) eqn:E1; [|discriminate].
    destruct (Qle_bool k0 20) eqn:E2; [|discriminate].
    cbn in Ek. injection Ek as <-.
    apply Qle_bool_iff in E1. rewrite <- (Qred_correct k0) in E1.
    unfold is_int in Ei. apply Pos.eqb_eq in Ei.
    unfold Qle in E1. rewrite Ei in E1. cbn in E1. lia.
  - unfold parse_topK in Ek.
    destruct (raw_topK raw) as [[| |k0| |]|]; try discriminate; [|injection Ek as <-; lia].
    destruct (is_int k0) eqn:Ei; [|discriminate].
    destruct (Qle_bool 1 k0) eqn:E1; [|discriminate].
    destruct (Qle_bool k0 20) eqn:E2; [|discriminate].
    cbn in Ek. injection Ek as <-.
    apply Qle_bool_iff in E2. rewrite <- (Qred_correct k0) in E2.
    unfold is_int in Ei. apply Pos.eqb_eq in Ei.
    unfold Qle in E2. rewrite Ei in E2. cbn in E2. lia.
Qed.

End RunProperties.

(** The service itself looks the project up before it checks the other
    parameters: on an existing project an empty query is refused after that
    look-up, and nothing else has been called. *)
Lemma search_checks_project_first
      (extractor : string -> option Embedding) (queryAnswer : Embedding -> Z -> Where -> list ChunkRow -> list Chroma.QueryRow)
      (localeCompare : string -> string -> Z)
      (projectId searchType : string) (topK : Z) (fileFilter : option (list string))
      (w w1 : World) :
  projectExists projectId w = (Return true, w1) ->
  search extractor queryAnswer localeCompare projectId "" searchType topK fileFilter w
  = (Throw (McpError InvalidParams "Missing required search parameters."), w1).
Proof.
  intros Hex. unfold search. unfold bind at 1. rewrite Hex. reflexivity.
Qed.

(** C8: a call of the search tool with an empty query, an unsupported
    search mode or a [topK] out of range is rejected with [InvalidParams]
    and leaves the world as it was, trace included: no store or embedder
    call was made. A call with valid arguments for a project that
    [projectExists] does not find is rejected with the not-found error after
    nothing but the look-up of the project. *)
Theorem search_rejects_before_any_query
  (extractor : string -> option Embedding) (queryAnswer : Embedding -> Z -> Where -> list ChunkRow -> list Chroma.QueryRow)
  (localeCompare : string -> string -> Z) (raw : RawSearchArgs) (w : World) :
  (empty_query raw \/ unsupported_mode raw \/ topK_out_of_range raw ->
   exists msg,
     memoryBank_search extractor queryAnswer localeCompare raw w
     = (Throw (McpError InvalidParams msg), w))
  /\ (forall args,
        parse_search_args raw = Some args ->
        fst (projectExists (projectId args) w) = Return false ->
        exists w',
          memoryBank_search extractor queryAnswer localeCompare raw w
          = (Throw (project_not_found (projectId args)), w')
          /\ only_project_lookups w w').
Proof.
  split.
  - intros Hbad.
    assert (E : parse_search_args raw = None).
    { destruct Hbad as [H|[H|H]];
        [now apply empty_query_refused|now apply unsupported_mode_refused
        |now apply topK_out_of_range_refused]. }
    unfold memoryBank_search. rewrite E. eexists. reflexivity.
  - intros args Hargs Hno.
    exists (snd (projectExists (projectId args) w)).
    split; [|apply projectExists_quiet].
    unfold memoryBank_search. rewrite Hargs.
    unfold search, try_catch, bind.
    destruct (projectExists (projectId args) w) as [r w1]. cbn in Hno. subst r.
    reflexivity.
Qed.

Lemma search_rejects_before_any_query_witness :
  (unsupported_mode (Sample.search_args "fuzzy" "hello" 3)
   -> exists msg,
       memoryBank_search Sample.extractor Sample.queryAnswer Sample.localeCompare
         (Sample.search_args "fuzzy" "hello" 3)
         (Sample.world_with Sample.five_chunks [])
       = (Throw (McpError InvalidParams msg), Sample.world_with Sample.five_chunks []))
  /\ unsupported_mode (Sample.search_args "fuzzy" "hello" 3)
  /\ parse_search_args (Sample.search_args "keyword" "hello" 3)
     = Some {| projectId := Sample.pid; query := "hello"; searchType := "keyword";
               topK := 3; fileFilter := None |}
  /\ exists w',
      memoryBank_search Sample.extractor Sample.queryAnswer Sample.localeCompare
        (Sample.search_args "keyword" "hello" 3)
        {| projectsCollection := []; chunksCollection := Sample.five_chunks;
           db_isInitialized := true; chroma_outages := []; arrivals := [];
           embedding_isInitialized := true; clock := "t1"; uuid_count := 0;
           trace := [] |}
      = (Throw (project_not_found Sample.pid), w')
      /\ only_project_lookups
           {| projectsCollection := []; chunksCollection := Sample.five_chunks;
              db_isInitialized := true; chroma_outages := []; arrivals := [];
              embedding_isInitialized := true; clock := "t1"; uuid_count := 0;
              trace := [] |} w'.
Proof.
  split; [|split; [|split]].
  - intros H.
    apply (proj1 (search_rejects_before_any_query Sample.extractor Sample.queryAnswer
                    Sample.localeCompare _ _)).
    right. left. exact H.
  - exists (JString "fuzzy"). repeat split; discriminate.
  - vm_compute. reflexivity.
  - apply (proj2 (search_rejects_before_any_query Sample.extractor Sample.queryAnswer
                    Sample.localeCompare (Sample.search_args "keyword" "hello" 3) _)
             {| projectId := Sample.pid; query := "hello"; searchType := "keyword";
                topK := 3; fileFilter := None |}).
    + vm_compute. reflexivity.
    + vm_compute. reflexivity.
Defined.

(* ================================================================= *)
(** ** Updating a file *)

Section UpdateProperties.
Variable tokenizer : PreTrainedTokenizer.
Variable extractor : string -> option Embedding.
Variable uuidv4 : nat -> string.
Variable toISOString : string -> option string.

Lemma generateEmbedding_start (text : string) (w : World) :
  embedding_isInitialized w = true ->
  exists rest,
    generateEmbedding extractor text w
    = (Return rest, with_trace w (trace w ++ [EvExtractor text]))
    /\ settles_to rest (embedding_outcome extractor text).
Proof.
  intros Hinit. unfold generateEmbedding. rewrite Hinit. cbn [negb].
  eexists. split; [unfold_run; reflexivity|].
  intros w'. unfold embedding_outcome.
  destruct (extractor text); unfold_run; reflexivity.
Qed.

Lemma embedding_outcome_settles (text : string) : embedding_outcome extractor text <> Hang.
Proof. unfold embedding_outcome. destruct (extractor text); discriminate. Qed.

Lemma generateEmbedding_quiet (text : string) (w : World) :
  fst (await (generateEmbedding extractor text) w) <> Hang
  /\ chunks_untouched w (snd (await (generateEmbedding extractor text) w))
  /\ (extractor text = None ->
      exists msg, fst (await (generateEmbedding extractor text) w)
                  = Throw (McpError InternalError msg)).
Proof.
  unfold await, bind.
  destruct (embedding_isInitialized w) eqn:Hinit.
  - destruct (generateEmbedding_start text w Hinit) as (rest & -> & Hrest).
    rewrite (Hrest _). cbn [fst snd].
    split; [apply embedding_outcome_settles|]. split.
    + repeat split; cbn; try assumption. exists [EvExtractor text].
      split; [reflexivity|repeat constructor].
    + intros Hnone. unfold embedding_outcome. rewrite Hnone. eexists. reflexivity.
  - unfold generateEmbedding. rewrite Hinit. cbn.
    split; [discriminate|]. split; [apply chunks_untouched_refl|].
    intros _. eexists. reflexivity.
Qed.

(** With the pipeline ready every call of the batch is started, and what is
    left of each only waits for the pipeline's answer. *)
Lemma embeddings_start (chunks : list string) :
  forall w,
    embedding_isInitialized w = true ->
    exists promises,
      start_all (map (generateEmbedding extractor) chunks) w
      = (Return promises, with_trace w (trace w ++ map EvExtractor chunks))
      /\ Forall2 pure_promise promises (map (embedding_outcome extractor) chunks)
      /\ first_rejected promises = None
      /\ pending_count promises = List.length chunks.
Proof.
  induction chunks as [|c cs IH]; intros w Hinit.
  - exists []. cbn. rewrite app_nil_r. destruct w. repeat split. constructor.
  - destruct (generateEmbedding_start c w Hinit) as (rest & Hstart & Hrest).
    destruct (IH (with_trace w (trace w ++ [EvExtractor c])) Hinit)
      as (ps & Hps & Hall & Hrej & Hcount).
    exists (Pending rest :: ps).
    cbn [map start_all]. unfold bind, ret. rewrite Hstart, Hps.
    cbn [trace with_trace]. rewrite <- app_assoc. cbn [app].
    split; [destruct w; reflexivity|].
    split; [constructor; [split; [exact Hrest|apply embedding_outcome_settles]|exact Hall]|].
    split; [exact Hrej|]. cbn. now rewrite Hcount.
Qed.

(** With the pipeline not ready every call of the batch is rejected before
    it asks the pipeline for anything. *)
Lemma embeddings_not_ready (chunks : list string) (w : World) :
  embedding_isInitialized w = false ->
  chunks <> [] ->
  Promise_all (map (generateEmbedding extractor) chunks) w
  = (Throw (McpError InternalError "Embedding service pipeline is not ready."), w).
Proof.
  intros Hinit Hne.
  assert (Hstart : forall cs,
             start_all (map (generateEmbedding extractor) cs) w
             = (Return (map (fun _ => Rejected
                                        (McpError InternalError
                                           "Embedding service pipeline is not ready.")) cs),
                w)).
  { induction cs as [|c cs IH]; [reflexivity|].
    cbn [map start_all]. unfold bind, ret, generateEmbedding at 1.
    rewrite Hinit. cbn [negb]. now rewrite IH. }
  unfold Promise_all, bind. rewrite Hstart.
  destruct chunks as [|c cs]; [congruence|]. reflexivity.
Qed.

(** How the batch of embeddings ends when the pipeline is ready: with the
    embedding of every chunk, or with the error of a chunk that could not
    be embedded; the world has moved by the calls of the pipeline only. *)
Lemma embeddings_batch_run (chunks : list string) (w : World) :
  embedding_isInitialized w = true ->
  exists l,
    snd (Promise_all (map (generateEmbedding extractor) chunks) w)
    = with_arrivals (with_trace w (trace w ++ map EvExtractor chunks)) l
    /\ match fst (Promise_all (map (generateEmbedding extractor) chunks) w) with
       | Return embeddings =>
           map (embedding_outcome extractor) chunks = map Return embeddings
       | Throw e => In (Throw e) (map (embedding_outcome extractor) chunks)
       | Hang => False
       end.
Proof.
  intros Hinit.
  destruct (embeddings_start chunks w Hinit) as (ps & Hps & Hall & Hrej & Hcount).
  assert (Hrun : Promise_all (map (generateEmbedding extractor) chunks) w
                 = (settled <- settle_all (List.length ps) ps ;; ret (values settled))
                     (with_trace w (trace w ++ map EvExtractor chunks))).
  { unfold Promise_all. unfold bind at 1. now rewrite Hps, Hrej. }
  rewrite Hrun. clear Hrun.
  destruct (settle_all_pure _ (List.length ps) ps
              (with_trace w (trace w ++ map EvExtractor chunks)) Hall) as [[l Hl] Hres].
  { rewrite Hcount. apply Forall2_length in Hall. rewrite Hall, length_map. lia. }
  unfold bind, ret.
  destruct (settle_all (List.length ps) ps
              (with_trace w (trace w ++ map EvExtractor chunks))) as [[ps'|e|] w2];
    cbn [fst snd] in Hl, Hres |- *.
  - exists l. split; [exact Hl|]. destruct Hres as [Hf Hn]. now apply pure_fulfilled.
  - exists l. split; [exact Hl|exact Hres].
  - destruct Hres.
Qed.

(** The batch of embeddings settles without touching the stored chunks, and
    it is rejected as soon as one chunk cannot be embedded. *)
Lemma embeddings_batch_quiet (chunks : list string) :
  forall w,
    fst (Promise_all (map (generateEmbedding extractor) chunks) w) <> Hang
    /\ chunks_untouched w (snd (Promise_all (map (generateEmbedding extractor) chunks) w))
    /\ ((exists c, In c chunks /\ extractor c = None) ->
        exists msg, fst (Promise_all (map (generateEmbedding extractor) chunks) w)
                    = Throw (McpError InternalError msg)).
Proof.
  intros w. destruct (embedding_isInitialized w) eqn:Hinit.
  - destruct (embeddings_batch_run chunks w Hinit) as (l & Hw & Hres).
    destruct (Promise_all (map (generateEmbedding extractor) chunks) w) as [r w2].
    cbn [fst snd] in *. subst w2.
    split; [intros ->; exact Hres|]. split.
    + repeat split; cbn; try assumption. exists (map EvExtractor chunks).
      split; [reflexivity|]. apply Forall_forall. intros ev Hev.
      apply in_map_iff in Hev. destruct Hev as (c & <- & _). reflexivity.
    + intros (c & Hin & Hnone). destruct r as [embeddings|e|]; [|clear Hin Hnone|destruct Hres].
      * exfalso.
        assert (Hc : In (embedding_outcome extractor c)
                        (map (embedding_outcome extractor) chunks))
          by (apply in_map; exact Hin).
        rewrite Hres in Hc. apply in_map_iff in Hc. destruct Hc as (x & Hx & _).
        unfold embedding_outcome in Hx. rewrite Hnone in Hx. discriminate.
      * apply in_map_iff in Hres. destruct Hres as (c' & Hc & _).
        unfold embedding_outcome in Hc. destruct (extractor c'); [discriminate|].
        injection Hc as <-. eexists. reflexivity.
  - destruct chunks as [|c cs].
    + cbn. split; [discriminate|]. split; [apply chunks_untouched_refl|].
      intros (c & [] & _).
    + rewrite embeddings_not_ready by (assumption || discriminate). cbn [fst snd].
      split; [discriminate|]. split; [apply chunks_untouched_refl|].
      intros _. eexists. reflexivity.
Qed.

Lemma chunkText_run (content : string) (w : World) :
  chunkText tokenizer content w
  = if embedding_isInitialized w
    then match chunk tokenizer content with
         | Some chunks => (Return chunks, w)
         | None => (Hang, w)
         end
    else (Throw (McpError InternalError
                   "Embedding service/tokenizer is not ready for chunking."), w).
Proof. unfold chunkText. now destruct (embedding_isInitialized w). Qed.

(** C3: when a chunk of the batch cannot be embedded, the update ends with
    an error, the stored chunks are what they were, and no delete or insert
    was sent to the chunk collection; on an existing project with a file
    name and content the error is an internal one. *)
Theorem update_aborts_when_embedding_fails
  (projectId fileName content : string) (chunks : list string) (w : World) :
  chunk tokenizer content = Some chunks ->
  (exists c, In c chunks /\ extractor c = None) ->
  exists e w',
    updateFileContent tokenizer extractor uuidv4 toISOString projectId fileName content w
    = (Throw e, w')
    /\ chunks_untouched w w'
    /\ (fst (projectExists projectId w) = Return true ->
        fileName <> "" -> content <> "" ->
        exists msg, e = McpError InternalError msg).
Proof.
  intros Hchunk Hfail.
  unfold updateFileContent. unfold bind at 1.
  destruct (projectExists_quiet projectId w) as [Hh Hq].
  apply only_project_lookups_untouched in Hq.
  destruct (projectExists projectId w) as [[[|]|err|] w1]; cbn in Hh, Hq.
  - (* the project exists *)
    cbn [negb fst].
    destruct (String.eqb_spec fileName "") as [->|Hf].
    { exists (McpError InvalidParams "File name and content cannot be empty."), w1.
      split; [reflexivity|]. split; [exact Hq|]. intros _ Hne. congruence. }
    destruct (String.eqb_spec content "") as [->|Hc].
    { exists (McpError InvalidParams "File name and content cannot be empty."), w1.
      split; [reflexivity|]. split; [exact Hq|]. intros _ _ Hne. congruence. }
    cbn [orb].
    unfold try_catch at 1. unfold bind at 1. rewrite chunkText_run, Hchunk.
    destruct (embedding_isInitialized w1) eqn:Hinit.
    + destruct chunks as [|c0 cs].
      { destruct Hfail as [c [[] _]]. }
      unfold bind at 1. unfold try_catch at 1.
      destruct (embeddings_batch_quiet (c0 :: cs) w1) as (Hh2 & Hq2 & Hthrow).
      destruct (Hthrow Hfail) as [msg Hmsg].
      destruct (Promise_all (map (generateEmbedding extractor) (c0 :: cs)) w1)
        as [r w2]. cbn in Hh2, Hq2, Hmsg. subst r.
      eexists. exists w2. split; [reflexivity|].
      split; [eapply chunks_untouched_trans; eassumption|].
      intros _ _ _. eexists. reflexivity.
    + eexists. exists w1. split; [reflexivity|]. split; [exact Hq|].
      intros _ _ _. eexists. reflexivity.
  - (* the project is not found *)
    exists (project_not_found projectId), w1. split; [reflexivity|].
    split; [exact Hq|]. discriminate.
  - (* the look-up failed *)
    exists err, w1. split; [reflexivity|]. split; [exact Hq|]. discriminate.
  - congruence.
Qed.

End UpdateProperties.

Lemma update_aborts_when_embedding_fails_witness :
  chunk Tokenizers.char_level "unembeddable" = Some ["unembeddable"]
  /\ (exists c, In c ["unembeddable"] /\ Sample.extractor c = None)
  /\ exists e w',
      updateFileContent Tokenizers.char_level Sample.extractor Sample.uuidv4
        Sample.toISOString
        Sample.pid "notes.md" "unembeddable" (Sample.world_with Sample.five_chunks [])
      = (Throw e, w')
      /\ chunks_untouched (Sample.world_with Sample.five_chunks []) w'
      /\ (fst (projectExists Sample.pid (Sample.world_with Sample.five_chunks []))
          = Return true ->
          "notes.md" <> "" -> "unembeddable" <> "" ->
          exists msg, e = McpError InternalError msg).
Proof.
  split; [vm_compute; reflexivity|].
  split; [exists "unembeddable"; split; [now left|vm_compute; reflexivity]|].
  apply (update_aborts_when_embedding_fails Tokenizers.char_level Sample.extractor
           Sample.uuidv4 Sample.toISOString Sample.pid "notes.md" "unembeddable"
           ["unembeddable"]).
  - vm_compute. reflexivity.
  - exists "unembeddable". split; [now left|vm_compute; reflexivity].
Defined.


(* ================================================================= *)
(** ** Deleting the chunks of a file *)

Lemma matches_project_file (projectId fileName : string) (r : ChunkRow) :
  Chroma.matches [project_id_eq projectId; file_name_eq fileName] r = true ->
  Chroma.matches [project_id_eq projectId] r = true
  /\ match row_metadata r with
     | Some meta => (file_name meta =? fileName)%string
     | None => false
     end = true.
Proof.
  unfold Chroma.matches. cbn [forallb].
  destruct (row_metadata r) as [meta|]; cbn [Chroma.holds]; [|discriminate].
  rewrite !andb_true_r. intros H. apply andb_prop in H. exact H.
Qed.

Lemma file_ids_complete (projectId fileName : string) (rows : list ChunkRow) (r : ChunkRow) :
  In r rows ->
  Chroma.matches [project_id_eq projectId; file_name_eq fileName] r = true ->
  existsb (fun i => (row_id r =? i)%string) (file_ids projectId fileName rows) = true.
Proof.
  intros Hin Hm. apply matches_project_file in Hm as [Hp Hf].
  apply existsb_exists. exists (row_id r). split; [|apply String.eqb_refl].
  unfold file_ids. apply in_map. apply filter_In. split; [|exact Hf].
  apply filter_In. now split.
Qed.

(** Once the selected ids are gone no chunk of the file is left. *)
Lemma without_file_ids_none_left (projectId fileName : string) (rows : list ChunkRow) :
  List.filter (Chroma.matches [project_id_eq projectId; file_name_eq fileName])
              (without_ids (file_ids projectId fileName rows) rows) = [].
Proof.
  destruct (List.filter _ _) as [|r rest] eqn:E; [reflexivity|exfalso].
  assert (Hin : In r (r :: rest)) by now left.
  rewrite <- E in Hin. apply filter_In in Hin as [Hin Hm].
  unfold without_ids in Hin. apply filter_In in Hin as [Hin Hkeep].
  rewrite (file_ids_complete projectId fileName rows r Hin Hm) in Hkeep. discriminate.
Qed.

Lemma without_no_ids (rows : list ChunkRow) : without_ids [] rows = rows.
Proof.
  unfold without_ids. induction rows as [|r rows IH]; [reflexivity|].
  cbn. f_equal. exact IH.
Qed.

Lemma deleteMemoryBankContentByFile_run (projectId fileName : string) (w : World) :
  db_isInitialized w = true ->
  chroma_outages w = [] ->
  exists w',
    deleteMemoryBankContentByFile projectId fileName w = (Return true, w')
    /\ chunksCollection w'
       = without_ids (file_ids projectId fileName (chunksCollection w)) (chunksCollection w)
    /\ projectsCollection w' = projectsCollection w
    /\ db_isInitialized w' = true
    /\ chroma_outages w' = [].
Proof.
  intros Hdb Hout.
  unfold deleteMemoryBankContentByFile, ensureInitialized, Chroma.chunks_get,
    Chroma.chunks_delete.
  unfold_run. rewrite Hdb. unfold_run. rewrite Hout. unfold_run.
  unfold Chroma.limited.
  fold (file_ids projectId fileName (chunksCollection w)).
  pose proof (eq_refl (file_ids projectId fileName (chunksCollection w))) as Hids.
  unfold file_ids at 2 in Hids.
  destruct (List.filter (Chroma.matches [project_id_eq projectId]) (chunksCollection w))
    as [|r0 rs] eqn:Erows.
  - unfold_run. eexists. split; [reflexivity|]. cbn.
    repeat split; try assumption. cbn in Hids. rewrite Hids. now rewrite without_no_ids.
  - destruct (file_ids projectId fileName (chunksCollection w)) as [|i ids] eqn:Eids.
    + unfold_run. eexists. split; [reflexivity|]. cbn.
      repeat split; try assumption. now rewrite without_no_ids.
    + unfold_run. rewrite Hout. unfold_run. eexists. split; [reflexivity|]. cbn.
      repeat split; try assumption.
Qed.

Lemma projectExists_true_run (projectId : string) (w : World) :
  fst (projectExists projectId w) = Return true ->
  chroma_outages w = [] ->
  projectId <> ""
  /\ db_isInitialized w = true
  /\ projectExists projectId w
     = (Return true, with_trace w (trace w ++ [EvProjectsGet projectId])).
Proof.
  unfold projectExists. intros H Hout.
  destruct (String.eqb_spec projectId "") as [->|Hne]; [discriminate|].
  revert H. unfold findProjectById, ensureInitialized, Chroma.projects_get. unfold_run.
  destruct (db_isInitialized w); unfold_run; [|discriminate].
  rewrite Hout. unfold_run.
  destruct (Chroma.limited _ _) as [|row rows]; unfold_run; [discriminate|].
  destruct (project_row_metadata row); unfold_run; [|discriminate].
  intros _. repeat split. exact Hne.
Qed.

Lemma updateLastModified_run (toISOString : string -> option string)
      (projectId : string) (w : World) :
  projectId <> "" ->
  db_isInitialized w = true ->
  chroma_outages w = [] ->
  created_at_parses toISOString projectId (projectsCollection w) ->
  exists w',
    updateLastModified toISOString projectId w = (Return tt, w')
    /\ chunksCollection w' = chunksCollection w.
Proof.
  intros Hne Hdb Hout (row & rest & meta & iso & Hrow & Hmeta & Hiso).
  unfold updateLastModified.
  destruct (String.eqb_spec projectId "") as [->|_]; [congruence|].
  unfold updateProjectLastModified, findProjectById, ensureInitialized, now,
    Chroma.projects_get, Chroma.projects_update.
  run_with Hdb Hout. rewrite Hrow.
  change (Chroma.limited (Some 1) (row :: rest)) with [row]. cbv beta iota.
  rewrite Hmeta. run_with Hdb Hout.
  cbn [Project.createdAt]. rewrite Hiso. run_with Hdb Hout.
  eexists. split; reflexivity.
Qed.

(** C10: on an existing project whose recorded creation time is a valid
    date, with a file name and a non-empty content that the chunker turns
    into zero chunks, and a store that answers, the update returns
    normally; the chunk collection loses the rows selected for the file,
    after which no chunk of that project and file is left. *)
Theorem update_with_no_chunks_clears_file
  (tokenizer : PreTrainedTokenizer) (extractor : string -> option Embedding)
  (uuidv4 : nat -> string) (toISOString : string -> option string)
  (projectId fileName content : string) (w : World) :
  fst (projectExists projectId w) = Return true ->
  created_at_parses toISOString projectId (projectsCollection w) ->
  chroma_outages w = [] ->
  embedding_isInitialized w = true ->
  fileName <> "" ->
  content <> "" ->
  chunk tokenizer content = Some [] ->
  exists w',
    updateFileContent tokenizer extractor uuidv4 toISOString projectId fileName content w
    = (Return tt, w')
    /\ chunksCollection w'
       = without_ids (file_ids projectId fileName (chunksCollection w)) (chunksCollection w)
    /\ List.filter (Chroma.matches [project_id_eq projectId; file_name_eq fileName])
                   (chunksCollection w') = [].
Proof.
  intros Hex Hdate Hout Hinit Hf Hc Hchunk.
  destruct (projectExists_true_run projectId w Hex Hout) as (Hne & Hdb & Hrun).
  set (w1 := with_trace w (trace w ++ [EvProjectsGet projectId])) in *.
  destruct (deleteMemoryBankContentByFile_run projectId fileName w1 Hdb Hout)
    as (w2 & Hdel & Hchunks2 & Hprojects2 & Hdb2 & Hout2).
  destruct (updateLastModified_run toISOString projectId w2 Hne Hdb2 Hout2)
    as (w3 & Hupd & Hchunks3); [rewrite Hprojects2; exact Hdate|].
  exists w3.
  assert (Hfinal : chunksCollection w3
                   = without_ids (file_ids projectId fileName (chunksCollection w))
                                 (chunksCollection w)).
  { rewrite Hchunks3, Hchunks2. reflexivity. }
  split; [|split; [exact Hfinal|]].
  - unfold updateFileContent. unfold bind at 1. rewrite Hrun. cbn [negb].
    destruct (String.eqb_spec fileName "") as [E|_]; [congruence|].
    destruct (String.eqb_spec content "") as [E|_]; [congruence|].
    cbn [orb].
    unfold try_catch. unfold bind at 1. rewrite chunkText_run.
    replace (embedding_isInitialized w1) with true by (symmetry; exact Hinit).
    rewrite Hchunk.
    unfold bind. rewrite Hdel, Hupd. reflexivity.
  - rewrite Hfinal. apply without_file_ids_none_left.
Qed.

Lemma update_with_no_chunks_clears_file_witness :
  fst (projectExists Sample.pid (Sample.world_with Sample.five_chunks [])) = Return true
  /\ created_at_parses Sample.toISOString Sample.pid
       (projectsCollection (Sample.world_with Sample.five_chunks []))
  /\ chunk Tokenizers.char_level "   " = Some []
  /\ exists w',
      updateFileContent Tokenizers.char_level Sample.extractor Sample.uuidv4
        Sample.toISOString
        Sample.pid "plan.md" "   " (Sample.world_with Sample.five_chunks [])
      = (Return tt, w')
      /\ chunksCollection w'
         = without_ids (file_ids Sample.pid "plan.md" Sample.five_chunks)
                       Sample.five_chunks
      /\ List.filter (Chroma.matches [project_id_eq Sample.pid; file_name_eq "plan.md"])
                     (chunksCollection w') = [].
Proof.
  split; [vm_compute; reflexivity|].
  split; [do 4 eexists; vm_compute; repeat split|].
  split; [vm_compute; reflexivity|].
  apply (update_with_no_chunks_clears_file Tokenizers.char_level Sample.extractor
           Sample.uuidv4 Sample.toISOString Sample.pid "plan.md" "   "
           (Sample.world_with Sample.five_chunks []));
    try (vm_compute; reflexivity); try discriminate.
  do 4 eexists; vm_compute; repeat split.
Defined.

(* ================================================================= *)
(** ** Reading a file back *)

Lemma projectExists_true_db (projectId : string) (w : World) :
  fst (projectExists projectId w) = Return true -> db_isInitialized w = true.
Proof.
  unfold projectExists.
  destruct (projectId =? "")%string; [discriminate|].
  unfold findProjectById, ensureInitialized. unfold_run.
  destruct (db_isInitialized w); [reflexivity|discriminate].
Qed.

Lemma by_chunkIndex_le (a b : MemoryBankChunk.t) :
  by_chunkIndex a b <> Gt -> chunkIndex_le a b.
Proof. unfold by_chunkIndex, chunkIndex_le. intros H. apply sign_Z_le in H. lia. Qed.

Lemma by_chunkIndex_gt (a b : MemoryBankChunk.t) :
  by_chunkIndex a b = Gt -> chunkIndex_le b a.
Proof. unfold by_chunkIndex, chunkIndex_le. intros H. apply sign_Z_gt in H. lia. Qed.

Lemma chunkIndex_le_trans : Transitive chunkIndex_le.
Proof. intros a b c. unfold chunkIndex_le. lia. Qed.

Lemma getFileContent_after_lookup (projectId fileName : string) (w w1 : World) :
  projectExists projectId w = (Return true, w1) ->
  getFileContent projectId fileName w
  = try_catch
      (bind (getMemoryBankChunksByFile projectId fileName)
            (fun chunks =>
               match chunks with
               | [] => throw (no_content_found projectId fileName)
               | _ => ret (Js.join (map MemoryBankChunk.chunkText chunks))
               end))
      (rethrow_McpError_or "Failed to get file content: ") w1.
Proof.
  intros Hex. unfold getFileContent. unfold bind at 1. rewrite Hex. reflexivity.
Qed.

Lemma join_concatenation (texts : list string) : Js.join texts = concatenation texts.
Proof.
  unfold Js.join. induction texts as [|t ts IH]; [reflexivity|].
  cbn [concatenation fold_right]. fold (concatenation ts). rewrite <- IH.
  destruct ts as [|t' ts']; cbn [String.concat].
  - clear IH. induction t as [|c t IHt]; [reflexivity|]. cbn. now rewrite <- IHt.
  - reflexivity.
Qed.

Lemma stored_chunks_texts (projectId fileName : string) (rows : list ChunkRow) :
  map (fun c => (MemoryBankChunk.chunkIndex c, MemoryBankChunk.chunkText c))
      (flat_map chunk_of_row
         (List.filter (Chroma.matches [project_id_eq projectId; file_name_eq fileName])
                      rows))
  = stored_texts projectId fileName rows.
Proof.
  induction rows as [|r rows IH]; [reflexivity|].
  cbn [List.filter stored_texts flat_map]. fold (stored_texts projectId fileName rows).
  rewrite <- IH. unfold Chroma.matches, chunk_of_row. cbn [forallb].
  destruct (row_metadata r) as [meta|] eqn:Em; cbn [Chroma.holds].
  - rewrite andb_true_r.
    destruct ((project_id meta =? projectId)%string && (file_name meta =? fileName)%string)%bool.
    + cbn [flat_map]. unfold chunk_of_row. rewrite Em.
      destruct (row_document r); reflexivity.
    + destruct (row_document r); reflexivity.
  - reflexivity.
Qed.

Lemma sorted_by_index (chunks : list MemoryBankChunk.t) :
  StronglySorted chunkIndex_le chunks ->
  StronglySorted index_ascending
    (map (fun c => (MemoryBankChunk.chunkIndex c, MemoryBankChunk.chunkText c)) chunks).
Proof.
  induction 1 as [|c cs _ IH Hall]; cbn [map]; constructor; [exact IH|].
  apply Forall_map. revert Hall. apply Forall_impl. intros c' H. exact H.
Qed.

(** C6: on an existing project, when the store answers, [getFileContent]
    returns the texts of the stored chunks of the file put one after the
    other without a separator in ascending order of chunk index, and throws
    the not-found error ([InvalidParams]) when there is no chunk; when the
    store fails it throws an [InternalError]. *)
Theorem getFileContent_concatenates_in_index_order
  (projectId fileName : string) (w w1 : World) :
  projectExists projectId w = (Return true, w1) ->
  (next_call_fails w1 = false ->
   exists pieces,
     Permutation pieces (stored_texts projectId fileName (chunksCollection w))
     /\ StronglySorted index_ascending pieces
     /\ fst (getFileContent projectId fileName w)
        = match pieces with
          | [] => Throw (McpError InvalidParams
                           ("No content found for file '" ++ fileName
                            ++ "' in project '" ++ projectId ++ "'."))
          | _ => Return (concatenation (map snd pieces))
          end)
  /\ (next_call_fails w1 = true ->
      fst (getFileContent projectId fileName w)
      = Throw (McpError InternalError "Database error getting file chunks.")).
Proof.
  intros Hex.
  assert (Hdb : db_isInitialized w = true)
    by (apply (projectExists_true_db projectId); now rewrite Hex).
  destruct (projectExists_quiet projectId w) as [_ Hq]. rewrite Hex in Hq. cbn in Hq.
  destruct Hq as (Hchunks & _ & Hdb1 & _). rewrite Hdb in Hdb1.
  rewrite <- Hchunks.
  unfold next_call_fails.
  rewrite (getFileContent_after_lookup projectId fileName w w1 Hex).
  unfold getMemoryBankChunksByFile, ensureInitialized, Chroma.chunks_get, Chroma.limited.
  split.
  - intros Hok.
    set (found := List.filter
                    (Chroma.matches [project_id_eq projectId; file_name_eq fileName])
                    (chunksCollection w1)).
    exists (map (fun c => (MemoryBankChunk.chunkIndex c, MemoryBankChunk.chunkText c))
                (Js.sort by_chunkIndex (flat_map chunk_of_row found))).
    split.
    { rewrite <- stored_chunks_texts. apply Permutation_map. apply sort_perm. }
    split.
    { apply sorted_by_index.
      apply (sort_strongly_sorted by_chunkIndex chunkIndex_le by_chunkIndex_le
               by_chunkIndex_gt); apply chunkIndex_le_trans. }
    assert (Hjoin : forall chunks : list MemoryBankChunk.t,
               match chunks with
               | [] => Throw (no_content_found projectId fileName)
               | _ => Return (Js.join (map MemoryBankChunk.chunkText chunks))
               end
               = match map (fun c => (MemoryBankChunk.chunkIndex c,
                                      MemoryBankChunk.chunkText c)) chunks with
                 | [] => Throw (McpError InvalidParams
                                  ("No content found for file '" ++ fileName
                                   ++ "' in project '" ++ projectId ++ "'."))
                 | _ => Return (concatenation
                                  (map snd (map (fun c => (MemoryBankChunk.chunkIndex c,
                                                           MemoryBankChunk.chunkText c))
                                                chunks)))
                 end).
    { intros [|c cs]; [reflexivity|]. cbn [map]. rewrite join_concatenation.
      cbn [map snd]. rewrite map_map. reflexivity. }
    rewrite <- Hjoin. clear Hjoin.
    run_with Hdb1 Hdb1. fold found.
    destruct (chroma_outages w1) as [|[m|] rest]; [|discriminate|]; unfold_run;
      (destruct found as [|r rs] eqn:Efound; unfold_run; [reflexivity|]);
      destruct (Js.sort by_chunkIndex _); reflexivity.
  - intros Hfail. run_with Hdb1 Hdb1.
    destruct (chroma_outages w1) as [|[m|] rest]; try discriminate. reflexivity.
Qed.

Lemma getFileContent_concatenates_in_index_order_witness :
  projectExists Sample.pid (Sample.world_with Sample.keyword_chunks [])
  = (Return true,
     with_trace (Sample.world_with Sample.keyword_chunks []) [EvProjectsGet Sample.pid])
  /\ stored_texts Sample.pid "fileA.md" Sample.keyword_chunks
     = [(2, "no match"); (0, "hello world")]
  /\ fst (getFileContent Sample.pid "fileA.md" (Sample.world_with Sample.keyword_chunks []))
     = Return "hello worldno match"
  /\ exists pieces,
      Permutation pieces (stored_texts Sample.pid "fileA.md" Sample.keyword_chunks)
      /\ StronglySorted index_ascending pieces
      /\ fst (getFileContent Sample.pid "fileA.md"
                (Sample.world_with Sample.keyword_chunks []))
         = match pieces with
           | [] => Throw (McpError InvalidParams
                            ("No content found for file '" ++ "fileA.md"
                             ++ "' in project '" ++ Sample.pid ++ "'."))
           | _ => Return (concatenation (map snd pieces))
           end.
Proof.
  split; [vm_compute; reflexivity|].
  split; [vm_compute; reflexivity|].
  split; [vm_compute; reflexivity|].
  apply (proj1 (getFileContent_concatenates_in_index_order Sample.pid "fileA.md"
                  (Sample.world_with Sample.keyword_chunks [])
                  (with_trace (Sample.world_with Sample.keyword_chunks [])
                              [EvProjectsGet Sample.pid])
                  eq_refl)).
  reflexivity.
Defined.

(* ================================================================= *)
(** ** Searching *)

Section SearchProperties.
Variable extractor : string -> option Embedding.
Variable queryAnswer : Embedding -> Z -> Where -> list ChunkRow -> list Chroma.QueryRow.
Variable localeCompare : string -> string -> Z.

Lemma generateEmbedding_Return_inv (text : string) (w w' : World) (e : Embedding) :
  await (generateEmbedding extractor text) w = (Return e, w') ->
  extractor text = Some e /\ chunksCollection w' = chunksCollection w.
Proof.
  unfold generateEmbedding.
  destruct (embedding_isInitialized w) eqn:Hinit; unfold_run; rewrite Hinit; cbn [negb];
    [|discriminate].
  unfold_run. destruct (extractor text) as [e'|]; unfold_run; [|discriminate].
  intros H. injection H as <- <-. split; reflexivity.
Qed.

Lemma semanticSearchChunks_Return_inv (projectId : string) (queryEmbedding : Embedding)
      (topK : Z) (fileFilter : option (list string)) (w w' : World)
      (chunks : list DatabaseSearchResult.t) :
  semanticSearchChunks queryAnswer projectId queryEmbedding topK fileFilter w
  = (Return chunks, w') ->
  chunks = flat_map result_of_query_row
             (queryAnswer queryEmbedding topK (search_filter projectId fileFilter)
                          (chunksCollection w))
  /\ Chroma.valid_where (Chroma.where_keys (search_filter projectId fileFilter)) = true.
Proof.
  unfold semanticSearchChunks, ensureInitialized, Chroma.chunks_query.
  destruct fileFilter as [[|f fs]|]; cbn [search_filter]; unfold_run;
    (destruct (db_isInitialized w); unfold_run; [|discriminate]);
    destruct (chroma_outages w) as [|[m|] rest]; unfold_run; try discriminate;
    (destruct (topK <? 1); unfold_run; [discriminate|]); try discriminate;
    intros H; injection H as <- _; split; reflexivity.
Qed.

Lemma format_reported (l : list Chroma.QueryRow) :
  map format_result (flat_map result_of_query_row l) = flat_map reported l.
Proof.
  induction l as [|r l IH]; [reflexivity|].
  cbn [flat_map]. rewrite map_app, IH. f_equal.
  unfold result_of_query_row, reported.
  destruct (Chroma.q_metadata r), (Chroma.q_document r); reflexivity.
Qed.

Lemma flat_map_reported_length (l : list Chroma.QueryRow) :
  (List.length (flat_map reported l) <= List.length l)%nat.
Proof.
  induction l as [|r l IH]; [reflexivity|].
  cbn [flat_map]. rewrite length_app. unfold reported at 1.
  destruct (Chroma.q_metadata r), (Chroma.q_document r); cbn; lia.
Qed.

(** What a returning call of [search] went through. *)
Lemma search_Return_inv (projectId query searchType : string) (topK : Z)
      (fileFilter : option (list string)) (w w' : World) (results : list SearchResult.t) :
  search extractor queryAnswer localeCompare projectId query searchType topK fileFilter w
  = (Return results, w') ->
  exists w1 chunks w2,
    projectExists projectId w = (Return true, w1)
    /\ query <> "" /\ topK <> 0
    /\ (if (searchType =? "semantic")%string then
          bind (await (generateEmbedding extractor query))
               (fun queryEmbedding =>
                  semanticSearchChunks queryAnswer projectId queryEmbedding topK fileFilter)
        else if (searchType =? "keyword")%string then
          keywordSearchChunks localeCompare projectId query topK fileFilter
        else throw (McpError InvalidParams ("Invalid search type: " ++ searchType)%string))
         w1 = (Return chunks, w2)
    /\ results = (if (searchType =? "semantic")%string
                  then Js.sort by_score (map format_result chunks)
                  else map format_result chunks).
Proof.
  unfold search. intros H.
  apply bind_Return_inv in H as (b & w1 & Hex & H).
  destruct b; cbn [negb] in H; [|discriminate].
  destruct (String.eqb_spec query "") as [->|Hq]; [discriminate|].
  destruct (searchType =? "")%string; [discriminate|].
  destruct (Z.eqb_spec topK 0) as [->|Hk]; [discriminate|].
  cbn [orb] in H.
  apply try_catch_Return_inv in H; [|intros; apply rethrow_never_returns].
  apply bind_Return_inv in H as (chunks & w2 & Hchunks & H).
  exists w1, chunks, w2. repeat split; try assumption.
  unfold ret in H. now injection H as <- _.
Qed.

(* ----------------------------------------------------------------- *)
(** *** Semantic mode *)

Lemma semantic_search_inv (projectId query : string) (topK : Z)
      (fileFilter : option (list string)) (w w' : World) (results : list SearchResult.t) :
  search extractor queryAnswer localeCompare projectId query "semantic" topK fileFilter w
  = (Return results, w') ->
  exists queryEmbedding,
    extractor query = Some queryEmbedding
    /\ results
       = Js.sort by_score
           (flat_map reported
              (query_response queryAnswer queryEmbedding topK projectId fileFilter w)).
Proof.
  intros H. apply search_Return_inv in H as (w1 & chunks & w2 & Hex & _ & _ & Hrun & ->).
  cbn [String.eqb Ascii.eqb Bool.eqb] in Hrun |- *.
  apply bind_Return_inv in Hrun as (qe & w1' & Hemb & Hsem).
  apply generateEmbedding_Return_inv in Hemb as [Hqe Hsame].
  apply semanticSearchChunks_Return_inv in Hsem as [-> _].
  exists qe. split; [exact Hqe|].
  rewrite format_reported. unfold query_response.
  destruct (projectExists_quiet projectId w) as [_ Hq]. rewrite Hex in Hq.
  destruct Hq as (Hchunks & _). cbn in Hchunks.
  rewrite Hsame, Hchunks. reflexivity.
Qed.

End SearchProperties.

(** C4: a semantic search that returns gives its results in ascending
    order of score, whatever the store reported and in whatever order; the
    results are those the store reported for the embedded query, each with
    the reported distance as its score. For [topK = 3] over five chunks at
    distances 0.1, 0.9, 0.3, 0.05 and 0.5, with a store that reports the
    three nearest in the order it holds them (0.1, 0.3, 0.05), the scores
    come back as 0.05 (= 1/20), 0.1, 0.3. *)
Theorem semantic_search_orders_by_distance
  (extractor : string -> option Embedding)
  (queryAnswer : Embedding -> Z -> Where -> list ChunkRow -> list Chroma.QueryRow)
  (localeCompare : string -> string -> Z)
  (projectId query : string) (topK : Z) (fileFilter : option (list string))
  (w w' : World) (results : list SearchResult.t) :
  search extractor queryAnswer localeCompare projectId query "semantic" topK fileFilter w
  = (Return results, w') ->
  StronglySorted score_ascending results
  /\ (exists queryEmbedding,
         extractor query = Some queryEmbedding
         /\ Permutation results
              (flat_map reported
                 (query_response queryAnswer queryEmbedding topK projectId fileFilter w)))
  /\ (map Chroma.q_distance
          (query_response Sample.queryAnswer [0%Q] 3 Sample.pid None
             (Sample.world_with Sample.five_chunks []))
      = [Some (1 # 10); Some (3 # 10); Some (1 # 20)]
      /\ map SearchResult.score
             (match fst (search Sample.extractor Sample.queryAnswer Sample.localeCompare
                           Sample.pid "query" "semantic" 3 None
                           (Sample.world_with Sample.five_chunks [])) with
              | Return found => found
              | _ => []
              end)
         = [Some (1 # 20); Some (1 # 10); Some (3 # 10)]).
Proof.
  intros H. apply semantic_search_inv in H as (qe & Hqe & ->).
  split; [|split; [|split]].
  - apply (sort_strongly_sorted by_score score_ascending by_score_le by_score_gt).
    apply score_ascending_trans.
  - exists qe. split; [exact Hqe|]. apply sort_perm.
  - vm_compute. reflexivity.
  - vm_compute. reflexivity.
Qed.

Lemma semantic_search_orders_by_distance_witness :
  exists results w',
    search Sample.extractor Sample.queryAnswer Sample.localeCompare
      Sample.pid "query" "semantic" 3 None (Sample.world_with Sample.five_chunks [])
    = (Return results, w')
    /\ map (fun r => (SearchResult.text r, SearchResult.score r)) results
       = [("delta", Some (1 # 20)); ("alpha", Some (1 # 10)); ("gamma", Some (3 # 10))]
    /\ StronglySorted score_ascending results
    /\ (exists queryEmbedding,
           Sample.extractor "query" = Some queryEmbedding
           /\ Permutation results
                (flat_map reported
                   (query_response Sample.queryAnswer queryEmbedding 3 Sample.pid None
                      (Sample.world_with Sample.five_chunks [])))).
Proof.
  eexists. eexists. split; [vm_compute; reflexivity|].
  split; [reflexivity|].
  match goal with
  | |- StronglySorted _ ?r /\ _ =>
      pose proof (semantic_search_orders_by_distance Sample.extractor Sample.queryAnswer
                    Sample.localeCompare Sample.pid "query" 3 None
                    (Sample.world_with Sample.five_chunks []) _ r eq_refl)
        as (Hs & Hp & _)
  end.
  split; [exact Hs|exact Hp].
Defined.

(* ----------------------------------------------------------------- *)
(** *** Keyword mode *)

Lemma slice_from_0 {A : Type} (l : list A) (k : Z) :
  0 <= k -> Js.slice l 0 k = firstn (Z.to_nat k) l.
Proof.
  intros Hk. unfold Js.slice.
  change (0 <? 0) with false. cbv iota.
  destruct (Z.ltb_spec k 0); [lia|].
  rewrite (Z.min_l 0) by lia. cbn [Z.to_nat skipn]. rewrite Z.sub_0_r.
  destruct (Z.le_gt_cases k (Z.of_nat (List.length l))) as [Hle|Hgt].
  - now rewrite Z.min_l by lia.
  - rewrite Z.min_r by lia. rewrite Nat2Z.id.
    rewrite firstn_all. symmetry. apply firstn_all2. lia.
Qed.

Section KeywordProperties.
Variable extractor : string -> option Embedding.
Variable queryAnswer : Embedding -> Z -> Where -> list ChunkRow -> list Chroma.QueryRow.
Variable localeCompare : string -> string -> Z.
Hypothesis collation : strict_collation localeCompare.

Lemma by_fileName_chunkIndex_le (a b : DatabaseSearchResult.t) :
  by_fileName_chunkIndex localeCompare a b <> Gt -> (db_fileName_chunkIndex_le localeCompare) a b.
Proof.
  destruct collation as (Heq & _ & _).
  unfold by_fileName_chunkIndex, db_fileName_chunkIndex_le, fileName_chunkIndex_le. cbn.
  destruct (String.eqb_spec (DatabaseSearchResult.fileName a)
                            (DatabaseSearchResult.fileName b)) as [E|Hne]; cbn [negb];
    intros H; apply sign_Z_le in H.
  - right. split; [exact E|lia].
  - left. assert (localeCompare (DatabaseSearchResult.fileName a)
                                (DatabaseSearchResult.fileName b) <> 0)
      by (intros E0; apply Hne; now apply Heq).
    lia.
Qed.

Lemma by_fileName_chunkIndex_gt (a b : DatabaseSearchResult.t) :
  by_fileName_chunkIndex localeCompare a b = Gt -> (db_fileName_chunkIndex_le localeCompare) b a.
Proof.
  destruct collation as (_ & Hanti & _).
  unfold by_fileName_chunkIndex, db_fileName_chunkIndex_le, fileName_chunkIndex_le. cbn.
  destruct (String.eqb_spec (DatabaseSearchResult.fileName a)
                            (DatabaseSearchResult.fileName b)) as [E|Hne]; cbn [negb];
    intros H; apply sign_Z_gt in H.
  - right. split; [now symmetry|lia].
  - left. now apply Hanti.
Qed.

Lemma db_le_trans : Transitive (db_fileName_chunkIndex_le localeCompare).
Proof.
  destruct collation as (_ & _ & Htrans).
  intros a b c. unfold db_fileName_chunkIndex_le, fileName_chunkIndex_le. cbn.
  intros [Hab|[Eab Hab]] [Hbc|[Ebc Hbc]].
  - left. eapply Htrans; eassumption.
  - left. now rewrite <- Ebc.
  - left. now rewrite Eab.
  - right. split; [congruence|lia].
Qed.

Lemma keywordSearchChunks_Return_inv (projectId query : string) (topK : Z)
      (fileFilter : option (list string)) (w w' : World)
      (chunks : list DatabaseSearchResult.t) :
  keywordSearchChunks localeCompare projectId query topK fileFilter w
  = (Return chunks, w') ->
  chunks = Js.slice
             (Js.sort (by_fileName_chunkIndex localeCompare)
                (flat_map (keyword_match (Js.toLowerCase query))
                   (keyword_pool projectId fileFilter w)))
             0 topK.
Proof.
  unfold keywordSearchChunks, ensureInitialized, Chroma.chunks_get, keyword_pool.
  destruct fileFilter as [[|f fs]|]; cbn [search_filter]; unfold_run;
    (destruct (db_isInitialized w); unfold_run; [|discriminate]);
    destruct (chroma_outages w) as [|[m|] rest]; unfold_run; try discriminate;
    intros H; injection H as <- _; reflexivity.
Qed.

Lemma keyword_match_result (pool : list ChunkRow) (query : string)
      (x : DatabaseSearchResult.t) :
  In x (flat_map (keyword_match (Js.toLowerCase query)) pool) ->
  keyword_result pool query (format_result x).
Proof.
  intros Hin. apply in_flat_map in Hin as (row & Hrow & Hx).
  unfold keyword_match in Hx.
  destruct (row_metadata row) as [meta|] eqn:Em; [|destruct Hx].
  destruct (row_document row) as [doc|] eqn:Ed; [|destruct Hx].
  destruct (Js.includes (Js.toLowerCase doc) (Js.toLowerCase query)) eqn:Ei;
    [|destruct Hx].
  destruct Hx as [<-|[]]. unfold keyword_result. cbn. repeat split.
  - exact Ei.
  - exists row. split; [exact Hrow|]. exists meta, doc. cbn. repeat split; assumption.
Qed.

(** The keyword search of the service, for a [topK] that is not negative. *)
Lemma keyword_search_service (projectId query : string) (topK : Z)
      (fileFilter : option (list string)) (w w' : World) (results : list SearchResult.t) :
  0 <= topK ->
  search extractor queryAnswer localeCompare projectId query "keyword" topK fileFilter w
  = (Return results, w') ->
  Forall (keyword_result (keyword_pool projectId fileFilter w) query) results
  /\ StronglySorted (fileName_chunkIndex_le localeCompare) results
  /\ Z.of_nat (List.length results) <= topK.
Proof.
  intros Hk H.
  apply search_Return_inv in H as (w1 & chunks & w2 & Hex & _ & _ & Hrun & ->).
  cbn [String.eqb Ascii.eqb Bool.eqb] in Hrun |- *.
  apply keywordSearchChunks_Return_inv in Hrun. subst chunks.
  destruct (projectExists_quiet projectId w) as [_ Hq]. rewrite Hex in Hq.
  destruct Hq as (Hchunks & _). cbn in Hchunks.
  assert (Hpool : keyword_pool projectId fileFilter w1 = keyword_pool projectId fileFilter w)
    by (unfold keyword_pool; now rewrite Hchunks).
  rewrite Hpool, slice_from_0 by exact Hk.
  split; [|split].
  - apply Forall_forall. intros r Hr.
    apply in_map_iff in Hr as (x & <- & Hx).
    apply In_firstn in Hx.
    apply (Permutation_in _ (sort_perm _ _)) in Hx.
    now apply keyword_match_result.
  - apply (StronglySorted_map (db_fileName_chunkIndex_le localeCompare)); [auto|].
    apply StronglySorted_firstn.
    apply (sort_strongly_sorted _ (db_fileName_chunkIndex_le localeCompare) by_fileName_chunkIndex_le by_fileName_chunkIndex_gt).
    exact db_le_trans.
  - rewrite length_map.
    pose proof (firstn_le_length (Z.to_nat topK)
                  (Js.sort (by_fileName_chunkIndex localeCompare)
                     (flat_map (keyword_match (Js.toLowerCase query))
                        (keyword_pool projectId fileFilter w)))).
    lia.
Qed.

End KeywordProperties.

Lemma memoryBank_search_Return_inv
      (extractor : string -> option Embedding) (queryAnswer : Embedding -> Z -> Where -> list ChunkRow -> list Chroma.QueryRow)
      (localeCompare : string -> string -> Z) (raw : RawSearchArgs) (args : SearchArgs)
      (w w' : World) (results : list SearchResult.t) :
  parse_search_args raw = Some args ->
  memoryBank_search extractor queryAnswer localeCompare raw w = (Return results, w') ->
  search extractor queryAnswer localeCompare (projectId args) (query args)
         (searchType args) (topK args) (fileFilter args) w
  = (Return results, w').
Proof.
  intros Hargs. unfold memoryBank_search. rewrite Hargs.
  apply try_catch_Return_inv. intros e w1.
  destruct (instanceof_McpError e); discriminate.
Qed.


Lemma code_unit_collation : strict_collation Sample.localeCompare.
Proof.
  unfold strict_collation, Sample.localeCompare. repeat split.
  - intros H. apply String_as_OT.cmp_eq. destruct (String_as_OT.cmp a b); [reflexivity|lia|lia].
  - intros ->. now rewrite (proj2 (String_as_OT.cmp_eq b b) eq_refl).
  - intros a b. rewrite (String_as_OT.cmp_antisym b a).
    destruct (String_as_OT.cmp a b); cbn; lia.
  - intros a b c Hab Hbc.
    assert (Lab : String_as_OT.cmp a b = Lt) by (destruct (String_as_OT.cmp a b); [lia|reflexivity|lia]).
    assert (Lbc : String_as_OT.cmp b c = Lt) by (destruct (String_as_OT.cmp b c); [lia|reflexivity|lia]).
    apply String_as_OT.cmp_lt in Lab, Lbc.
    pose proof (String_as_OT.lt_trans _ _ _ Lab Lbc) as Lac.
    apply String_as_OT.cmp_lt in Lac. rewrite Lac. lia.
Qed.


(* ################################################################# *)
(** * Further properties *)

(* ================================================================= *)
(** ** Strings *)

Lemma append_nil_r (s : string) : (s ++ "")%string = s.
Proof. induction s as [|c s IH]; cbn; [reflexivity|now rewrite IH]. Qed.

Lemma append_assoc (a b c : string) : ((a ++ b) ++ c)%string = (a ++ b ++ c)%string.
Proof. induction a as [|x a IH]; cbn; [reflexivity|now rewrite IH]. Qed.

Lemma length_append (a b : string) :
  String.length (a ++ b) = (String.length a + String.length b)%nat.
Proof. induction a as [|x a IH]; cbn; [reflexivity|now rewrite IH]. Qed.

Lemma join_cons (x : string) (l : list string) : Js.join (x :: l) = (x ++ Js.join l)%string.
Proof.
  unfold Js.join. destruct l as [|y l]; cbn; [now rewrite append_nil_r|reflexivity].
Qed.

Lemma join_app (l1 l2 : list string) : Js.join (l1 ++ l2) = (Js.join l1 ++ Js.join l2)%string.
Proof.
  induction l1 as [|x l1 IH]; [reflexivity|].
  cbn [app]. now rewrite !join_cons, IH, append_assoc.
Qed.

Lemma prefix_split (p s : string) :
  String.prefix p s = true -> exists rest, s = (p ++ rest)%string.
Proof.
  revert s. induction p as [|c p IH]; intros s H.
  - now exists s.
  - destruct s as [|d s]; [discriminate|]. cbn in H.
    destruct (Ascii.ascii_dec c d) as [->|]; [|discriminate].
    destruct (IH s H) as [rest ->]. now exists rest.
Qed.

(** Passing over the rest of a separator occurrence. *)
Lemma split_from_skip (sep a rest cur : string) :
  Js.split_from sep (a ++ rest) (String.length a) cur = Js.split_from sep rest 0 cur.
Proof.
  induction a as [|c a IH]; [reflexivity|]. cbn. exact IH.
Qed.

(** The pieces of [split], each but the first with the separator in front,
    make up the text again. *)
Lemma split_from_reattached (sep : string) :
  sep <> "" ->
  forall n s cur,
    (String.length s <= n)%nat ->
    exists first rest,
      Js.split_from sep s 0 cur = first :: rest
      /\ (first ++ Js.join (reattached sep 1 rest))%string = (cur ++ s)%string.
Proof.
  intros Hsep.
  assert (Hre : forall i l, reattached sep (S i) l = map (fun x => (sep ++ x)%string) l).
  { intros i l. revert i. induction l as [|x l IH]; intros i; cbn; [reflexivity|].
    destruct (String.eqb_spec sep "") as [E|_]; [congruence|]. cbn. now rewrite IH. }
  induction n as [|n IH]; intros s cur Hlen.
  - destruct s; [|cbn in Hlen; lia].
    exists cur, []. split; [reflexivity|]. reflexivity.
  - destruct s as [|c s']; [exists cur, []; split; reflexivity|].
    cbn [Js.split_from].
    destruct (String.prefix sep (String c s')) eqn:Hp.
    + apply prefix_split in Hp as [s2 Hs2].
      destruct sep as [|c0 sep']; [congruence|].
      cbn in Hs2. injection Hs2 as -> ->.
      match goal with
      | |- context [(String.length ?x - 1)%nat] =>
          replace (String.length x - 1)%nat with (String.length sep')
            by (cbn [String.length]; lia)
      end.
      rewrite split_from_skip.
      destruct (IH s2 "") as (first & rest & Hsplit & Hjoin).
      { cbn in Hlen. rewrite length_append in Hlen. lia. }
      exists cur, (first :: rest). split; [now rewrite Hsplit|].
      rewrite Hre. cbn [map]. rewrite join_cons, <- (Hre 0%nat rest).
      cbn [append] in Hjoin. rewrite !append_assoc, Hjoin. reflexivity.
    + destruct (IH s' (cur ++ String c "")%string) as (first & rest & Hsplit & Hjoin).
      { cbn in Hlen. lia. }
      exists first, rest. split; [exact Hsplit|].
      rewrite Hjoin, append_assoc. reflexivity.
Qed.

Lemma split_reattached (text sep : string) :
  sep <> "" -> Js.join (reattached sep 0 (Js.split text sep)) = text.
Proof.
  intros Hsep. unfold Js.split.
  destruct (split_from_reattached sep Hsep (String.length text) text "" (le_n _))
    as (first & rest & -> & Hjoin).
  cbn [reattached Nat.ltb Nat.leb andb]. rewrite join_cons. exact Hjoin.
Qed.

(* ================================================================= *)
(** ** More on the splitter *)

Section SplitterMore.
Variable options : TextSplitterOptions.
Variable tokenizer : PreTrainedTokenizer.

Lemma measured_nonneg (l : list string) :
  0 <= fold_right Z.add 0 (map (tokenCount tokenizer) l).
Proof.
  induction l as [|x l IH]; cbn; [lia|]. unfold tokenCount at 1. lia.
Qed.

(** While everything fits, the loop over the splits only appends. *)
Lemma segments_loop_all_fit (recurse : string -> option (list string)) (separator : string) :
  forall splits i st,
    finalChunks st = [] ->
    0 <= currentChunkTokens st ->
    currentChunkTokens st
    + fold_right Z.add 0 (map (tokenCount tokenizer) (reattached separator i splits))
    <= chunkSize options ->
    segments_loop options tokenizer recurse separator i splits st
    = Some {| finalChunks := [];
              currentChunk := (currentChunk st
                               ++ Js.join (reattached separator i splits))%string;
              currentChunkTokens :=
                currentChunkTokens st
                + fold_right Z.add 0
                    (map (tokenCount tokenizer) (reattached separator i splits)) |}.
Proof.
  induction splits as [|split rest IH]; intros i st Hfin Htok Hfit.
  - cbn. rewrite append_nil_r, Z.add_0_r. destruct st; cbn in *. now subst.
  - cbn [segments_loop reattached map fold_right] in *. cbv zeta.
    set (sws := if (Nat.ltb 0 i && negb (separator =? "")%string)%bool
                then (separator ++ split)%string else split) in *.
    pose proof (measured_nonneg (reattached separator (S i) rest)) as Hrest.
    assert (0 <= tokenCount tokenizer sws) by (unfold tokenCount; lia).
    destruct (Z.ltb_spec (chunkSize options) (tokenCount tokenizer sws)); [lia|].
    destruct (Z.leb_spec (currentChunkTokens st + tokenCount tokenizer sws)
                         (chunkSize options)); [|lia].
    rewrite IH; cbn [finalChunks currentChunk currentChunkTokens];
      [|exact Hfin|lia|lia].
    rewrite join_cons, append_assoc, Z.add_assoc. reflexivity.
Qed.

End SplitterMore.

(** X1: a document whose paragraphs, measured one by one as the splitter does,
    stay within 450 tokens in total comes back as one chunk equal to the
    document, or as no chunk when it is blank. *)
Theorem document_within_budget_is_one_chunk
  (tokenizer : PreTrainedTokenizer) (content : string) :
  measured_tokens tokenizer (LF ++ LF) content <= 450 ->
  chunk tokenizer content
  = Some (if 0 <? Js.length (Js.trim content) then [content] else []).
Proof.
  intros Hfit. unfold chunk, default_separators. cbn [_splitTextWithTokenizer].
  replace ((LF ++ LF)%string =? "")%string with false by reflexivity.
  unfold split_segments.
  rewrite (segments_loop_all_fit chunk_options tokenizer); cbn [finalChunks currentChunk
    currentChunkTokens]; [|reflexivity|lia|exact Hfit].
  rewrite split_reattached by discriminate. reflexivity.
Qed.

Lemma document_within_budget_is_one_chunk_witness :
  measured_tokens Tokenizers.bert_like (LF ++ LF)
    ("First paragraph." ++ LF ++ LF ++ "Second paragraph.") <= 450
  /\ chunk Tokenizers.bert_like ("First paragraph." ++ LF ++ LF ++ "Second paragraph.")
     = Some (if 0 <? Js.length (Js.trim ("First paragraph." ++ LF ++ LF ++ "Second paragraph."))
             then ["First paragraph." ++ LF ++ LF ++ "Second paragraph."]%string else []).
Proof.
  split; [vm_compute; discriminate|].
  apply (document_within_budget_is_one_chunk Tokenizers.bert_like).
  vm_compute. discriminate.
Defined.

(* ----------------------------------------------------------------- *)
(** *** The token windows of the base case *)

Section WindowsMore.
Variable options : TextSplitterOptions.
Variable tokenizer : PreTrainedTokenizer.

Lemma slice_window {A : Type} (l : list A) (i size : Z) :
  0 <= i -> 0 <= size ->
  Js.slice l i (i + size)
  = firstn (Z.to_nat size) (skipn (Z.to_nat i) l).
Proof.
  intros Hi Hsize. unfold Js.slice.
  destruct (Z.ltb_spec i 0); [lia|]. destruct (Z.ltb_spec (i + size) 0); [lia|].
  destruct (Z.le_gt_cases i (Z.of_nat (List.length l))) as [Hin|Hout].
  - rewrite (Z.min_l i) by lia.
    destruct (Z.le_gt_cases (i + size) (Z.of_nat (List.length l))).
    + rewrite Z.min_l by lia. f_equal. lia.
    + rewrite Z.min_r by lia.
      rewrite (firstn_all2 (n := Z.to_nat size)) by (rewrite length_skipn; lia).
      apply firstn_all2. rewrite length_skipn. lia.
  - rewrite !Z.min_r by lia. rewrite Z.sub_diag. cbn [Z.to_nat firstn].
    rewrite (skipn_all2 (n := Z.to_nat i)) by lia. now rewrite firstn_nil.
Qed.

Lemma window_not_empty (ids : list Z) (i : Z) :
  0 < chunkSize options -> 0 <= i < Z.of_nat (List.length ids) ->
  (0 <? Z.of_nat (List.length (Js.slice ids i (i + chunkSize options)))) = true.
Proof.
  intros Hsize Hi. rewrite slice_window by lia.
  rewrite length_firstn, length_skipn. apply Z.ltb_lt. lia.
Qed.

Lemma covered_more (ids : list Z) (acc more : list string) (k : Z) :
  covered options tokenizer ids acc k -> covered options tokenizer ids (acc ++ more) k.
Proof.
  intros (j & Hj & Hk & Hin). exists j.
  split; [exact Hj|]. split; [exact Hk|]. apply in_or_app. now left.
Qed.

(** With a step from 1 to [chunkSize] the windows leave no token out. *)
Lemma window_loop_covers (ids : list Z) :
  0 < window_step options <= chunkSize options ->
  forall fuel i acc res,
    0 <= i ->
    (forall k, 0 <= k < Z.min i (Z.of_nat (List.length ids)) ->
               covered options tokenizer ids acc k) ->
    window_loop options tokenizer fuel ids i acc = Some res ->
    forall k, 0 <= k < Z.of_nat (List.length ids) -> covered options tokenizer ids res k.
Proof.
  intros Hstep. unfold window_step in Hstep.
  induction fuel as [|fuel IH]; intros i acc res Hi Hacc H; [discriminate|].
  cbn [window_loop] in H.
  destruct (Z.ltb_spec i (Z.of_nat (List.length ids))) as [Hlt|Hge].
  - rewrite window_not_empty in H by lia.
    refine (IH _ _ res _ _ H); [lia|].
    intros k Hk. destruct (Z.lt_ge_cases k i) as [Hki|Hki].
    + apply covered_more. apply Hacc. lia.
    + exists i. split; [lia|]. split; [lia|]. apply in_or_app. right. now left.
  - injection H as <-. intros k Hk. apply Hacc. lia.
Qed.

(** Without overlap the decoded windows, joined, are the decoding of all
    the tokens from the window's start on. *)
Lemma window_loop_partition (ids : list Z) :
  chunkOverlap options = 0 -> 0 < chunkSize options ->
  (forall a b, decode tokenizer (a ++ b)
               = (decode tokenizer a ++ decode tokenizer b)%string) ->
  forall fuel i acc res,
    0 <= i ->
    window_loop options tokenizer fuel ids i acc = Some res ->
    Js.join res
    = (Js.join acc ++ decode tokenizer (skipn (Z.to_nat i) ids))%string.
Proof.
  intros Hov Hsize Hdec.
  assert (Hnil : decode tokenizer [] = "").
  { pose proof (Hdec [] []) as E. cbn [app] in E.
    apply (f_equal String.length) in E. rewrite length_append in E.
    destruct (decode tokenizer []); [reflexivity|cbn in E; lia]. }
  induction fuel as [|fuel IH]; intros i acc res Hi H; [discriminate|].
  cbn [window_loop] in H.
  destruct (Z.ltb_spec i (Z.of_nat (List.length ids))) as [Hlt|Hge].
  - rewrite window_not_empty in H by lia.
    apply IH in H; [|lia]. rewrite H, join_app, join_cons. cbn [Js.join String.concat].
    rewrite append_nil_r, append_assoc. f_equal.
    rewrite Hov, Z.sub_0_r, slice_window by lia.
    rewrite <- Hdec. f_equal.
    rewrite Z2Nat.inj_add by lia. rewrite Nat.add_comm, <- skipn_skipn.
    apply firstn_skipn.
  - injection H as <-. rewrite skipn_all2 by lia. now rewrite Hnil, append_nil_r.
Qed.

End WindowsMore.

(** X2: in the empty-separator case with an overlap from 0 to below
    [chunkSize], every token position of the text lies in a window whose
    decoding is one of the chunks. *)
Theorem terminal_case_covers_every_token
  (options : TextSplitterOptions) (tokenizer : PreTrainedTokenizer)
  (remainingSeparators : list string) (text : string) :
  0 <= chunkOverlap options < chunkSize options ->
  exists chunks,
    _splitTextWithTokenizer options tokenizer ("" :: remainingSeparators) text
    = Some chunks
    /\ (text <> "" ->
        forall k, 0 <= k < tokenCount tokenizer text ->
                  covered options tokenizer (encode tokenizer text) chunks k).
Proof.
  intros Hov.
  assert (Hstep : 0 < window_step options) by (unfold window_step; lia).
  destruct (terminal_case_returns options tokenizer remainingSeparators text Hstep)
    as (chunks & Hrun & Hloop & _).
  exists chunks. split; [exact Hrun|].
  intros Hne k Hk.
  specialize (Hloop Hne (S (List.length (encode tokenizer text))) (Nat.lt_succ_diag_r _)).
  revert k Hk. unfold tokenCount.
  apply (window_loop_covers options tokenizer (encode tokenizer text))
    with (fuel := S (List.length (encode tokenizer text))) (i := 0) (acc := []).
  - unfold window_step. lia.
  - lia.
  - intros k Hk. lia.
  - exact Hloop.
Qed.

Lemma terminal_case_covers_every_token_witness :
  0 <= chunkOverlap chunk_options < chunkSize chunk_options
  /\ exists chunks,
      _splitTextWithTokenizer chunk_options Tokenizers.bert_like [""]
        (Js.repeat_string 500 "!") = Some chunks
      /\ (Js.repeat_string 500 "!" <> "" ->
          forall k, 0 <= k < tokenCount Tokenizers.bert_like (Js.repeat_string 500 "!") ->
                    covered chunk_options Tokenizers.bert_like
                      (encode Tokenizers.bert_like (Js.repeat_string 500 "!")) chunks k).
Proof.
  split; [cbn; lia|].
  apply (terminal_case_covers_every_token chunk_options Tokenizers.bert_like []
           (Js.repeat_string 500 "!")).
  cbn. lia.
Defined.

(** X3: in the empty-separator case without overlap, with a tokenizer whose
    [decode] distributes over concatenation and gives the text back from
    its encoding, the chunks joined are the text. *)
Theorem terminal_case_without_overlap_round_trip
  (options : TextSplitterOptions) (tokenizer : PreTrainedTokenizer)
  (remainingSeparators : list string) (text : string) (chunks : list string) :
  chunkOverlap options = 0 ->
  0 < chunkSize options ->
  (forall a b, decode tokenizer (a ++ b)
               = (decode tokenizer a ++ decode tokenizer b)%string) ->
  decode tokenizer (encode tokenizer text) = text ->
  _splitTextWithTokenizer options tokenizer ("" :: remainingSeparators) text = Some chunks ->
  Js.join chunks = text.
Proof.
  intros Hov Hsize Hdec Hround H.
  cbn [_splitTextWithTokenizer String.eqb] in H.
  destruct text as [|c text']; [cbn in H; now injection H as <-|].
  replace (Js.length (String c text') =? 0) with false in H
    by (symmetry; apply Z.eqb_neq; unfold Js.length; cbn [String.length]; lia).
  apply (window_loop_partition options tokenizer _ Hov Hsize Hdec) in H; [|lia].
  rewrite H. cbn [Js.join String.concat Z.to_nat skipn append]. exact Hround.
Qed.

Lemma uncodes_app (a b : list Z) :
  Tokenizers.uncodes (a ++ b) = (Tokenizers.uncodes a ++ Tokenizers.uncodes b)%string.
Proof. induction a as [|z a IH]; cbn; [reflexivity|now rewrite IH]. Qed.

Lemma uncodes_codes (s : string) : Tokenizers.uncodes (Tokenizers.codes s) = s.
Proof.
  induction s as [|c s IH]; cbn; [reflexivity|].
  now rewrite Nat2Z.id, ascii_nat_embedding, IH.
Qed.

Lemma terminal_case_without_overlap_round_trip_witness :
  chunkOverlap {| chunkSize := 4; chunkOverlap := 0 |} = 0
  /\ 0 < chunkSize {| chunkSize := 4; chunkOverlap := 0 |}
  /\ _splitTextWithTokenizer {| chunkSize := 4; chunkOverlap := 0 |} Tokenizers.char_level
       [""] "abcdefghij" = Some ["abcd"; "efgh"; "ij"]
  /\ Js.join ["abcd"; "efgh"; "ij"] = "abcdefghij".
Proof.
  split; [reflexivity|]. split; [reflexivity|]. split; [vm_compute; reflexivity|].
  apply (terminal_case_without_overlap_round_trip
           {| chunkSize := 4; chunkOverlap := 0 |} Tokenizers.char_level []
           "abcdefghij" ["abcd"; "efgh"; "ij"]).
  - reflexivity.
  - reflexivity.
  - exact uncodes_app.
  - exact (uncodes_codes "abcdefghij").
  - vm_compute. reflexivity.
Defined.

(* ----------------------------------------------------------------- *)
(** *** Where blank chunks can come from *)

Section ChunkOrigin.
Variable options : TextSplitterOptions.
Variable tokenizer : PreTrainedTokenizer.

Lemma window_loop_origin (P : string -> Prop) (ids : list Z) :
  (forall j, P (decode tokenizer (Js.slice ids j (j + chunkSize options)))) ->
  forall fuel i acc res,
    Forall P acc ->
    window_loop options tokenizer fuel ids i acc = Some res ->
    Forall P res.
Proof.
  intros HP. induction fuel as [|fuel IH]; intros i acc res Hacc H; [discriminate|].
  cbn [window_loop] in H.
  destruct (i <? Z.of_nat (List.length ids)); [|now injection H as <-].
  apply IH in H; [exact H|].
  destruct (0 <? Z.of_nat (List.length (Js.slice ids i (i + chunkSize options))));
    [|exact Hacc].
  apply Forall_app. split; [exact Hacc|]. now repeat constructor.
Qed.

Lemma push_not_blank (P : string -> Prop) (chunks : list string) (c : string) :
  (forall s, ~ blank s -> P s) ->
  Forall P chunks -> Forall P (push_if_not_blank chunks c).
Proof.
  intros HP Hc. unfold push_if_not_blank.
  destruct (Z.ltb_spec 0 (Js.length (Js.trim c))) as [Hlt|_]; [|exact Hc].
  apply Forall_app. split; [exact Hc|]. constructor; [|constructor].
  apply HP. unfold blank. intros E. rewrite E in Hlt. cbn in Hlt. lia.
Qed.

Lemma segments_loop_origin (P : string -> Prop)
      (recurse : string -> option (list string)) (separator : string) :
  (forall s, ~ blank s -> P s) ->
  (forall s l, recurse s = Some l -> Forall P l) ->
  forall splits i st st',
    Forall P (finalChunks st) ->
    segments_loop options tokenizer recurse separator i splits st = Some st' ->
    Forall P (finalChunks st').
Proof.
  intros HP Hrec. induction splits as [|split rest IH]; intros i st st' Hfin H.
  - cbn in H. now injection H as <-.
  - cbn [segments_loop] in H. cbv zeta in H.
    repeat match type of H with
           | context [if ?b then _ else _] => destruct b
           | context [match recurse ?s with _ => _ end] =>
               let E := fresh "E" in
               destruct (recurse s) eqn:E; [apply Hrec in E|discriminate]
           end;
      apply IH in H; try exact H; cbn [finalChunks];
      repeat (apply Forall_app; split); try assumption;
      now apply push_not_blank.
Qed.

Lemma splitText_origin (P : string -> Prop) :
  (forall s, ~ blank s -> P s) ->
  (forall s, decoded_window options tokenizer s -> P s) ->
  forall separators text chunks,
    _splitTextWithTokenizer options tokenizer separators text = Some chunks ->
    Forall P chunks.
Proof.
  intros HP Hw.
  assert (Hseg : forall recurse separator splits chunks,
             (forall s l, recurse s = Some l -> Forall P l) ->
             split_segments options tokenizer recurse separator splits = Some chunks ->
             Forall P chunks).
  { intros recurse separator splits chunks Hrec H. unfold split_segments in H.
    destruct (segments_loop options tokenizer recurse separator 0 splits _) as [st|] eqn:E;
      [|discriminate].
    injection H as <-. apply push_not_blank; [exact HP|].
    revert E. apply segments_loop_origin; [exact HP|exact Hrec|constructor]. }
  induction separators as [|separator rest IH]; intros text chunks H.
  - cbn [_splitTextWithTokenizer] in H. revert H. apply Hseg. discriminate.
  - cbn [_splitTextWithTokenizer] in H.
    destruct (separator =? "")%string.
    + destruct (Js.length text =? 0); [injection H as <-; constructor|].
      revert H. apply window_loop_origin; [|constructor].
      intros j. apply Hw. now exists text, j.
    + revert H. apply Hseg. intros s l. apply IH.
Qed.

End ChunkOrigin.

(** X4: whatever the options, the tokenizer and the separators: a chunk the
    splitter returns is not blank, unless it is the decoding of a token
    window of the empty-separator case. *)
Theorem blank_chunks_are_decoded_windows
  (options : TextSplitterOptions) (tokenizer : PreTrainedTokenizer)
  (separators : list string) (text : string) (chunks : list string) :
  _splitTextWithTokenizer options tokenizer separators text = Some chunks ->
  Forall (fun c => blank c -> decoded_window options tokenizer c) chunks.
Proof.
  apply splitText_origin.
  - intros s Hs Hb. contradiction.
  - intros s Hs _. exact Hs.
Qed.

Lemma blank_chunks_are_decoded_windows_witness :
  exists chunks,
    _splitTextWithTokenizer chunk_options Tokenizers.bert_like default_separators
      (Js.repeat_string 799 "!") = Some chunks
    /\ Forall (fun c => blank c -> decoded_window chunk_options Tokenizers.bert_like c)
              chunks.
Proof.
  eexists. split; [vm_compute; reflexivity|].
  apply (blank_chunks_are_decoded_windows chunk_options Tokenizers.bert_like
           default_separators (Js.repeat_string 799 "!")).
  vm_compute. reflexivity.
Defined.

(** X5: [chunkText] always settles: once the service is initialized it returns
    a list of chunks and leaves the world as it is, the empty list for the
    empty content; before that it throws an internal error. *)
Theorem chunkText_always_settles
  (tokenizer : PreTrainedTokenizer) (content : string) (w : World) :
  (embedding_isInitialized w = true ->
   exists chunks, chunkText tokenizer content w = (Return chunks, w)
                  /\ (content = "" -> chunks = []))
  /\ (embedding_isInitialized w = false ->
      exists msg, chunkText tokenizer content w = (Throw (McpError InternalError msg), w)).
Proof.
  split; intros Hinit.
  - unfold chunkText. rewrite Hinit. cbn [negb].
    destruct (chunk_total tokenizer content) as [chunks Hc]. rewrite Hc.
    exists chunks. split; [reflexivity|].
    intros ->. rewrite chunk_empty in Hc. now injection Hc as <-.
  - unfold chunkText. rewrite Hinit. cbn [negb]. eexists. reflexivity.
Qed.

Lemma chunkText_always_settles_witness :
  (exists chunks,
      chunkText Tokenizers.bert_like "" (Sample.world_with [] [])
      = (Return chunks, Sample.world_with [] [])
      /\ chunks = [])
  /\ exists chunks,
      chunkText Tokenizers.bert_like (Js.repeat_string 1000 "!") (Sample.world_with [] [])
      = (Return chunks, Sample.world_with [] []).
Proof.
  split.
  - destruct (proj1 (chunkText_always_settles Tokenizers.bert_like ""
                       (Sample.world_with [] [])) eq_refl) as (chunks & Hrun & Hempty).
    exists chunks. split; [exact Hrun|now apply Hempty].
  - destruct (proj1 (chunkText_always_settles Tokenizers.bert_like
                       (Js.repeat_string 1000 "!") (Sample.world_with [] [])) eq_refl)
      as (chunks & Hrun & _).
    now exists chunks.
Defined.

(* ================================================================= *)
(** ** Writing a file and reading it back *)

Section Inserts.
Context {A : Type}.

Lemma landed_between_trans (w1 w2 w3 : World) (l1 l2 : list ChunkRow) :
  landed_between w1 w2 l1 -> landed_between w2 w3 l2 -> landed_between w1 w3 (l1 ++ l2).
Proof.
  intros (Hc1 & Hp1 & Hd1 & He1 & Hk1 & Hu1 & Ht1) (Hc2 & Hp2 & Hd2 & He2 & Hk2 & Hu2 & Ht2).
  repeat split; try congruence. rewrite Hc2, Hc1. now rewrite app_assoc.
Qed.

Lemma answered_step (n : nat) (a b c : list (option string)) :
  answered 1 a b -> answered n b c -> answered (S n) a c.
Proof.
  intros [Hb H1] [Hc Hn]. destruct a as [|x a']; cbn in Hb; subst b.
  - split; [|constructor]. rewrite Hc. now destruct n.
  - split; [exact Hc|]. cbn [firstn] in *. inversion H1; subst. constructor; auto.
Qed.

(** The answer to one of the pending inserts arrives: its row is added,
    or the request has failed and the insert throws. *)
Lemma settle_one_adds (promises : list (Promise A)) (rows : list ChunkRow) :
  Forall2 add_promise promises rows ->
  forall k w,
    pending_count promises <> O ->
    match settle_one k promises w with
    | (Return promises', w') =>
        exists row,
          Forall2 add_promise promises' rows
          /\ Permutation (pending_rows promises rows) (row :: pending_rows promises' rows)
          /\ S (pending_count promises') = pending_count promises
          /\ landed_between w w' [row]
          /\ answered 1 (chroma_outages w) (chroma_outages w')
          /\ arrivals w' = arrivals w
    | (Throw e, w') =>
        exists m,
          e = insert_failed m
          /\ chroma_outages w = Some m :: chroma_outages w'
          /\ landed_between w w' []
          /\ arrivals w' = arrivals w
    | (Hang, _) => False
    end.
Proof.
  induction 1 as [|p row0 ps rows Hp Hrest IH]; intros k w Hc; [now cbn in Hc|].
  destruct p as [rest|a|e]; cbn [settle_one pending_count pending_rows] in *.
  - assert (Hhere : match (a <- rest ;; ret (Fulfilled a :: ps)) w with
                    | (Return promises', w') =>
                        exists row,
                          Forall2 add_promise promises' (row0 :: rows)
                          /\ Permutation (row0 :: pending_rows ps rows)
                                         (row :: pending_rows promises' (row0 :: rows))
                          /\ S (pending_count promises') = S (pending_count ps)
                          /\ landed_between w w' [row]
                          /\ answered 1 (chroma_outages w) (chroma_outages w')
                          /\ arrivals w' = arrivals w
                    | (Throw e, w') =>
                        exists m,
                          e = insert_failed m
                          /\ chroma_outages w = Some m :: chroma_outages w'
                          /\ landed_between w w' []
                          /\ arrivals w' = arrivals w
                    | (Hang, _) => False
                    end).
    { destruct (Hp w) as [a Ha]. unfold bind, ret. rewrite Ha.
      destruct (chroma_outages w) as [|[m|] o] eqn:Eo.
      - exists row0. split; [constructor; [exact I|exact Hrest]|].
        split; [reflexivity|]. split; [reflexivity|].
        split; [repeat split|]. cbn. rewrite Eo. repeat split. constructor.
      - exists m. split; [reflexivity|]. split; [reflexivity|].
        split; [|reflexivity]. repeat split. cbn. now rewrite app_nil_r.
      - exists row0. split; [constructor; [exact I|exact Hrest]|].
        split; [reflexivity|]. split; [reflexivity|].
        split; [repeat split|]. cbn. repeat split. repeat constructor. }
    destruct k as [|k']; [exact Hhere|].
    destruct (pending_count ps) as [|n] eqn:En; [exact Hhere|]. clear Hhere.
    specialize (IH k' w). unfold bind at 1.
    destruct (settle_one k' ps w) as [[ps'|e|] w1].
    + destruct IH as (row & Hf & Hperm & Hn & Hl & Ha & Harr); [discriminate|].
      exists row. cbn [pending_rows pending_count].
      split; [constructor; [exact Hp|exact Hf]|].
      split; [rewrite Hperm; apply perm_swap|].
      split; [congruence|]. repeat split; try apply Hl; try apply Ha; exact Harr.
    + apply IH. discriminate.
    + apply IH. discriminate.
  - specialize (IH k w Hc). unfold bind at 1.
    destruct (settle_one k ps w) as [[ps'|e|] w1].
    + destruct IH as (row & Hf & Hperm & Hn & Hl & Ha & Harr).
      exists row. cbn [pending_rows pending_count].
      split; [constructor; [exact I|exact Hf]|].
      split; [exact Hperm|]. split; [exact Hn|].
      repeat split; try apply Hl; try apply Ha; exact Harr.
    + exact IH.
    + exact IH.
  - destruct Hp.
Qed.

(** The inserts in flight settle in any order of the answers: all rows
    land, in the order of the answers, or an insert throws with some of
    the rows landed and its own row not among them. *)
Lemma settle_all_adds (rows : list ChunkRow) :
  forall fuel (promises : list (Promise A)) w,
    Forall2 add_promise promises rows ->
    (pending_count promises <= fuel)%nat ->
    match settle_all fuel promises w with
    | (Return _, w') =>
        exists landed,
          Permutation landed (pending_rows promises rows)
          /\ landed_between w w' landed
          /\ answered (List.length landed) (chroma_outages w) (chroma_outages w')
    | (Throw e, w') =>
        exists landed m left,
          e = insert_failed m
          /\ Permutation (landed ++ left) (pending_rows promises rows)
          /\ left <> []
          /\ landed_between w w' landed
          /\ chroma_outages w
             = repeat None (List.length landed) ++ Some m :: chroma_outages w'
    | (Hang, _) => False
    end.
Proof.
  assert (Hnone : forall (promises : list (Promise A)) rs,
             pending_count promises = O -> pending_rows promises rs = []).
  { induction promises as [|p ps IHp]; intros rs Hc; [reflexivity|].
    destruct p; cbn in *; [discriminate| |]; destruct rs; auto. }
  assert (Hdone : forall (promises : list (Promise A)) w,
             pending_count promises = O ->
             exists landed,
               Permutation landed (pending_rows promises rows)
               /\ landed_between w w landed
               /\ answered (List.length landed) (chroma_outages w) (chroma_outages w)).
  { intros promises w Hc. exists []. rewrite (Hnone _ _ Hc).
    split; [constructor|]. split.
    - repeat split. now rewrite app_nil_r.
    - split; [reflexivity|constructor]. }
  induction fuel as [|fuel IH]; intros promises w Hp Hc.
  - cbn. apply Hdone. lia.
  - cbn [settle_all]. destruct (pending_count promises) as [|n] eqn:En.
    + cbn. apply Hdone. exact En.
    + unfold bind at 1, next_arrival. unfold bind at 1.
      pose proof (settle_one_adds promises rows Hp (hd O (arrivals w))
                    (with_arrivals w (tl (arrivals w)))) as Hone.
      destruct (settle_one (hd O (arrivals w)) promises
                           (with_arrivals w (tl (arrivals w)))) as [[ps'|e|] w1].
      * destruct Hone as (row & Hf & Hperm & Hn & Hl & Ha & Harr);
          [rewrite En; discriminate|].
        specialize (IH ps' w1 Hf). rewrite En in Hn.
        assert (Hl' : landed_between w w1 [row]).
        { destruct Hl as (H1 & H2 & H3 & H4 & H5 & H6 & H7). repeat split; assumption. }
        cbn [chroma_outages with_arrivals] in Ha.
        destruct (settle_all fuel ps' w1) as [[ps''|e|] w2].
        -- destruct IH as (landed & Hperm' & Hl2 & Ha2); [lia|].
           exists (row :: landed). split; [rewrite Hperm; now constructor|].
           split; [apply (landed_between_trans w w1 w2 [row] landed Hl' Hl2)|].
           cbn [List.length]. eapply answered_step; eassumption.
        -- destruct IH as (landed & m & left & He & Hperm' & Hleft & Hl2 & Hout); [lia|].
           exists (row :: landed), m, left. split; [exact He|].
           split; [cbn [app]; rewrite Hperm; now constructor|].
           split; [exact Hleft|].
           split; [apply (landed_between_trans w w1 w2 [row] landed Hl' Hl2)|].
           destruct Ha as [Hskip Hfirst]. rewrite Hout in Hskip.
           destruct (chroma_outages w) as [|x o].
           ++ cbn in Hskip. destruct (List.length landed); discriminate.
           ++ cbn in Hskip, Hfirst. inversion Hfirst as [|? ? Hx _]; subst x.
              cbn [List.length repeat app]. now rewrite <- Hskip.
        -- apply IH. lia.
      * destruct Hone as (m & He & Hout & Hl & Harr); [rewrite En; discriminate|].
        exists [], m, (pending_rows promises rows). split; [exact He|].
        split; [reflexivity|]. split.
        { intros Hnil. clear - Hp En Hnil.
          revert rows Hp n En Hnil. induction promises as [|p ps IHp]; intros rs Hp n En Hnil;
            [discriminate|].
          inversion Hp as [|? r ? rs' Hpr Hrest]; subst.
          destruct p; cbn in *; [discriminate| |destruct Hpr].
          eapply IHp; eassumption. }
        split.
        { destruct Hl as (H1 & H2 & H3 & H4 & H5 & H6 & H7). repeat split; assumption. }
        exact Hout.
      * apply Hone. rewrite En. discriminate.
Qed.

End Inserts.

Section WriteAndRead.
Variable tokenizer : PreTrainedTokenizer.
Variable extractor : string -> option Embedding.
Variable uuidv4 : nat -> string.

(** When every chunk can be embedded the batch returns, and the world has
    moved by the calls of the pipeline only. *)
Lemma embeddings_batch_returns (chunks : list string) :
  (forall c, In c chunks -> extractor c <> None) ->
  forall w,
    embedding_isInitialized w = true ->
    exists embeddings l,
      Promise_all (map (generateEmbedding extractor) chunks) w
      = (Return embeddings,
         with_arrivals (with_trace w (trace w ++ map EvExtractor chunks)) l).
Proof.
  intros Hall w Hinit.
  destruct (embeddings_batch_run extractor chunks w Hinit) as (l & Hw & Hres).
  destruct (Promise_all (map (generateEmbedding extractor) chunks) w) as [[es|e|] w2];
    cbn [fst snd] in Hw, Hres.
  - exists es, l. now rewrite Hw.
  - exfalso. apply in_map_iff in Hres as (c & Hc & Hin).
    unfold embedding_outcome in Hc. destruct (extractor c) eqn:Ec; [discriminate|].
    exact (Hall c Hin Ec).
  - destruct Hres.
Qed.

(** A call of [insertMemoryBankChunk] up to its [await]: the id and the
    time are taken and the request is sent; what is left adds the row. *)
Lemma insertMemoryBankChunk_start (projectId fileName : string) (i : Z) (c : string)
      (e : Embedding) (w : World) :
  db_isInitialized w = true ->
  exists rest,
    insertMemoryBankChunk uuidv4 projectId fileName i c e w
    = (Return rest,
       with_trace (with_uuid_count w (S (uuid_count w)))
                  (trace w ++ [EvChunksAdd (uuidv4 (uuid_count w))]))
    /\ adds {| row_id := uuidv4 (uuid_count w);
               row_embedding := Some e;
               row_metadata := Some {| chunk_id := uuidv4 (uuid_count w);
                                       project_id := projectId;
                                       file_name := fileName;
                                       chunk_index := i;
                                       created_at := clock w;
                                       updated_at := clock w |};
               row_document := Some c |} rest.
Proof.
  intros Hdb.
  unfold insertMemoryBankChunk, ensureInitialized, next_uuid, now, Chroma.chunks_add.
  unfold_run. rewrite Hdb. unfold_run.
  eexists. split; [reflexivity|].
  intros w'. unfold try_catch, bind, ret, throw, insert_failed.
  eexists. destruct (chroma_outages w') as [|[m|] o]; reflexivity.
Qed.

(** The inserts of an update up to their [await]s: the requests are sent
    in the order of the chunks, and none has been answered yet. *)
Lemma inserts_start (projectId fileName : string) (embeddings : list Embedding)
      (chunks : list string) :
  forall i w,
    db_isInitialized w = true ->
    exists promises w1,
      start_all
        (mapi_from i (fun chunkText_ i =>
                        insertMemoryBankChunk uuidv4 projectId fileName i chunkText_
                          (nth (Z.to_nat i) embeddings []))
                   chunks) w
      = (Return promises, w1)
      /\ Forall2 add_promise promises
           (inserted_rows uuidv4 projectId fileName (clock w) embeddings
              (uuid_count w) i chunks)
      /\ first_rejected promises = None
      /\ pending_count promises = List.length chunks
      /\ pending_rows promises
           (inserted_rows uuidv4 projectId fileName (clock w) embeddings
              (uuid_count w) i chunks)
         = inserted_rows uuidv4 projectId fileName (clock w) embeddings
             (uuid_count w) i chunks
      /\ chunksCollection w1 = chunksCollection w
      /\ projectsCollection w1 = projectsCollection w
      /\ db_isInitialized w1 = true
      /\ embedding_isInitialized w1 = embedding_isInitialized w
      /\ chroma_outages w1 = chroma_outages w
      /\ arrivals w1 = arrivals w.
Proof.
  induction chunks as [|c cs IH]; intros i w Hdb.
  - exists [], w. cbn. repeat split; try assumption. constructor.
  - destruct (insertMemoryBankChunk_start projectId fileName i c
                (nth (Z.to_nat i) embeddings []) w Hdb) as (rest & Hstart & Hadds).
    set (w0 := with_trace (with_uuid_count w (S (uuid_count w)))
                          (trace w ++ [EvChunksAdd (uuidv4 (uuid_count w))])) in *.
    destruct (IH (i + 1) w0 Hdb)
      as (ps & w1 & Hps & Hall & Hrej & Hcount & Hpend & Hc & Hp & Hd & He & Ho & Ha).
    exists (Pending rest :: ps), w1.
    cbn [mapi_from start_all inserted_rows]. unfold bind at 1. rewrite Hstart.
    unfold bind at 1. rewrite Hps.
    split; [reflexivity|].
    split; [constructor; [exact Hadds|exact Hall]|].
    split; [exact Hrej|].
    split; [cbn; now rewrite Hcount|].
    split; [cbn [pending_rows]; f_equal; exact Hpend|].
    repeat split; assumption.
Qed.

(** The inserts of an update, from the first request to the last answer
    that is waited for. *)
Lemma inserts_run (projectId fileName : string) (embeddings : list Embedding)
      (chunks : list string) (i : Z) (w : World) :
  db_isInitialized w = true ->
  match Promise_all
          (mapi_from i (fun chunkText_ i =>
                          insertMemoryBankChunk uuidv4 projectId fileName i chunkText_
                            (nth (Z.to_nat i) embeddings []))
                     chunks) w with
  | (Return _, w') =>
      exists landed,
        Permutation landed
          (inserted_rows uuidv4 projectId fileName (clock w) embeddings
             (uuid_count w) i chunks)
        /\ chunksCollection w' = chunksCollection w ++ landed
        /\ projectsCollection w' = projectsCollection w
        /\ db_isInitialized w' = true
        /\ embedding_isInitialized w' = embedding_isInitialized w
        /\ answered (List.length landed) (chroma_outages w) (chroma_outages w')
  | (Throw e, w') =>
      exists landed m left,
        e = insert_failed m
        /\ Permutation (landed ++ left)
             (inserted_rows uuidv4 projectId fileName (clock w) embeddings
                (uuid_count w) i chunks)
        /\ left <> []
        /\ chunksCollection w' = chunksCollection w ++ landed
        /\ projectsCollection w' = projectsCollection w
        /\ chroma_outages w = repeat None (List.length landed) ++ Some m :: chroma_outages w'
  | (Hang, _) => False
  end.
Proof.
  intros Hdb.
  destruct (inserts_start projectId fileName embeddings chunks i w Hdb)
    as (ps & w1 & Hps & Hall & Hrej & Hcount & Hpend & Hc & Hp & Hd & He & Ho & Ha).
  unfold Promise_all. unfold bind at 1. rewrite Hps, Hrej.
  pose proof (settle_all_adds _ (List.length ps) ps w1 Hall) as Hsettle.
  unfold bind, ret.
  destruct (settle_all (List.length ps) ps w1) as [[ps'|e|] w2].
  - destruct Hsettle as (landed & Hperm & Hl & Hans).
    { rewrite Hcount. apply Forall2_length in Hall. rewrite Hall.
      clear. revert i. generalize (uuid_count w).
      induction chunks as [|c cs IH]; intros n i; cbn; [lia|]. specialize (IH (S n) (i + 1)).
      lia. }
    destruct Hl as (H1 & H2 & H3 & H4 & _).
    exists landed. rewrite Hpend in Hperm. split; [exact Hperm|].
    split; [congruence|]. split; [congruence|]. split; [congruence|].
    split; [congruence|]. rewrite <- Ho. exact Hans.
  - destruct Hsettle as (landed & m & left & Herr & Hperm & Hleft & Hl & Hout).
    { rewrite Hcount. apply Forall2_length in Hall. rewrite Hall.
      clear. revert i. generalize (uuid_count w).
      induction chunks as [|c cs IH]; intros n i; cbn; [lia|]. specialize (IH (S n) (i + 1)).
      lia. }
    destruct Hl as (H1 & H2 & _).
    exists landed, m, left. rewrite Hpend in Hperm.
    split; [exact Herr|]. split; [exact Hperm|]. split; [exact Hleft|].
    split; [congruence|]. split; [congruence|]. rewrite <- Ho. exact Hout.
  - apply Hsettle.
    rewrite Hcount. apply Forall2_length in Hall. rewrite Hall.
    clear. revert i. generalize (uuid_count w).
    induction chunks as [|c cs IH]; intros n i; cbn; [lia|]. specialize (IH (S n) (i + 1)).
    lia.
Qed.

(** The rows inserted for a file all belong to it, carry the chunks in
    order and count their indices up from [i]. *)
Lemma inserted_rows_match (projectId fileName now_ : string) (embeddings : list Embedding)
      (chunks : list string) :
  forall n i,
    List.filter (Chroma.matches [project_id_eq projectId; file_name_eq fileName])
                (inserted_rows uuidv4 projectId fileName now_ embeddings n i chunks)
    = inserted_rows uuidv4 projectId fileName now_ embeddings n i chunks.
Proof.
  induction chunks as [|c cs IH]; intros n i; [reflexivity|].
  cbn [inserted_rows List.filter]. unfold Chroma.matches at 1.
  cbn [forallb row_metadata Chroma.holds project_id file_name].
  rewrite !String.eqb_refl. cbn [andb]. now rewrite IH.
Qed.

Lemma inserted_rows_chunks (projectId fileName now_ : string) (embeddings : list Embedding)
      (chunks : list string) :
  forall n i,
    map index_and_text
        (flat_map chunk_of_row
           (inserted_rows uuidv4 projectId fileName now_ embeddings n i chunks))
    = mapi_from i (fun c i => (i, c)) chunks.
Proof.
  induction chunks as [|c cs IH]; intros n i; [reflexivity|].
  cbn [inserted_rows flat_map mapi_from]. cbn [chunk_of_row row_metadata row_document app map].
  now rewrite IH.
Qed.

(** The chunks of the inserted rows carry indices that go up strictly. *)
Lemma inserted_rows_ascending (projectId fileName now_ : string) (embeddings : list Embedding)
      (chunks : list string) :
  forall n i,
    StronglySorted (fun a b => MemoryBankChunk.chunkIndex a < MemoryBankChunk.chunkIndex b)
      (flat_map chunk_of_row
         (inserted_rows uuidv4 projectId fileName now_ embeddings n i chunks))
    /\ Forall (fun a => i <= MemoryBankChunk.chunkIndex a)
         (flat_map chunk_of_row
            (inserted_rows uuidv4 projectId fileName now_ embeddings n i chunks)).
Proof.
  induction chunks as [|c cs IH]; intros n i; [split; constructor|].
  cbn [inserted_rows flat_map]. cbn [chunk_of_row row_metadata row_document app].
  destruct (IH (S n) (i + 1)) as [Hs Hf]. split.
  - constructor; [exact Hs|]. revert Hf. apply Forall_impl. intros a. cbn. lia.
  - constructor; [cbn; lia|]. revert Hf. apply Forall_impl. intros a. lia.
Qed.

Lemma texts_of_pairs (l : list MemoryBankChunk.t) (chunks : list string) (i : Z) :
  map index_and_text l = mapi_from i (fun c i => (i, c)) chunks ->
  map MemoryBankChunk.chunkText l = chunks.
Proof.
  revert chunks i. induction l as [|x l IH]; intros [|c cs] i H; try discriminate;
    [reflexivity|].
  cbn in H. injection H as _ Hc Hrest. cbn. rewrite Hc. f_equal. exact (IH cs (i + 1) Hrest).
Qed.

End WriteAndRead.

(** A list in ascending order of the index that holds the chunks of a list
    with strictly ascending indices is that list. *)
Lemma sorted_permutation_unique (l1 l2 : list MemoryBankChunk.t) :
  StronglySorted chunkIndex_le l1 ->
  StronglySorted (fun a b => MemoryBankChunk.chunkIndex a < MemoryBankChunk.chunkIndex b) l2 ->
  Permutation l1 l2 ->
  l1 = l2.
Proof.
  revert l2. induction l1 as [|x l1 IH]; intros l2 H1 H2 Hperm.
  - apply Permutation_nil in Hperm. now subst.
  - destruct l2 as [|y l2]; [apply Permutation_sym, Permutation_nil in Hperm; discriminate|].
    inversion H1 as [|? ? Hs1 Hf1]; subst. inversion H2 as [|? ? Hs2 Hf2]; subst.
    assert (Hxy : x = y).
    { assert (Hx : In x (y :: l2)) by (apply (Permutation_in _ Hperm); now left).
      assert (Hy : In y (x :: l1))
        by (apply (Permutation_in _ (Permutation_sym Hperm)); now left).
      destruct Hx as [Hx|Hx]; [now symmetry|].
      destruct Hy as [Hy|Hy]; [exact Hy|].
      rewrite Forall_forall in Hf1, Hf2.
      specialize (Hf1 y Hy). specialize (Hf2 x Hx). unfold chunkIndex_le in Hf1. lia. }
    subst y. f_equal. apply IH; try assumption.
    now apply Permutation_cons_inv in Hperm.
Qed.

Lemma projectExists_true_known (projectId : string) (w : World) :
  fst (projectExists projectId w) = Return true ->
  known_project projectId (projectsCollection w).
Proof.
  unfold projectExists, known_project.
  destruct (String.eqb_spec projectId "") as [->|Hne]; [discriminate|].
  unfold findProjectById, ensureInitialized, Chroma.projects_get, Chroma.limited.
  change (Z.to_nat 1) with 1%nat.
  unfold_run.
  destruct (db_isInitialized w); unfold_run; [|discriminate].
  destruct (chroma_outages w) as [|[|] o]; unfold_run; try discriminate;
    (destruct (List.filter _ (projectsCollection w)) as [|row rest];
     cbn [firstn]; unfold_run; [discriminate|]);
    (destruct (project_row_metadata row) as [meta|] eqn:Em; unfold_run; [|discriminate]);
    intros _; (split; [exact Hne|]); exists row, rest, meta; split; reflexivity || exact Em.
Qed.

Lemma known_projectExists (projectId : string) (w : World) :
  known_project projectId (projectsCollection w) ->
  db_isInitialized w = true ->
  chroma_outages w = [] ->
  projectExists projectId w
  = (Return true, with_trace w (trace w ++ [EvProjectsGet projectId])).
Proof.
  intros (Hne & row & rest & meta & Hrows & Hmeta) Hdb Hout.
  unfold projectExists.
  destruct (String.eqb_spec projectId "") as [E|_]; [congruence|].
  unfold findProjectById, ensureInitialized, Chroma.projects_get, Chroma.limited.
  change (Z.to_nat 1) with 1%nat.
  run_with Hdb Hout. rewrite Hrows. cbn [firstn].
  rewrite Hmeta. reflexivity.
Qed.

Lemma updateLastModified_keeps_project (toISOString : string -> option string)
      (projectId : string) (w : World) :
  projectId <> "" ->
  created_at_parses toISOString projectId (projectsCollection w) ->
  db_isInitialized w = true ->
  chroma_outages w = [] ->
  exists w',
    updateLastModified toISOString projectId w = (Return tt, w')
    /\ chunksCollection w' = chunksCollection w
    /\ known_project projectId (projectsCollection w')
    /\ db_isInitialized w' = true
    /\ chroma_outages w' = [].
Proof.
  intros Hne (row & rest & meta & iso & Hrows & Hmeta & Hiso) Hdb Hout.
  unfold updateLastModified.
  destruct (String.eqb_spec projectId "") as [E|_]; [congruence|].
  unfold updateProjectLastModified, findProjectById, ensureInitialized, now,
    Chroma.projects_get, Chroma.projects_update.
  run_with Hdb Hout. rewrite Hrows.
  change (Chroma.limited (Some 1) (row :: rest)) with [row]. cbv beta iota.
  rewrite Hmeta. run_with Hdb Hout.
  cbn [Project.createdAt]. rewrite Hiso. run_with Hdb Hout.
  eexists. split; [reflexivity|]. cbn. repeat split; try assumption.
  set (upd := fun r : ProjectRow => if (project_row_id r =? projectId)%string then _ else r).
  assert (Hf : forall l,
             List.filter (fun r => (project_row_id r =? projectId)%string) (map upd l)
             = map upd (List.filter (fun r => (project_row_id r =? projectId)%string) l)).
  { induction l as [|r l IHl]; [reflexivity|]. cbn [map List.filter].
    unfold upd at 1. destruct (project_row_id r =? projectId)%string eqn:Er.
    - cbn [project_row_id]. rewrite Er. cbn [map]. now rewrite IHl.
    - rewrite Er. exact IHl. }
  exists (upd row), (map upd rest). eexists.
  split; [rewrite Hf, Hrows; reflexivity|].
  unfold upd.
  assert (Hid : (project_row_id row =? projectId)%string = true).
  { assert (Hin : In row (row :: rest)) by now left.
    rewrite <- Hrows in Hin. now apply filter_In in Hin. }
  rewrite Hid. reflexivity.
Qed.

Lemma getFileContent_run (projectId fileName : string) (w : World) :
  known_project projectId (projectsCollection w) ->
  db_isInitialized w = true ->
  chroma_outages w = [] ->
  fst (getFileContent projectId fileName w)
  = match Js.sort by_chunkIndex (stored_chunks projectId fileName w) with
    | [] => Throw (no_content_found projectId fileName)
    | chunks => Return (Js.join (map MemoryBankChunk.chunkText chunks))
    end.
Proof.
  intros Hk Hdb Hout.
  rewrite (getFileContent_after_lookup projectId fileName w _
             (known_projectExists projectId w Hk Hdb Hout)).
  unfold getMemoryBankChunksByFile, ensureInitialized, Chroma.chunks_get, Chroma.limited,
    stored_chunks.
  run_with Hdb Hout.
  destruct (List.filter _ (chunksCollection w)) as [|r rs]; unfold_run; [reflexivity|].
  destruct (Js.sort by_chunkIndex _); reflexivity.
Qed.

(** The run of an update whose chunks are all embedded: the collection
    loses the old rows of the file and gains one row per chunk, in the
    order in which the store answered the inserts. *)
Lemma update_run
  (tokenizer : PreTrainedTokenizer) (extractor : string -> option Embedding)
  (uuidv4 : nat -> string) (toISOString : string -> option string)
  (projectId fileName content : string)
  (chunks : list string) (w : World) :
  fst (projectExists projectId w) = Return true ->
  created_at_parses toISOString projectId (projectsCollection w) ->
  chroma_outages w = [] ->
  embedding_isInitialized w = true ->
  fileName <> "" ->
  chunk tokenizer content = Some chunks ->
  chunks <> [] ->
  (forall c, In c chunks -> extractor c <> None) ->
  exists w' now_ es n landed,
    updateFileContent tokenizer extractor uuidv4 toISOString projectId fileName content w
    = (Return tt, w')
    /\ chunksCollection w'
       = without_ids (file_ids projectId fileName (chunksCollection w)) (chunksCollection w)
         ++ landed
    /\ Permutation landed (inserted_rows uuidv4 projectId fileName now_ es n 0 chunks)
    /\ known_project projectId (projectsCollection w')
    /\ db_isInitialized w' = true
    /\ chroma_outages w' = [].
Proof.
  intros Hex Hdate Hout Hinit Hf Hchunk Hne Hall.
  assert (Hc : content <> "").
  { intros ->. rewrite chunk_empty in Hchunk. now injection Hchunk as <-. }
  destruct (projectExists_true_run projectId w Hex Hout) as (Hpid & Hdb & Hrun).
  set (w1 := with_trace w (trace w ++ [EvProjectsGet projectId])) in *.
  destruct (embeddings_batch_returns extractor chunks Hall w1 Hinit) as (es & l & Hemb).
  set (w2 := with_arrivals (with_trace w1 (trace w1 ++ map EvExtractor chunks)) l) in *.
  destruct (deleteMemoryBankContentByFile_run projectId fileName w2 Hdb Hout)
    as (w3 & Hdel & Hchunks3 & Hproj3 & Hdb3 & Hout3).
  change (chunksCollection w2) with (chunksCollection w) in Hchunks3.
  pose proof (inserts_run uuidv4 projectId fileName es chunks 0 w3 Hdb3) as Hins.
  destruct (Promise_all _ w3) as [[rs|e|] w4] eqn:Eins.
  - destruct Hins as (landed & Hperm & Hchunks4 & Hproj4 & Hdb4 & _ & Hans).
    assert (Hout4 : chroma_outages w4 = []).
    { destruct Hans as [-> _]. rewrite Hout3. apply skipn_nil. }
    assert (Hd4 : created_at_parses toISOString projectId (projectsCollection w4))
      by (rewrite Hproj4, Hproj3; exact Hdate).
    destruct (updateLastModified_keeps_project toISOString projectId w4 Hpid Hd4 Hdb4 Hout4)
      as (w5 & Hupd & Hchunks5 & Hk5 & Hdb5 & Hout5).
    exists w5, (clock w3), es, (uuid_count w3), landed.
    split; [|split; [|split; [exact Hperm|split; [exact Hk5|split; [exact Hdb5|exact Hout5]]]]].
    + unfold updateFileContent. unfold bind at 1. rewrite Hrun. cbn [negb].
      destruct (String.eqb_spec fileName "") as [E|_]; [congruence|].
      destruct (String.eqb_spec content "") as [E|_]; [congruence|].
      cbn [orb].
      unfold try_catch at 1. unfold bind at 1. rewrite chunkText_run.
      replace (embedding_isInitialized w1) with true by (symmetry; exact Hinit).
      rewrite Hchunk.
      destruct chunks as [|c0 cs]; [congruence|].
      unfold bind at 1. unfold try_catch at 1. rewrite Hemb.
      unfold bind at 1. rewrite Hdel.
      unfold bind at 1. unfold mapi. rewrite Eins.
      rewrite Hupd. reflexivity.
    + rewrite Hchunks5, Hchunks4, Hchunks3. reflexivity.
  - exfalso. destruct Hins as (landed & m & left & _ & _ & _ & _ & _ & Hbad).
    rewrite Hout3 in Hbad. destruct (List.length landed); discriminate.
  - destruct Hins.
Qed.

(** After such an update the stored chunks of the file are the chunks of
    the landed rows. *)
Lemma stored_after_update (uuidv4 : nat -> string) (projectId fileName now_ : string)
      (es : list Embedding) (n : nat) (chunks : list string)
      (rows landed : list ChunkRow) (w' : World) :
  chunksCollection w' = without_ids (file_ids projectId fileName rows) rows ++ landed ->
  Permutation landed (inserted_rows uuidv4 projectId fileName now_ es n 0 chunks) ->
  stored_chunks projectId fileName w' = flat_map chunk_of_row landed
  /\ Permutation (flat_map chunk_of_row landed)
       (flat_map chunk_of_row (inserted_rows uuidv4 projectId fileName now_ es n 0 chunks)).
Proof.
  intros Hcoll Hperm. split.
  - unfold stored_chunks. rewrite Hcoll, filter_app, without_file_ids_none_left.
    cbn [app]. f_equal.
    apply forallb_filter_id. apply forallb_forall. intros r Hr.
    apply (Permutation_in _ Hperm) in Hr.
    rewrite <- (inserted_rows_match uuidv4 projectId fileName now_ es chunks n 0) in Hr.
    now apply filter_In in Hr.
  - apply Permutation_flat_map. exact Hperm.
Qed.

(** The same run, and the read that follows it. *)
Lemma update_and_read_run
  (tokenizer : PreTrainedTokenizer) (extractor : string -> option Embedding)
  (uuidv4 : nat -> string) (toISOString : string -> option string)
  (projectId fileName content : string)
  (chunks : list string) (w : World) :
  fst (projectExists projectId w) = Return true ->
  created_at_parses toISOString projectId (projectsCollection w) ->
  chroma_outages w = [] ->
  embedding_isInitialized w = true ->
  fileName <> "" ->
  chunk tokenizer content = Some chunks ->
  chunks <> [] ->
  (forall c, In c chunks -> extractor c <> None) ->
  exists w',
    updateFileContent tokenizer extractor uuidv4 toISOString projectId fileName content w
    = (Return tt, w')
    /\ Permutation (stored_texts projectId fileName (chunksCollection w'))
                   (mapi (fun c i => (i, c)) chunks)
    /\ fst (getFileContent projectId fileName w') = Return (concatenation chunks).
Proof.
  intros Hex Hdate Hout Hinit Hf Hchunk Hne Hall.
  destruct (update_run tokenizer extractor uuidv4 toISOString projectId fileName content
              chunks w Hex Hdate Hout Hinit Hf Hchunk Hne Hall)
    as (w5 & now_ & es & n & landed & Hrun & Hcoll & Hperm & Hk5 & Hdb5 & Hout5).
  exists w5.
  destruct (stored_after_update uuidv4 projectId fileName now_ es n chunks _ landed w5
              Hcoll Hperm) as [Hstored Hp].
  split; [exact Hrun|split].
  - rewrite <- stored_chunks_texts. fold (stored_chunks projectId fileName w5).
    rewrite Hstored. unfold mapi.
    rewrite <- (inserted_rows_chunks uuidv4 projectId fileName now_ es chunks n 0).
    apply Permutation_map. exact Hp.
  - rewrite (getFileContent_run projectId fileName w5 Hk5 Hdb5 Hout5), Hstored.
    rewrite (sorted_permutation_unique
               (Js.sort by_chunkIndex (flat_map chunk_of_row landed))
               (flat_map chunk_of_row
                  (inserted_rows uuidv4 projectId fileName now_ es n 0 chunks))).
    + pose proof (inserted_rows_chunks uuidv4 projectId fileName now_ es chunks n 0)
        as Hpairs.
      apply texts_of_pairs in Hpairs.
      destruct (flat_map chunk_of_row
                  (inserted_rows uuidv4 projectId fileName now_ es n 0 chunks))
        as [|x xs] eqn:E.
      * cbn in Hpairs. destruct chunks; [congruence|discriminate].
      * rewrite Hpairs, join_concatenation. reflexivity.
    + apply (sort_strongly_sorted by_chunkIndex chunkIndex_le by_chunkIndex_le
               by_chunkIndex_gt); apply chunkIndex_le_trans.
    + apply inserted_rows_ascending.
    + etransitivity; [apply sort_perm|exact Hp].
Qed.

(** X6: an update whose chunks are all embedded, on an existing project
    with a valid creation time and with a store that answers, returns in
    whatever order the inserts are answered; the file then holds exactly
    the new chunks, numbered from 0, and reading it back gives the chunks
    one after the other. *)
Theorem update_then_read_back
  (tokenizer : PreTrainedTokenizer) (extractor : string -> option Embedding)
  (uuidv4 : nat -> string) (toISOString : string -> option string)
  (projectId fileName content : string)
  (chunks : list string) (w : World) :
  fst (projectExists projectId w) = Return true ->
  created_at_parses toISOString projectId (projectsCollection w) ->
  chroma_outages w = [] ->
  embedding_isInitialized w = true ->
  fileName <> "" ->
  chunk tokenizer content = Some chunks ->
  chunks <> [] ->
  (forall c, In c chunks -> extractor c <> None) ->
  exists w',
    updateFileContent tokenizer extractor uuidv4 toISOString projectId fileName content w
    = (Return tt, w')
    /\ Permutation (stored_texts projectId fileName (chunksCollection w'))
                   (mapi (fun c i => (i, c)) chunks)
    /\ fst (getFileContent projectId fileName w') = Return (concatenation chunks).
Proof.
  exact (update_and_read_run tokenizer extractor uuidv4 toISOString projectId fileName
           content chunks w).
Qed.

Lemma update_then_read_back_witness :
  fst (projectExists Sample.pid (Sample.world_in_order Sample.five_chunks [] [0; 0; 1]%nat))
  = Return true
  /\ created_at_parses Sample.toISOString Sample.pid
       (projectsCollection (Sample.world_in_order Sample.five_chunks [] [0; 0; 1]%nat))
  /\ chunk Tokenizers.char_level (Js.repeat_string 500 "a")
     = Some [Js.repeat_string 450 "a"; Js.repeat_string 100 "a"]
  /\ stored_texts Sample.pid "plan.md"
       (chunksCollection
          (snd (updateFileContent Tokenizers.char_level Sample.extractor Sample.uuidv4
                  Sample.toISOString Sample.pid "plan.md" (Js.repeat_string 500 "a")
                  (Sample.world_in_order Sample.five_chunks [] [0; 0; 1]%nat))))
     = [(1, Js.repeat_string 100 "a"); (0, Js.repeat_string 450 "a")]
  /\ exists w',
      updateFileContent Tokenizers.char_level Sample.extractor Sample.uuidv4
        Sample.toISOString Sample.pid "plan.md" (Js.repeat_string 500 "a")
        (Sample.world_in_order Sample.five_chunks [] [0; 0; 1]%nat)
      = (Return tt, w')
      /\ Permutation (stored_texts Sample.pid "plan.md" (chunksCollection w'))
           (mapi (fun c i => (i, c)) [Js.repeat_string 450 "a"; Js.repeat_string 100 "a"])
      /\ fst (getFileContent Sample.pid "plan.md" w')
         = Return (concatenation [Js.repeat_string 450 "a"; Js.repeat_string 100 "a"]).
Proof.
  split; [vm_compute; reflexivity|].
  split; [do 4 eexists; vm_compute; repeat split|].
  split; [vm_compute; reflexivity|].
  split; [vm_compute; reflexivity|].
  apply (update_then_read_back Tokenizers.char_level Sample.extractor Sample.uuidv4
           Sample.toISOString Sample.pid "plan.md" (Js.repeat_string 500 "a")
           [Js.repeat_string 450 "a"; Js.repeat_string 100 "a"]
           (Sample.world_in_order Sample.five_chunks [] [0; 0; 1]%nat));
    try (vm_compute; reflexivity); try discriminate.
  - do 4 eexists; vm_compute; repeat split.
  - intros c [<-|[<-|[]]]; vm_compute; discriminate.
Defined.

(* ================================================================= *)
(** ** Listing and deleting files *)

Lemma set_add_In (seen : list string) (x y : string) :
  In y (set_add seen x) <-> In y seen \/ y = x.
Proof.
  unfold set_add. destruct (existsb (fun z => (z =? x)%string) seen) eqn:E.
  - split; [now left|]. intros [H| ->]; [exact H|].
    apply existsb_exists in E as (z & Hz & Ez). apply String.eqb_eq in Ez. now subst.
  - rewrite in_app_iff. cbn. intuition (subst; auto).
Qed.

Lemma set_add_NoDup (seen : list string) (x : string) :
  NoDup seen -> NoDup (set_add seen x).
Proof.
  intros Hn. unfold set_add. destruct (existsb (fun z => (z =? x)%string) seen) eqn:E;
    [exact Hn|].
  apply NoDup_app; [exact Hn|repeat constructor; intros []|].
  intros y Hy [Exy|[]]. subst y.
  assert (existsb (fun z => (z =? x)%string) seen = true)
    by (apply existsb_exists; exists x; split; [exact Hy|apply String.eqb_refl]).
  congruence.
Qed.

Lemma distinct_spec (l : list string) :
  NoDup (distinct l) /\ forall x, In x (distinct l) <-> In x l.
Proof.
  unfold distinct.
  assert (H : forall acc, NoDup acc ->
              NoDup (fold_left set_add l acc)
              /\ forall x, In x (fold_left set_add l acc) <-> In x acc \/ In x l).
  { induction l as [|y l IH]; intros acc Hacc; cbn [fold_left].
    - split; [exact Hacc|]. intros x. cbn. tauto.
    - destruct (IH (set_add acc y) (set_add_NoDup acc y Hacc)) as [Hn Hin].
      split; [exact Hn|]. intros x. rewrite Hin, set_add_In. cbn. intuition (subst; auto). }
  destruct (H [] (NoDup_nil _)) as [Hn Hin]. split; [exact Hn|].
  intros x. rewrite Hin. cbn. tauto.
Qed.

Lemma matches_project (projectId : string) (r : ChunkRow) :
  Chroma.matches [project_id_eq projectId] r = true
  <-> exists meta, row_metadata r = Some meta /\ project_id meta = projectId.
Proof.
  unfold Chroma.matches. cbn [forallb]. destruct (row_metadata r) as [meta|].
  - cbn [Chroma.holds]. rewrite andb_true_r, String.eqb_eq. split.
    + intros H. now exists meta.
    + intros (m & E & H). now injection E as ->.
  - split; [discriminate|]. intros (m & E & _). discriminate.
Qed.

Lemma named_files_spec (projectId : string) (rows : list ChunkRow) (f : string) :
  In f (flat_map named_file (List.filter (Chroma.matches [project_id_eq projectId]) rows))
  <-> f <> "" /\ file_of_project projectId f rows.
Proof.
  rewrite in_flat_map. split.
  - intros (r & Hr & Hf). apply filter_In in Hr as [Hin Hm].
    apply matches_project in Hm as (meta & Em & Hp).
    unfold named_file in Hf. rewrite Em in Hf.
    destruct (String.eqb_spec (file_name meta) "") as [E|Hne]; [destruct Hf|].
    destruct Hf as [<-|[]]. split; [exact Hne|]. now exists r, meta.
  - intros (Hne & r & meta & Hin & Em & Hp & Hf). exists r. split.
    + apply filter_In. split; [exact Hin|]. apply matches_project. now exists meta.
    + unfold named_file. rewrite Em, Hf.
      destruct (String.eqb_spec f "") as [E|_]; [congruence|]. now left.
Qed.

Lemma listFiles_run (projectId : string) (w : World) :
  known_project projectId (projectsCollection w) ->
  db_isInitialized w = true ->
  chroma_outages w = [] ->
  fst (listFiles projectId w)
  = Return (distinct (flat_map named_file
                        (List.filter (Chroma.matches [project_id_eq projectId])
                                     (chunksCollection w)))).
Proof.
  intros Hk Hdb Hout. unfold listFiles. unfold bind at 1.
  rewrite (known_projectExists projectId w Hk Hdb Hout). cbn [negb].
  unfold getDistinctFileNamesByProject, ensureInitialized, Chroma.chunks_get, Chroma.limited.
  run_with Hdb Hout. reflexivity.
Qed.

(** X7: on an existing project, with a store that answers, [listFiles]
    returns every non-empty file name that a chunk of the project carries,
    each once, and nothing else. *)
Theorem listFiles_lists_each_file_once (projectId : string) (w : World) :
  fst (projectExists projectId w) = Return true ->
  chroma_outages w = [] ->
  exists names,
    fst (listFiles projectId w) = Return names
    /\ NoDup names
    /\ forall f, In f names
                 <-> f <> "" /\ file_of_project projectId f (chunksCollection w).
Proof.
  intros Hex Hout.
  pose proof (projectExists_true_known projectId w Hex) as Hk.
  pose proof (projectExists_true_db projectId w Hex) as Hdb.
  eexists. split; [apply (listFiles_run projectId w Hk Hdb Hout)|].
  split; [apply distinct_spec|].
  intros f. rewrite (proj2 (distinct_spec _)). apply named_files_spec.
Qed.

Lemma listFiles_lists_each_file_once_witness :
  fst (projectExists Sample.pid (Sample.world_with Sample.five_chunks [])) = Return true
  /\ exists names,
      fst (listFiles Sample.pid (Sample.world_with Sample.five_chunks [])) = Return names
      /\ NoDup names
      /\ forall f, In f names
                   <-> f <> "" /\ file_of_project Sample.pid f Sample.five_chunks.
Proof.
  split; [vm_compute; reflexivity|].
  apply (listFiles_lists_each_file_once Sample.pid (Sample.world_with Sample.five_chunks []));
    vm_compute; reflexivity.
Defined.

Lemma deleteFileContent_run (toISOString : string -> option string)
      (projectId fileName : string) (w : World) :
  known_project projectId (projectsCollection w) ->
  created_at_parses toISOString projectId (projectsCollection w) ->
  db_isInitialized w = true ->
  chroma_outages w = [] ->
  exists w',
    deleteFileContent toISOString projectId fileName w = (Return true, w')
    /\ chunksCollection w'
       = without_ids (file_ids projectId fileName (chunksCollection w)) (chunksCollection w)
    /\ known_project projectId (projectsCollection w')
    /\ db_isInitialized w' = true
    /\ chroma_outages w' = [].
Proof.
  intros Hk Hdate Hdb Hout.
  set (w1 := with_trace w (trace w ++ [EvProjectsGet projectId])).
  destruct (deleteMemoryBankContentByFile_run projectId fileName w1 Hdb Hout)
    as (w2 & Hdel & Hchunks2 & Hproj2 & Hdb2 & Hout2).
  assert (Hd2 : created_at_parses toISOString projectId (projectsCollection w2))
    by (rewrite Hproj2; exact Hdate).
  destruct (updateLastModified_keeps_project toISOString projectId w2 (proj1 Hk) Hd2 Hdb2 Hout2)
    as (w3 & Hupd & Hchunks3 & Hk3 & Hdb3 & Hout3).
  exists w3. split.
  - unfold deleteFileContent. unfold bind at 1.
    rewrite (known_projectExists projectId w Hk Hdb Hout). cbn [negb].
    unfold try_catch, bind. fold w1. rewrite Hdel, Hupd. reflexivity.
  - split; [rewrite Hchunks3, Hchunks2; reflexivity|].
    split; [exact Hk3|]. split; [exact Hdb3|exact Hout3].
Qed.

(** X8: after [deleteFileContent] on an existing project with a valid
    creation time, with a store that answers, the project has no chunk of
    the file left: [listFiles] does not name the file and [getFileContent]
    reports that it has no content. The deletion returns true whether or
    not the file had chunks. *)
Theorem deleted_file_is_gone (toISOString : string -> option string)
        (projectId fileName : string) (w : World) :
  fst (projectExists projectId w) = Return true ->
  created_at_parses toISOString projectId (projectsCollection w) ->
  chroma_outages w = [] ->
  exists w' names,
    deleteFileContent toISOString projectId fileName w = (Return true, w')
    /\ stored_texts projectId fileName (chunksCollection w') = []
    /\ fst (listFiles projectId w') = Return names
    /\ ~ In fileName names
    /\ fst (getFileContent projectId fileName w')
       = Throw (McpError InvalidParams
                  ("No content found for file '" ++ fileName
                   ++ "' in project '" ++ projectId ++ "'.")).
Proof.
  intros Hex Hdate Hout.
  pose proof (projectExists_true_known projectId w Hex) as Hk.
  pose proof (projectExists_true_db projectId w Hex) as Hdb.
  destruct (deleteFileContent_run toISOString projectId fileName w Hk Hdate Hdb Hout)
    as (w' & Hrun & Hchunks & Hk' & Hdb' & Hout').
  assert (Hnone : List.filter
                    (Chroma.matches [project_id_eq projectId; file_name_eq fileName])
                    (chunksCollection w') = [])
    by (rewrite Hchunks; apply without_file_ids_none_left).
  assert (Hstored : stored_chunks projectId fileName w' = [])
    by (unfold stored_chunks; now rewrite Hnone).
  eexists. eexists. split; [exact Hrun|].
  split; [rewrite <- stored_chunks_texts, Hnone; reflexivity|].
  split; [apply (listFiles_run projectId w' Hk' Hdb' Hout')|].
  split.
  - rewrite (proj2 (distinct_spec _)), named_files_spec.
    intros (_ & r & meta & Hin & Em & Hp & Hf).
    assert (Hr : In r (List.filter
                         (Chroma.matches [project_id_eq projectId; file_name_eq fileName])
                         (chunksCollection w'))).
    { apply filter_In. split; [exact Hin|]. unfold Chroma.matches. cbn [forallb].
      rewrite Em. cbn [Chroma.holds]. rewrite Hp, Hf, !String.eqb_refl. reflexivity. }
    rewrite Hnone in Hr. destruct Hr.
  - rewrite (getFileContent_run projectId fileName w' Hk' Hdb' Hout'), Hstored.
    reflexivity.
Qed.

Lemma deleted_file_is_gone_witness :
  fst (projectExists Sample.pid (Sample.world_with Sample.five_chunks [])) = Return true
  /\ created_at_parses Sample.toISOString Sample.pid
       (projectsCollection (Sample.world_with Sample.five_chunks []))
  /\ stored_texts Sample.pid "plan.md" Sample.five_chunks = [(0, "delta"); (1, "epsilon")]
  /\ exists w' names,
      deleteFileContent Sample.toISOString Sample.pid "plan.md"
        (Sample.world_with Sample.five_chunks [])
      = (Return true, w')
      /\ stored_texts Sample.pid "plan.md" (chunksCollection w') = []
      /\ fst (listFiles Sample.pid w') = Return names
      /\ ~ In "plan.md" names
      /\ fst (getFileContent Sample.pid "plan.md" w')
         = Throw (McpError InvalidParams
                    ("No content found for file '" ++ "plan.md"
                     ++ "' in project '" ++ Sample.pid ++ "'.")).
Proof.
  split; [vm_compute; reflexivity|].
  split; [do 4 eexists; vm_compute; repeat split|].
  split; [vm_compute; reflexivity|].
  apply (deleted_file_is_gone Sample.toISOString Sample.pid "plan.md"
           (Sample.world_with Sample.five_chunks []));
    try (vm_compute; reflexivity).
  do 4 eexists; vm_compute; repeat split.
Defined.

Lemma same_id_same_row (rows : list ChunkRow) (a b : ChunkRow) :
  NoDup (map row_id rows) -> In a rows -> In b rows -> row_id a = row_id b -> a = b.
Proof.
  induction rows as [|r rows IH]; intros Hn Ha Hb E; [destruct Ha|].
  cbn in Hn. inversion Hn as [|? ? Hnot Hn']; subst.
  destruct Ha as [<-|Ha], Hb as [<-|Hb]; try reflexivity.
  - exfalso. apply Hnot. rewrite E. now apply in_map.
  - exfalso. apply Hnot. rewrite <- E. now apply in_map.
  - now apply IH.
Qed.

Lemma without_file_ids_filter (projectId fileName : string) (rows : list ChunkRow) :
  NoDup (map row_id rows) ->
  without_ids (file_ids projectId fileName rows) rows
  = List.filter
      (fun r => negb (Chroma.matches [project_id_eq projectId; file_name_eq fileName] r))
      rows.
Proof.
  intros Hn. unfold without_ids.
  apply filter_ext_in. intros r Hr. f_equal.
  destruct (Chroma.matches [project_id_eq projectId; file_name_eq fileName] r) eqn:Em.
  - now apply file_ids_complete.
  - destruct (existsb _ (file_ids projectId fileName rows)) eqn:Ee; [|reflexivity].
    apply existsb_exists in Ee as (i & Hi & Ei). apply String.eqb_eq in Ei.
    unfold file_ids in Hi. apply in_map_iff in Hi as (r' & Hid & Hr').
    apply filter_In in Hr' as [Hr' Hf]. apply filter_In in Hr' as [Hr' Hp].
    assert (r' = r) by (apply (same_id_same_row rows); congruence).
    subst r'. exfalso.
    assert (Chroma.matches [project_id_eq projectId; file_name_eq fileName] r = true);
      [|congruence].
    unfold Chroma.matches in *. cbn [forallb] in *.
    destruct (row_metadata r); [|discriminate]. cbn [Chroma.holds] in *.
    rewrite andb_true_r in Hp. now rewrite Hp, Hf.
Qed.

(** X9: with ids that are unique in the chunk collection, on an existing
    project with a valid creation time, [deleteFileContent] removes the
    chunks of the project and file and keeps every other row, in the order
    it had. *)
Theorem deleteFileContent_removes_exactly_the_file
  (toISOString : string -> option string) (projectId fileName : string) (w : World) :
  fst (projectExists projectId w) = Return true ->
  created_at_parses toISOString projectId (projectsCollection w) ->
  chroma_outages w = [] ->
  NoDup (map row_id (chunksCollection w)) ->
  exists w',
    deleteFileContent toISOString projectId fileName w = (Return true, w')
    /\ chunksCollection w'
       = List.filter
           (fun r => negb (Chroma.matches
                             [project_id_eq projectId; file_name_eq fileName] r))
           (chunksCollection w).
Proof.
  intros Hex Hdate Hout Hn.
  pose proof (projectExists_true_known projectId w Hex) as Hk.
  pose proof (projectExists_true_db projectId w Hex) as Hdb.
  destruct (deleteFileContent_run toISOString projectId fileName w Hk Hdate Hdb Hout)
    as (w' & Hrun & Hchunks & _).
  exists w'. split; [exact Hrun|]. rewrite Hchunks.
  now apply without_file_ids_filter.
Qed.

Lemma deleteFileContent_removes_exactly_the_file_witness :
  fst (projectExists Sample.pid (Sample.world_with Sample.five_chunks [])) = Return true
  /\ created_at_parses Sample.toISOString Sample.pid
       (projectsCollection (Sample.world_with Sample.five_chunks []))
  /\ NoDup (map row_id Sample.five_chunks)
  /\ map row_id
         (chunksCollection
            (snd (deleteFileContent Sample.toISOString Sample.pid "plan.md"
                    (Sample.world_with Sample.five_chunks []))))
     = ["c1"; "c2"; "c3"]
  /\ exists w',
      deleteFileContent Sample.toISOString Sample.pid "plan.md"
        (Sample.world_with Sample.five_chunks [])
      = (Return true, w')
      /\ chunksCollection w'
         = List.filter
             (fun r => negb (Chroma.matches
                               [project_id_eq Sample.pid; file_name_eq "plan.md"] r))
             Sample.five_chunks.
Proof.
  assert (Hn : NoDup (map row_id Sample.five_chunks)).
  { cbn. repeat constructor; cbn; intuition discriminate. }
  split; [vm_compute; reflexivity|].
  split; [do 4 eexists; vm_compute; repeat split|].
  split; [exact Hn|].
  split; [vm_compute; reflexivity|].
  apply (deleteFileContent_removes_exactly_the_file Sample.toISOString Sample.pid "plan.md"
           (Sample.world_with Sample.five_chunks []));
    [vm_compute; reflexivity|do 4 eexists; vm_compute; repeat split|reflexivity|exact Hn].
Defined.

(* ================================================================= *)
(** ** How the services fail, and what they leave alone *)

(* ----------------------------------------------------------------- *)
(** *** Failures are [McpError]s *)

Lemma throws_ret {A} (a : A) : throws_only_McpError (ret a).
Proof. intros w e H. discriminate. Qed.

Lemma throws_throw {A} (e : exn) :
  instanceof_McpError e = true -> throws_only_McpError (@throw A e).
Proof. intros He w e' H. cbn in H. injection H as <-. exact He. Qed.

Lemma throws_bind {A B} (m : M A) (k : A -> M B) :
  throws_only_McpError m -> (forall a, throws_only_McpError (k a)) ->
  throws_only_McpError (bind m k).
Proof.
  intros Hm Hk w e. unfold bind. specialize (Hm w).
  destruct (m w) as [[a|e'|] w1]; cbn [fst] in *.
  - apply Hk.
  - intros H. injection H as <-. now apply Hm.
  - discriminate.
Qed.

(** Whatever the body does, a handler that throws [McpError]s only lets
    nothing else out. *)
Lemma throws_try_catch {A} (body : M A) (handler : exn -> M A) :
  (forall e, throws_only_McpError (handler e)) ->
  throws_only_McpError (try_catch body handler).
Proof.
  intros Hh w e. unfold try_catch.
  destruct (body w) as [[a|e'|] w1]; cbn [fst]; try discriminate. apply Hh.
Qed.

Lemma throws_rethrow {A} (prefix : string) (e : exn) :
  throws_only_McpError (@rethrow_McpError_or A prefix e).
Proof.
  unfold rethrow_McpError_or.
  destruct (instanceof_McpError e) eqn:E; apply throws_throw; [exact E|reflexivity].
Qed.

Lemma throws_ensureInitialized : throws_only_McpError ensureInitialized.
Proof.
  intros w e. unfold ensureInitialized.
  destruct (db_isInitialized w); cbn [fst]; [discriminate|].
  intros H. injection H as <-. reflexivity.
Qed.

Lemma throws_projectExists (projectId : string) :
  throws_only_McpError (projectExists projectId).
Proof.
  unfold projectExists. destruct (projectId =? "")%string; [apply throws_ret|].
  apply throws_try_catch. intros _. now apply throws_throw.
Qed.

Lemma throws_findProjectById (projectId : string) :
  throws_only_McpError (findProjectById projectId).
Proof.
  unfold findProjectById. apply throws_bind; [apply throws_ensureInitialized|].
  intros _. apply throws_try_catch. intros e. now apply throws_throw.
Qed.

Lemma throws_findProjectByName (projectName : string) :
  throws_only_McpError (findProjectByName projectName).
Proof.
  unfold findProjectByName. apply throws_bind; [apply throws_ensureInitialized|].
  intros _. apply throws_try_catch. intros e. now apply throws_throw.
Qed.

(** X10: every failure of a method of [MemoryBankService], [SearchService] or
    [ProjectService] modelled here is an [McpError]: no error of the store,
    of the embedder or of the client is let through as it is. *)
Theorem service_failures_are_McpErrors
  (tokenizer : PreTrainedTokenizer) (extractor : string -> option Embedding)
  (queryAnswer : Embedding -> Z -> Where -> list ChunkRow -> list Chroma.QueryRow) (localeCompare : string -> string -> Z)
  (uuidv4 randomUUID : nat -> string) (toISOString : string -> option string) :
  (forall projectId fileName content,
      throws_only_McpError
        (updateFileContent tokenizer extractor uuidv4 toISOString projectId fileName
           content))
  /\ (forall projectId fileName, throws_only_McpError (getFileContent projectId fileName))
  /\ (forall projectId, throws_only_McpError (listFiles projectId))
  /\ (forall projectId fileName,
         throws_only_McpError (deleteFileContent toISOString projectId fileName))
  /\ (forall projectId query searchType topK fileFilter,
         throws_only_McpError
           (search extractor queryAnswer localeCompare projectId query searchType topK
                   fileFilter))
  /\ (forall projectName, throws_only_McpError (createProject randomUUID projectName))
  /\ (forall projectId, throws_only_McpError (deleteProject projectId))
  /\ (forall projectId, throws_only_McpError (updateLastModified toISOString projectId)).
Proof.
  repeat match goal with |- _ /\ _ => split end.
  - intros. unfold updateFileContent.
    apply throws_bind; [apply throws_projectExists|]. intros ex.
    destruct (negb ex); [now apply throws_throw|].
    destruct (_ || _)%bool; [now apply throws_throw|].
    apply throws_try_catch. intros e. apply throws_rethrow.
  - intros. unfold getFileContent.
    apply throws_bind; [apply throws_projectExists|]. intros ex.
    destruct (negb ex); [now apply throws_throw|].
    apply throws_try_catch. intros e. apply throws_rethrow.
  - intros. unfold listFiles.
    apply throws_bind; [apply throws_projectExists|]. intros ex.
    destruct (negb ex); [now apply throws_throw|].
    apply throws_try_catch. intros e. apply throws_rethrow.
  - intros. unfold deleteFileContent.
    apply throws_bind; [apply throws_projectExists|]. intros ex.
    destruct (negb ex); [now apply throws_throw|].
    apply throws_try_catch. intros e. apply throws_rethrow.
  - intros. unfold search.
    apply throws_bind; [apply throws_projectExists|]. intros ex.
    destruct (negb ex); [now apply throws_throw|].
    destruct (_ || _)%bool; [now apply throws_throw|].
    apply throws_try_catch. intros e. apply throws_rethrow.
  - intros. unfold createProject.
    destruct (_ || _)%bool; [now apply throws_throw|].
    apply throws_bind; [apply throws_findProjectByName|]. intros [p|].
    + now apply throws_throw.
    + apply throws_bind; [intros w e H; discriminate|]. intros projectId.
      apply throws_try_catch. intros _. now apply throws_throw.
  - intros pid. unfold deleteProject.
    destruct (pid =? "")%string; [now apply throws_throw|].
    apply throws_bind; [apply throws_findProjectById|]. intros [p|].
    + apply throws_try_catch. intros _. now apply throws_throw.
    + now apply throws_throw.
  - intros pid. unfold updateLastModified.
    destruct (pid =? "")%string; [now apply throws_throw|].
    apply throws_try_catch. intros _. now apply throws_throw.
Qed.

Lemma service_failures_are_McpErrors_witness :
  exists e,
    fst (getFileContent Sample.pid "notes.md"
           (Sample.world_with Sample.five_chunks [None; Some Sample.unreachable]))
    = Throw e
    /\ instanceof_McpError e = true.
Proof.
  eexists. split; [vm_compute; reflexivity|].
  destruct (service_failures_are_McpErrors Tokenizers.char_level Sample.extractor
              Sample.queryAnswer Sample.localeCompare Sample.uuidv4 Sample.uuidv4
              Sample.toISOString)
    as (_ & Hget & _).
  apply (Hget Sample.pid "notes.md"
           (Sample.world_with Sample.five_chunks [None; Some Sample.unreachable])).
  vm_compute. reflexivity.
Defined.

(* ----------------------------------------------------------------- *)
(** *** Reads leave the collections as they are *)

Lemma stores_kept_refl (w : World) : stores_kept w w.
Proof. split; reflexivity. Qed.

Lemma stores_kept_trans (w1 w2 w3 : World) :
  stores_kept w1 w2 -> stores_kept w2 w3 -> stores_kept w1 w3.
Proof. intros [H1 H2] [H3 H4]. split; congruence. Qed.

Lemma read_only_ret {A} (a : A) : read_only (ret a).
Proof. intros w. apply stores_kept_refl. Qed.

Lemma read_only_throw {A} (e : exn) : read_only (@throw A e).
Proof. intros w. apply stores_kept_refl. Qed.

Lemma read_only_bind {A B} (m : M A) (k : A -> M B) :
  read_only m -> (forall a, read_only (k a)) -> read_only (bind m k).
Proof.
  intros Hm Hk w. unfold bind. specialize (Hm w).
  destruct (m w) as [[a|e|] w1]; cbn [snd] in *; try exact Hm.
  eapply stores_kept_trans; [exact Hm|apply Hk].
Qed.

Lemma read_only_try_catch {A} (body : M A) (handler : exn -> M A) :
  read_only body -> (forall e, read_only (handler e)) ->
  read_only (try_catch body handler).
Proof.
  intros Hb Hh w. unfold try_catch. specialize (Hb w).
  destruct (body w) as [[a|e|] w1]; cbn [snd] in *; try exact Hb.
  eapply stores_kept_trans; [exact Hb|apply Hh].
Qed.

Lemma read_only_rethrow {A} (prefix : string) (e : exn) :
  read_only (@rethrow_McpError_or A prefix e).
Proof.
  unfold rethrow_McpError_or. destruct (instanceof_McpError e); apply read_only_throw.
Qed.

Lemma read_only_call {A} (ev : Event) (answer : M A) :
  read_only answer -> read_only (Chroma.call ev answer).
Proof.
  intros Ha w. unfold Chroma.call, await, Chroma.request, bind, ret, log.
  cbn [chroma_outages with_trace].
  destruct (chroma_outages w) as [|[m|] rest].
  - apply (Ha (with_trace w (trace w ++ [ev]))).
  - split; reflexivity.
  - apply (Ha (with_outages (with_trace w (trace w ++ [ev])) rest)).
Qed.

Lemma read_only_ensureInitialized : read_only ensureInitialized.
Proof.
  intros w. unfold ensureInitialized. destruct (db_isInitialized w); apply stores_kept_refl.
Qed.

Lemma read_only_projectExists (projectId : string) : read_only (projectExists projectId).
Proof.
  intros w. destruct (projectExists_quiet projectId w) as [_ (Hc & Hp & _)].
  split; assumption.
Qed.

Lemma read_only_generateEmbedding (extractor : string -> option Embedding) (text : string) :
  read_only (await (generateEmbedding extractor text)).
Proof.
  intros w. unfold generateEmbedding, await, bind.
  destruct (embedding_isInitialized w); cbn [negb]; [|apply stores_kept_refl].
  unfold_run. destruct (extractor text); split; reflexivity.
Qed.

Lemma read_only_semanticSearchChunks
      (queryAnswer : Embedding -> Z -> Where -> list ChunkRow -> list Chroma.QueryRow) (projectId : string)
      (queryEmbedding : Embedding) (topK : Z) (fileFilter : option (list string)) :
  read_only (semanticSearchChunks queryAnswer projectId queryEmbedding topK fileFilter).
Proof.
  unfold semanticSearchChunks.
  apply read_only_bind; [apply read_only_ensureInitialized|]. intros _.
  apply read_only_try_catch; [|intros; apply read_only_throw].
  apply read_only_bind; [|intros; apply read_only_ret].
  unfold Chroma.chunks_query. apply read_only_call.
  intros w. destruct (topK <? 1); [apply stores_kept_refl|].
  destruct (Chroma.valid_where _); apply stores_kept_refl.
Qed.

Lemma read_only_keywordSearchChunks
      (localeCompare : string -> string -> Z) (projectId query : string) (topK : Z)
      (fileFilter : option (list string)) :
  read_only (keywordSearchChunks localeCompare projectId query topK fileFilter).
Proof.
  unfold keywordSearchChunks.
  apply read_only_bind; [apply read_only_ensureInitialized|]. intros _.
  apply read_only_try_catch; [|intros; apply read_only_throw].
  apply read_only_bind; [|intros; apply read_only_ret].
  unfold Chroma.chunks_get. apply read_only_call.
  intros w. destruct (Chroma.valid_where _); apply stores_kept_refl.
Qed.

(** X11: [search], [getFileContent], [listFiles] and [projectExists] leave the
    chunk collection and the project collection as they are, whether they
    return or throw. *)
Theorem reads_leave_the_stores_alone
  (extractor : string -> option Embedding) (queryAnswer : Embedding -> Z -> Where -> list ChunkRow -> list Chroma.QueryRow)
  (localeCompare : string -> string -> Z) :
  (forall projectId query searchType topK fileFilter,
      read_only (search extractor queryAnswer localeCompare projectId query searchType topK
                        fileFilter))
  /\ (forall projectId fileName, read_only (getFileContent projectId fileName))
  /\ (forall projectId, read_only (listFiles projectId))
  /\ (forall projectId, read_only (projectExists projectId)).
Proof.
  repeat match goal with |- _ /\ _ => split end.
  - intros pid q st k ff. unfold search.
    apply read_only_bind; [apply read_only_projectExists|]. intros ex.
    destruct (negb ex); [apply read_only_throw|].
    destruct (_ || _)%bool; [apply read_only_throw|].
    apply read_only_try_catch; [|intros; apply read_only_rethrow].
    apply read_only_bind; [|intros; apply read_only_ret].
    destruct (st =? "semantic")%string.
    + apply read_only_bind; [apply read_only_generateEmbedding|].
      intros. apply read_only_semanticSearchChunks.
    + destruct (st =? "keyword")%string;
        [apply read_only_keywordSearchChunks|apply read_only_throw].
  - intros. unfold getFileContent.
    apply read_only_bind; [apply read_only_projectExists|]. intros ex.
    destruct (negb ex); [apply read_only_throw|].
    apply read_only_try_catch; [|intros; apply read_only_rethrow].
    apply read_only_bind.
    + unfold getMemoryBankChunksByFile.
      apply read_only_bind; [apply read_only_ensureInitialized|]. intros _.
      apply read_only_try_catch; [|intros; apply read_only_throw].
      apply read_only_bind.
      * unfold Chroma.chunks_get. apply read_only_call.
        intros w. destruct (Chroma.valid_where _); apply stores_kept_refl.
      * intros [|r rs]; apply read_only_ret.
    + intros [|c cs]; [apply read_only_throw|apply read_only_ret].
  - intros. unfold listFiles.
    apply read_only_bind; [apply read_only_projectExists|]. intros ex.
    destruct (negb ex); [apply read_only_throw|].
    apply read_only_try_catch; [|intros; apply read_only_rethrow].
    unfold getDistinctFileNamesByProject.
    apply read_only_bind; [apply read_only_ensureInitialized|]. intros _.
    apply read_only_try_catch; [|intros; apply read_only_throw].
    apply read_only_bind; [|intros; apply read_only_ret].
    unfold Chroma.chunks_get. apply read_only_call.
    intros w. destruct (Chroma.valid_where _); apply stores_kept_refl.
  - apply read_only_projectExists.
Qed.

Lemma reads_leave_the_stores_alone_witness :
  stores_kept (Sample.world_with Sample.five_chunks [])
    (snd (search Sample.extractor Sample.queryAnswer Sample.localeCompare Sample.pid "alpha"
                 "semantic" 3 None (Sample.world_with Sample.five_chunks [])))
  /\ stores_kept (Sample.world_with Sample.five_chunks [None; Some Sample.unreachable])
       (snd (getFileContent Sample.pid "notes.md"
               (Sample.world_with Sample.five_chunks [None; Some Sample.unreachable]))).
Proof.
  destruct (reads_leave_the_stores_alone Sample.extractor Sample.queryAnswer
              Sample.localeCompare) as (Hsearch & Hget & _).
  split; [apply Hsearch|apply Hget].
Defined.

(* ----------------------------------------------------------------- *)
(** *** The failures of a search *)

Lemma only_project_lookups_refl (w : World) : only_project_lookups w w.
Proof.
  repeat split. exists []. split; [now rewrite app_nil_r|constructor].
Qed.

Lemma fails_ret {A} (a : A) : fails_internally (ret a).
Proof. intros w e H. discriminate. Qed.

Lemma fails_bind {A B} (m : M A) (k : A -> M B) :
  fails_internally m -> (forall a, fails_internally (k a)) -> fails_internally (bind m k).
Proof.
  intros Hm Hk w e. unfold bind. specialize (Hm w).
  destruct (m w) as [[a|e'|] w1]; cbn [fst] in *.
  - apply Hk.
  - intros H. injection H as <-. now apply Hm.
  - discriminate.
Qed.

Lemma fails_wrapped {A} (body : M A) (msg : exn -> string) :
  fails_internally (try_catch body (fun e => throw (McpError InternalError (msg e)))).
Proof.
  intros w e. unfold try_catch.
  destruct (body w) as [[a|e'|] w1]; cbn [fst]; try discriminate.
  intros H. injection H as <-. eexists. reflexivity.
Qed.

Lemma fails_rethrow {A} (body : M A) (prefix : string) :
  fails_internally body ->
  fails_internally (try_catch body (rethrow_McpError_or prefix)).
Proof.
  intros Hb w e. unfold try_catch. specialize (Hb w).
  destruct (body w) as [[a|e'|] w1]; cbn [fst] in *; try discriminate.
  destruct (Hb e' eq_refl) as [msg ->]. cbn.
  intros H. injection H as <-. eexists. reflexivity.
Qed.

Lemma fails_ensureInitialized : fails_internally ensureInitialized.
Proof.
  intros w e. unfold ensureInitialized.
  destruct (db_isInitialized w); cbn [fst]; [discriminate|].
  intros H. injection H as <-. eexists. reflexivity.
Qed.

Lemma fails_projectExists (projectId : string) : fails_internally (projectExists projectId).
Proof.
  unfold projectExists. destruct (projectId =? "")%string; [apply fails_ret|].
  apply (fails_wrapped _ (fun _ => "Database error checking project existence.")).
Qed.

Lemma fails_generateEmbedding (extractor : string -> option Embedding) (text : string) :
  fails_internally (await (generateEmbedding extractor text)).
Proof.
  intros w e. unfold generateEmbedding, await, bind.
  destruct (embedding_isInitialized w); cbn [negb fst].
  - unfold_run. destruct (extractor text); unfold_run; [discriminate|].
    intros H. injection H as <-. eexists. reflexivity.
  - intros H. injection H as <-. eexists. reflexivity.
Qed.

Lemma never_hangs_ret {A} (a : A) : never_hangs (ret a).
Proof. intros w. discriminate. Qed.

Lemma never_hangs_throw {A} (e : exn) : never_hangs (@throw A e).
Proof. intros w. discriminate. Qed.

Lemma never_hangs_bind {A B} (m : M A) (k : A -> M B) :
  never_hangs m -> (forall a, never_hangs (k a)) -> never_hangs (bind m k).
Proof.
  intros Hm Hk w. unfold bind. specialize (Hm w).
  destruct (m w) as [[a|e|] w1]; cbn [fst] in *; [apply Hk|discriminate|congruence].
Qed.

Lemma never_hangs_try_catch {A} (body : M A) (handler : exn -> M A) :
  never_hangs body -> (forall e, never_hangs (handler e)) ->
  never_hangs (try_catch body handler).
Proof.
  intros Hb Hh w. unfold try_catch. specialize (Hb w).
  destruct (body w) as [[a|e|] w1]; cbn [fst] in *; [discriminate|apply Hh|congruence].
Qed.

Lemma never_hangs_rethrow {A} (prefix : string) (e : exn) :
  never_hangs (@rethrow_McpError_or A prefix e).
Proof.
  unfold rethrow_McpError_or. destruct (instanceof_McpError e); apply never_hangs_throw.
Qed.

Lemma never_hangs_call {A} (ev : Event) (answer : M A) :
  never_hangs answer -> never_hangs (Chroma.call ev answer).
Proof.
  intros Ha w. unfold Chroma.call, await, Chroma.request, bind, ret, log.
  cbn [chroma_outages with_trace].
  destruct (chroma_outages w) as [|[m|] rest]; [apply Ha|discriminate|apply Ha].
Qed.

Lemma never_hangs_ensureInitialized : never_hangs ensureInitialized.
Proof.
  intros w. unfold ensureInitialized. destruct (db_isInitialized w); discriminate.
Qed.

Lemma never_hangs_search
      (extractor : string -> option Embedding) (queryAnswer : Embedding -> Z -> Where -> list ChunkRow -> list Chroma.QueryRow)
      (localeCompare : string -> string -> Z)
      (pid q st : string) (k : Z) (ff : option (list string)) :
  never_hangs (search extractor queryAnswer localeCompare pid q st k ff).
Proof.
  unfold search.
  apply never_hangs_bind; [intros w; apply projectExists_quiet|]. intros ex.
  destruct (negb ex); [apply never_hangs_throw|].
  destruct (_ || _)%bool; [apply never_hangs_throw|].
  apply never_hangs_try_catch; [|intros; apply never_hangs_rethrow].
  apply never_hangs_bind; [|intros; apply never_hangs_ret].
  destruct (st =? "semantic")%string.
  - apply never_hangs_bind; [intros w; apply generateEmbedding_quiet|].
    intros qe. unfold semanticSearchChunks.
    apply never_hangs_bind; [apply never_hangs_ensureInitialized|]. intros _.
    apply never_hangs_try_catch; [|intros; apply never_hangs_throw].
    apply never_hangs_bind; [|intros; apply never_hangs_ret].
    unfold Chroma.chunks_query. apply never_hangs_call.
    intros w. destruct (k <? 1); [discriminate|].
    destruct (Chroma.valid_where _); discriminate.
  - destruct (st =? "keyword")%string; [|apply never_hangs_throw].
    unfold keywordSearchChunks.
    apply never_hangs_bind; [apply never_hangs_ensureInitialized|]. intros _.
    apply never_hangs_try_catch; [|intros; apply never_hangs_throw].
    apply never_hangs_bind; [|intros; apply never_hangs_ret].
    unfold Chroma.chunks_get. apply never_hangs_call. intros w.
    destruct (Chroma.valid_where _); discriminate.
Qed.

(** A failure of the search service is an internal error, or an
    [InvalidParams] raised when nothing but the look-up of the project has
    happened. *)
Lemma search_failures_classified
      (extractor : string -> option Embedding) (queryAnswer : Embedding -> Z -> Where -> list ChunkRow -> list Chroma.QueryRow)
      (localeCompare : string -> string -> Z)
      (pid q st : string) (k : Z) (ff : option (list string)) (w w' : World) (e : exn) :
  search extractor queryAnswer localeCompare pid q st k ff w = (Throw e, w') ->
  (exists msg, e = McpError InternalError msg)
  \/ ((exists msg, e = McpError InvalidParams msg) /\ only_project_lookups w w').
Proof.
  unfold search. unfold bind at 1.
  destruct (projectExists_quiet pid w) as [_ Hq].
  pose proof (fails_projectExists pid w) as Hpe.
  destruct (projectExists pid w) as [[ex|e0|] w1]; cbn [fst snd] in Hq, Hpe.
  - destruct ex; cbn [negb].
    + destruct (_ || _)%bool.
      { cbn. intros H. injection H as <- <-. right.
        split; [eexists; reflexivity|exact Hq]. }
      destruct (st =? "semantic")%string eqn:Es.
      * intros H. left. apply (f_equal fst) in H. cbn [fst] in H. revert H.
        apply fails_rethrow. apply fails_bind; [|intros; apply fails_ret].
        apply fails_bind; [apply fails_generateEmbedding|]. intros qe.
        unfold semanticSearchChunks.
        apply fails_bind; [apply fails_ensureInitialized|]. intros _.
        apply (fails_wrapped _
                 (fun e => ("DB error during semantic search: " ++ message e)%string)).
      * destruct (st =? "keyword")%string eqn:Ek.
        -- intros H. left. apply (f_equal fst) in H. cbn [fst] in H. revert H.
           apply fails_rethrow. apply fails_bind; [|intros; apply fails_ret].
           unfold keywordSearchChunks.
           apply fails_bind; [apply fails_ensureInitialized|]. intros _.
           apply (fails_wrapped _
                    (fun e => ("DB error during keyword search: " ++ message e)%string)).
        -- cbn. intros H. injection H as <- <-. right.
           split; [eexists; reflexivity|exact Hq].
    + cbn. intros H. injection H as <- <-. right.
      split; [eexists; reflexivity|exact Hq].
  - intros H. injection H as <- <-. left. now apply Hpe.
  - discriminate.
Qed.

(** X12: a call of the search tool always settles. When it fails, the error is
    an [McpError] with code [InternalError], or one with code
    [InvalidParams] raised when nothing but the look-up of the project has
    happened: no call to the chunk store or to the embedder precedes an
    [InvalidParams]. *)
Theorem search_tool_failures_are_classified
  (extractor : string -> option Embedding) (queryAnswer : Embedding -> Z -> Where -> list ChunkRow -> list Chroma.QueryRow)
  (localeCompare : string -> string -> Z) (raw : RawSearchArgs) (w : World) :
  fst (memoryBank_search extractor queryAnswer localeCompare raw w) <> Hang
  /\ forall e,
      fst (memoryBank_search extractor queryAnswer localeCompare raw w) = Throw e ->
      (exists msg, e = McpError InternalError msg)
      \/ ((exists msg, e = McpError InvalidParams msg)
          /\ only_project_lookups w
               (snd (memoryBank_search extractor queryAnswer localeCompare raw w))).
Proof.
  unfold memoryBank_search. destruct (parse_search_args raw) as [args|].
  - pose proof (never_hangs_search extractor queryAnswer localeCompare (projectId args)
                  (query args) (searchType args) (topK args) (fileFilter args) w) as Hh.
    pose proof (search_failures_classified extractor queryAnswer localeCompare
                  (projectId args) (query args) (searchType args) (topK args)
                  (fileFilter args) w) as Hc.
    unfold try_catch.
    destruct (search extractor queryAnswer localeCompare (projectId args) (query args)
                     (searchType args) (topK args) (fileFilter args) w)
      as [[results|e'|] w1]; cbn [fst snd] in *.
    + split; [discriminate|]. intros e H. discriminate.
    + destruct (Hc w1 e' eq_refl) as [[msg ->]|[[msg ->] Hl]]; cbn.
      * split; [discriminate|]. intros e H. injection H as <-. left. now exists msg.
      * split; [discriminate|]. intros e H. injection H as <-. right.
        split; [now exists msg|exact Hl].
    + now contradiction Hh.
  - cbn. split; [discriminate|]. intros e H. injection H as <-. right.
    split; [eexists; reflexivity|apply only_project_lookups_refl].
Qed.

Lemma search_tool_failures_are_classified_witness :
  exists e,
    fst (memoryBank_search Sample.extractor Sample.queryAnswer Sample.localeCompare
           (Sample.search_args "keyword" "hello" 3)
           (Sample.world_with Sample.keyword_chunks [None; Some Sample.unreachable])) = Throw e
    /\ ((exists msg, e = McpError InternalError msg)
        \/ ((exists msg, e = McpError InvalidParams msg)
            /\ only_project_lookups
                 (Sample.world_with Sample.keyword_chunks [None; Some Sample.unreachable])
                 (snd (memoryBank_search Sample.extractor Sample.queryAnswer
                         Sample.localeCompare
                         (Sample.search_args "keyword" "hello" 3)
                         (Sample.world_with Sample.keyword_chunks [None; Some Sample.unreachable]))))).
Proof.
  eexists. split; [vm_compute; reflexivity|].
  apply (proj2 (search_tool_failures_are_classified Sample.extractor Sample.queryAnswer
                  Sample.localeCompare (Sample.search_args "keyword" "hello" 3)
                  (Sample.world_with Sample.keyword_chunks [None; Some Sample.unreachable]))).
  vm_compute. reflexivity.
Defined.

(** X13: when the request of a search to the store fails, the search fails
    with an internal error that names the stage and carries the message of
    the client's failure: an outage is never reported as an empty list of
    results. *)
Theorem search_reports_store_failure
  (extractor : string -> option Embedding)
  (queryAnswer : Embedding -> Z -> Where -> list ChunkRow -> list Chroma.QueryRow)
  (localeCompare : string -> string -> Z)
  (pid q : string) (k : Z) (ff : option (list string)) (w w1 : World)
  (failure : string) :
  projectExists pid w = (Return true, w1) ->
  next_failure w1 = Some failure ->
  q <> "" -> k <> 0 ->
  fst (search extractor queryAnswer localeCompare pid q "keyword" k ff w)
  = Throw (McpError InternalError ("DB error during keyword search: " ++ failure))
  /\ (embedding_isInitialized w1 = true -> extractor q <> None ->
      fst (search extractor queryAnswer localeCompare pid q "semantic" k ff w)
      = Throw (McpError InternalError ("DB error during semantic search: " ++ failure))).
Proof.
  intros Hex Hfail Hq Hk.
  assert (Hdb : db_isInitialized w1 = true).
  { destruct (projectExists_quiet pid w) as [_ (_ & _ & Hd & _)].
    rewrite Hex in Hd. cbn [snd] in Hd. rewrite Hd.
    apply (projectExists_true_db pid w). now rewrite Hex. }
  unfold next_failure in Hfail.
  destruct (chroma_outages w1) as [|[m|] rest] eqn:Hout; try discriminate.
  injection Hfail as ->.
  split.
  - unfold search. unfold bind at 1. rewrite Hex. cbn [negb].
    destruct (String.eqb_spec q "") as [E|_]; [contradiction|].
    destruct (Z.eqb_spec k 0) as [E|_]; [contradiction|].
    cbn [orb String.eqb Ascii.eqb Bool.eqb].
    unfold keywordSearchChunks, ensureInitialized, Chroma.chunks_get.
    run_with Hdb Hout. reflexivity.
  - intros Hinit Hsome. unfold search. unfold bind at 1. rewrite Hex. cbn [negb].
    destruct (String.eqb_spec q "") as [E|_]; [contradiction|].
    destruct (Z.eqb_spec k 0) as [E|_]; [contradiction|].
    cbn [orb String.eqb Ascii.eqb Bool.eqb].
    destruct (extractor q) as [qe|] eqn:Eq; [|contradiction].
    unfold generateEmbedding, semanticSearchChunks, ensureInitialized, Chroma.chunks_query.
    unfold_run. rewrite Hinit. cbn [negb]. unfold_run. rewrite Eq.
    run_with Hdb Hout. reflexivity.
Qed.

Lemma search_reports_store_failure_witness :
  fst (search Sample.extractor Sample.queryAnswer Sample.localeCompare Sample.pid "hello"
              "keyword" 3 None
              (Sample.world_with Sample.keyword_chunks [None; Some Sample.unreachable]))
  = Throw (McpError InternalError
             "DB error during keyword search: Failed to connect to chromadb.")
  /\ fst (search Sample.extractor Sample.queryAnswer Sample.localeCompare Sample.pid "hello"
                 "semantic" 3 None
                 (Sample.world_with Sample.keyword_chunks [None; Some Sample.unreachable]))
     = Throw (McpError InternalError
                "DB error during semantic search: Failed to connect to chromadb.").
Proof.
  destruct (search_reports_store_failure Sample.extractor Sample.queryAnswer
              Sample.localeCompare Sample.pid "hello" 3 None
              (Sample.world_with Sample.keyword_chunks [None; Some Sample.unreachable])
              (snd (projectExists Sample.pid
                      (Sample.world_with Sample.keyword_chunks
                         [None; Some Sample.unreachable])))
              Sample.unreachable)
    as [Hk Hs].
  - vm_compute. reflexivity.
  - vm_compute. reflexivity.
  - discriminate.
  - discriminate.
  - split; [exact Hk|]. apply Hs; [vm_compute; reflexivity|vm_compute; discriminate].
Defined.

(* ----------------------------------------------------------------- *)
(** *** What a search can return *)

Lemma search_filter_scope (pid : string) (ff : option (list string)) (r : ChunkRow) :
  Chroma.matches (search_filter pid ff) r = true ->
  exists meta,
    row_metadata r = Some meta
    /\ project_id meta = pid
    /\ (forall f fs, ff = Some (f :: fs) -> In (file_name meta) (f :: fs)).
Proof.
  unfold Chroma.matches. destruct (row_metadata r) as [meta|].
  - intros H. exists meta. split; [reflexivity|].
    destruct ff as [[|f0 fs0]|]; cbn [search_filter forallb Chroma.holds] in H.
    + rewrite andb_true_r in H. apply String.eqb_eq in H. split; [exact H|].
      intros f fs E. discriminate.
    + apply andb_prop in H as [Hp Hf]. rewrite andb_true_r in Hf.
      apply String.eqb_eq in Hp. split; [exact Hp|].
      intros f fs E. injection E as <- <-.
      apply existsb_exists in Hf as (v & Hv & Ev). apply String.eqb_eq in Ev.
      now rewrite Ev.
    + rewrite andb_true_r in H. apply String.eqb_eq in H. split; [exact H|].
      intros f fs E. discriminate.
  - destruct ff as [[|f0 fs0]|]; cbn; discriminate.
Qed.

Lemma In_slice {A : Type} (l : list A) (a b : Z) (x : A) :
  In x (Js.slice l a b) -> In x l.
Proof.
  unfold Js.slice. intros H. apply In_firstn in H.
  rewrite <- (firstn_skipn (Z.to_nat (if a <? 0
                                      then Z.max (Z.of_nat (List.length l) + a) 0
                                      else Z.min a (Z.of_nat (List.length l)))) l).
  apply in_or_app. now right.
Qed.

Lemma search_filter_valid (pid : string) (ff : option (list string)) :
  Chroma.valid_where (Chroma.where_keys (search_filter pid ff)) = true ->
  ff = None \/ ff = Some [].
Proof. destruct ff as [[|f fs]|]; cbn; auto. discriminate. Qed.

Lemma keywordSearchChunks_Return_filter (localeCompare : string -> string -> Z)
      (projectId query : string) (topK : Z) (fileFilter : option (list string))
      (w w' : World) (chunks : list DatabaseSearchResult.t) :
  keywordSearchChunks localeCompare projectId query topK fileFilter w
  = (Return chunks, w') ->
  fileFilter = None \/ fileFilter = Some [].
Proof.
  unfold keywordSearchChunks, ensureInitialized, Chroma.chunks_get.
  destruct fileFilter as [[|f fs]|]; auto.
  cbn [search_filter]. unfold_run.
  destruct (db_isInitialized w); unfold_run; [|discriminate].
  destruct (chroma_outages w) as [|[m|] rest]; unfold_run; discriminate.
Qed.

Lemma sample_store_reports_stored_rows : reports_stored_rows Sample.queryAnswer.
Proof.
  intros qe n filter rows entry Hin. unfold Sample.queryAnswer in Hin.
  apply filter_In in Hin as [Hin _].
  apply in_flat_map in Hin as (row & Hrow & Hentry).
  apply filter_In in Hrow as [Hrow Hm].
  exists row. split; [exact Hrow|]. split; [exact Hm|].
  unfold Sample.entry in Hentry.
  destruct (row_embedding row); [|destruct Hentry].
  destruct Hentry as [<-|[]]. split; reflexivity.
Qed.

(** X14: a search that returns was given no file name to filter on, since
    the store refuses the [where] object that the service builds from a
    project id and a non-empty file filter; with a store that answers a
    query with rows it holds that satisfy the conditions, every result
    stands for a stored chunk of the project searched: a search never
    reports a chunk of another project. *)
Theorem search_results_stay_in_scope
  (extractor : string -> option Embedding)
  (queryAnswer : Embedding -> Z -> Where -> list ChunkRow -> list Chroma.QueryRow)
  (localeCompare : string -> string -> Z)
  (pid q st : string) (k : Z) (ff : option (list string)) (w w' : World)
  (results : list SearchResult.t) :
  reports_stored_rows queryAnswer ->
  search extractor queryAnswer localeCompare pid q st k ff w = (Return results, w') ->
  (ff = None \/ ff = Some [])
  /\ Forall (within_scope pid ff (chunksCollection w)) results.
Proof.
  intros Hstore H.
  apply search_Return_inv in H as (w1 & chunks & w2 & Hex & _ & _ & Hrun & ->).
  destruct (projectExists_quiet pid w) as [_ Hq]. rewrite Hex in Hq.
  destruct Hq as (Hchunks & _). cbn [snd] in Hchunks.
  destruct (st =? "semantic")%string eqn:Es.
  - apply bind_Return_inv in Hrun as (qe & w1' & Hemb & Hsem).
    apply generateEmbedding_Return_inv in Hemb as [_ Hsame].
    apply semanticSearchChunks_Return_inv in Hsem as [-> Hvalid].
    split; [now apply (search_filter_valid pid)|].
    apply Forall_forall. intros r Hr.
    apply (Permutation_in _ (sort_perm _ _)) in Hr.
    rewrite format_reported in Hr.
    apply in_flat_map in Hr as (qr & Hqr & Hr).
    apply Hstore in Hqr as (row & Hrow & Em & Hmeta & Hdoc).
    rewrite Hsame, Hchunks in Hrow.
    apply search_filter_scope in Em as (meta & Emeta & Hp & Hf).
    unfold reported in Hr. rewrite Hmeta, Hdoc, Emeta in Hr.
    destruct (row_document row) as [doc|] eqn:Ed; [|destruct Hr].
    destruct Hr as [<-|[]].
    exists row, meta. repeat split; try assumption.
    exists meta, doc. repeat split; assumption.
  - destruct (st =? "keyword")%string; [|discriminate].
    split; [exact (keywordSearchChunks_Return_filter _ _ _ _ _ _ _ _ Hrun)|].
    apply keywordSearchChunks_Return_inv in Hrun. subst chunks.
    apply Forall_forall. intros r Hr.
    apply in_map_iff in Hr as (x & <- & Hx).
    apply In_slice in Hx.
    apply (Permutation_in _ (sort_perm _ _)) in Hx.
    apply keyword_match_result in Hx as (_ & _ & row & Hrow & Hres).
    unfold keyword_pool in Hrow. apply In_firstn in Hrow.
    apply filter_In in Hrow as [Hrow Em].
    apply search_filter_scope in Em as (meta & Emeta & Hp & Hf).
    rewrite Hchunks in Hrow.
    exists row, meta. repeat split; assumption.
Qed.

Lemma search_results_stay_in_scope_witness :
  reports_stored_rows Sample.queryAnswer
  /\ (exists msg,
         fst (search Sample.extractor Sample.queryAnswer Sample.localeCompare Sample.pid
                "anything" "semantic" 2 (Some ["plan.md"])
                (Sample.world_with Sample.five_chunks []))
         = Throw (McpError InternalError msg))
  /\ exists results w',
      search Sample.extractor Sample.queryAnswer Sample.localeCompare Sample.pid "anything"
             "semantic" 2 None (Sample.world_with Sample.five_chunks [])
      = (Return results, w')
      /\ map SearchResult.text results = ["delta"; "alpha"]
      /\ (@None (list string) = None \/ @None (list string) = Some [])
      /\ Forall (within_scope Sample.pid None Sample.five_chunks) results.
Proof.
  split; [exact sample_store_reports_stored_rows|].
  split; [eexists; vm_compute; reflexivity|].
  eexists. eexists. split; [vm_compute; reflexivity|]. split; [reflexivity|].
  eapply (search_results_stay_in_scope Sample.extractor Sample.queryAnswer
            Sample.localeCompare Sample.pid "anything" "semantic" 2 None
            (Sample.world_with Sample.five_chunks [])).
  - exact sample_store_reports_stored_rows.
  - vm_compute. reflexivity.
Defined.

(* ----------------------------------------------------------------- *)
(** *** A project that is not recorded *)

Lemma no_row_with_id (pid : string) (rows : list ProjectRow) :
  ~ In pid (map project_row_id rows) ->
  List.filter (fun r => (project_row_id r =? pid)%string) rows = [].
Proof.
  induction rows as [|r rows IH]; [reflexivity|]. cbn [map filter]. intros H.
  destruct (String.eqb_spec (project_row_id r) pid) as [E|_].
  - exfalso. apply H. now left.
  - apply IH. intros Hin. apply H. now right.
Qed.

Lemma unknown_projectExists (pid : string) (w : World) :
  ~ In pid (map project_row_id (projectsCollection w)) ->
  db_isInitialized w = true ->
  next_call_fails w = false ->
  exists w1, projectExists pid w = (Return false, w1).
Proof.
  intros Hno Hdb Hnext. unfold projectExists.
  destruct (pid =? "")%string; [eexists; reflexivity|].
  unfold findProjectById, ensureInitialized, Chroma.projects_get, Chroma.limited.
  unfold_run. rewrite Hdb. unfold_run.
  unfold next_call_fails in Hnext.
  destruct (chroma_outages w) as [|[|] rest]; cbn [hd] in Hnext; try discriminate;
    unfold_run; rewrite (no_row_with_id pid _ Hno); eexists; reflexivity.
Qed.

(** X15: for an id that no row of the project collection carries, with a store
    that answers, every operation on the project's files and every search
    fails with the not-found [InvalidParams] error after nothing but the
    look-up of the project: the same error, whatever the other arguments
    are. *)
Theorem unknown_project_is_refused
  (tokenizer : PreTrainedTokenizer) (extractor : string -> option Embedding)
  (queryAnswer : Embedding -> Z -> Where -> list ChunkRow -> list Chroma.QueryRow) (localeCompare : string -> string -> Z)
  (uuidv4 : nat -> string) (toISOString : string -> option string)
  (pid : string) (w : World) :
  ~ In pid (map project_row_id (projectsCollection w)) ->
  db_isInitialized w = true ->
  next_call_fails w = false ->
  exists w1,
    only_project_lookups w w1
    /\ (forall fileName content,
           updateFileContent tokenizer extractor uuidv4 toISOString pid fileName content w
           = (Throw (project_not_found pid), w1))
    /\ (forall fileName,
           getFileContent pid fileName w = (Throw (project_not_found pid), w1))
    /\ listFiles pid w = (Throw (project_not_found pid), w1)
    /\ (forall fileName,
           deleteFileContent toISOString pid fileName w
           = (Throw (project_not_found pid), w1))
    /\ (forall q st k ff,
           search extractor queryAnswer localeCompare pid q st k ff w
           = (Throw (project_not_found pid), w1)).
Proof.
  intros Hno Hdb Hnext.
  destruct (unknown_projectExists pid w Hno Hdb Hnext) as [w1 Hex].
  exists w1. split.
  { destruct (projectExists_quiet pid w) as [_ Hq]. now rewrite Hex in Hq. }
  repeat match goal with |- _ /\ _ => split end; intros.
  - unfold updateFileContent. unfold bind at 1. now rewrite Hex.
  - unfold getFileContent. unfold bind at 1. now rewrite Hex.
  - unfold listFiles. unfold bind at 1. now rewrite Hex.
  - unfold deleteFileContent. unfold bind at 1. now rewrite Hex.
  - unfold search. unfold bind at 1. now rewrite Hex.
Qed.

Lemma unknown_project_is_refused_witness :
  exists w1,
    only_project_lookups (Sample.world_with Sample.five_chunks []) w1
    /\ (forall fileName content,
           updateFileContent Tokenizers.char_level Sample.extractor Sample.uuidv4
             Sample.toISOString
             "no-such-project" fileName content (Sample.world_with Sample.five_chunks [])
           = (Throw (project_not_found "no-such-project"), w1))
    /\ (forall fileName,
           getFileContent "no-such-project" fileName
             (Sample.world_with Sample.five_chunks [])
           = (Throw (project_not_found "no-such-project"), w1))
    /\ listFiles "no-such-project" (Sample.world_with Sample.five_chunks [])
       = (Throw (project_not_found "no-such-project"), w1)
    /\ (forall fileName,
           deleteFileContent Sample.toISOString "no-such-project" fileName
             (Sample.world_with Sample.five_chunks [])
           = (Throw (project_not_found "no-such-project"), w1))
    /\ (forall q st k ff,
           search Sample.extractor Sample.queryAnswer Sample.localeCompare
             "no-such-project" q st k ff (Sample.world_with Sample.five_chunks [])
           = (Throw (project_not_found "no-such-project"), w1)).
Proof.
  apply (unknown_project_is_refused Tokenizers.char_level Sample.extractor
           Sample.queryAnswer Sample.localeCompare Sample.uuidv4 Sample.toISOString
           "no-such-project" (Sample.world_with Sample.five_chunks [])).
  - cbn. intros [H|[]]. discriminate.
  - reflexivity.
  - reflexivity.
Defined.

(* ================================================================= *)
(** ** Creating and deleting projects *)

Lemma no_row_named (name : string) (rows : list ProjectRow) :
  List.filter (ChromaMore.has_name name) rows = [] <-> ~ In name (project_names rows).
Proof.
  induction rows as [|r rows IH]; [cbn; tauto|].
  unfold project_names in *. cbn [flat_map filter]. rewrite in_app_iff.
  unfold ChromaMore.has_name at 1.
  destruct (project_row_metadata r) as [m|].
  - destruct (String.eqb_spec (pm_project_name m) name) as [E|Hne].
    + split; [discriminate|]. intros H. exfalso. apply H. left. now left.
    + rewrite IH. cbn [In]. tauto.
  - rewrite IH. cbn [In]. tauto.
Qed.

Lemma findProjectByName_absent (name : string) (w : World) :
  db_isInitialized w = true ->
  chroma_outages w = [] ->
  ~ In name (project_names (projectsCollection w)) ->
  findProjectByName name w
  = (Return None, with_trace w (trace w ++ [EvProjectsGet name])).
Proof.
  intros Hdb Hout Hno. apply no_row_named in Hno.
  unfold findProjectByName, ensureInitialized, ChromaMore.projects_get_by_name,
    Chroma.limited.
  run_with Hdb Hout. rewrite Hno. reflexivity.
Qed.

Lemma findProjectByName_present (name : string) (w : World) :
  db_isInitialized w = true ->
  chroma_outages w = [] ->
  In name (project_names (projectsCollection w)) ->
  exists p,
    findProjectByName name w
    = (Return (Some p), with_trace w (trace w ++ [EvProjectsGet name])).
Proof.
  intros Hdb Hout Hin.
  unfold findProjectByName, ensureInitialized, ChromaMore.projects_get_by_name,
    Chroma.limited.
  run_with Hdb Hout. change (Z.to_nat 1) with 1%nat.
  destruct (List.filter (ChromaMore.has_name name) (projectsCollection w))
    as [|row rest] eqn:Ef.
  - exfalso. apply no_row_named in Ef. contradiction.
  - cbn [firstn].
    assert (Hrow : ChromaMore.has_name name row = true).
    { assert (Hr : In row (List.filter (ChromaMore.has_name name) (projectsCollection w)))
        by (rewrite Ef; now left).
      now apply filter_In in Hr. }
    unfold ChromaMore.has_name in Hrow.
    destruct (project_row_metadata row) as [meta|]; [|discriminate].
    eexists. reflexivity.
Qed.

(** What a call of [findProjectByName] that finds nothing says of the
    collection, and what it leaves as it was. *)
Lemma findProjectByName_None_inv (name : string) (w w1 : World) :
  findProjectByName name w = (Return None, w1) ->
  ~ In name (project_names (projectsCollection w))
  /\ projectsCollection w1 = projectsCollection w
  /\ chunksCollection w1 = chunksCollection w
  /\ uuid_count w1 = uuid_count w
  /\ clock w1 = clock w.
Proof.
  unfold findProjectByName, ensureInitialized, ChromaMore.projects_get_by_name,
    Chroma.limited.
  unfold_run. destruct (db_isInitialized w); unfold_run; [|discriminate].
  change (Z.to_nat 1) with 1%nat.
  assert (Hfirst : forall row rest,
             List.filter (ChromaMore.has_name name) (projectsCollection w) = row :: rest ->
             project_row_metadata row <> None).
  { intros row rest Ef.
    assert (Hr : In row (List.filter (ChromaMore.has_name name) (projectsCollection w)))
      by (rewrite Ef; now left).
    apply filter_In in Hr as [_ Hr]. unfold ChromaMore.has_name in Hr.
    destruct (project_row_metadata row); [discriminate|discriminate]. }
  destruct (chroma_outages w) as [|[|] o]; unfold_run; try discriminate;
    (destruct (List.filter (ChromaMore.has_name name) (projectsCollection w))
       as [|row rest] eqn:Ef; cbn [firstn]; unfold_run;
     [intros H; injection H as <-; split; [now apply no_row_named|repeat split]
     |specialize (Hfirst row rest eq_refl);
      destruct (project_row_metadata row); [discriminate|contradiction]]).
Qed.

Lemma insertProject_Return_inv (projectId_ name : string) (w w' : World) (p : Project.t) :
  insertProject projectId_ name w = (Return p, w') ->
  ~ In name (project_names (projectsCollection w))
  /\ p = {| Project.projectId := projectId_; Project.projectName := name;
            Project.createdAt := clock w; Project.lastModifiedAt := clock w |}
  /\ projectsCollection w' = projectsCollection w ++ [row_of_project p]
  /\ chunksCollection w' = chunksCollection w.
Proof.
  unfold insertProject. intros H.
  apply bind_Return_inv in H as ([] & w1 & Hinit & H).
  unfold ensureInitialized in Hinit.
  destruct (db_isInitialized w); [|discriminate]. injection Hinit as <-.
  apply bind_Return_inv in H as (now_ & w2 & Hnow & H).
  unfold now in Hnow. injection Hnow as <- <-.
  apply try_catch_Return_inv in H; [|intros; apply rethrow_never_returns].
  apply bind_Return_inv in H as (existing & w3 & Hfind & H).
  destruct existing as [q|]; [discriminate|].
  apply findProjectByName_None_inv in Hfind as (Hno & Hp & Hc & _ & _).
  split; [exact Hno|].
  apply bind_Return_inv in H as ([] & w4 & Hadd & H).
  unfold ret in H. injection H as <- <-.
  revert Hadd. unfold ChromaMore.projects_add. do 2 unfold_run.
  destruct (chroma_outages w3) as [|[|] o]; try discriminate;
    intros Hadd; injection Hadd as <-; cbn; rewrite Hp, Hc; repeat split.
Qed.

(** X16: a call of [createProject] that returns was given a name of 1 to 100
    characters that no row of the project collection carried; it adds one
    row, which carries that name, and so keeps the names of the collection
    distinct when they were. *)
Theorem createProject_keeps_names_unique
  (randomUUID : nat -> string) (name : string) (w w' : World) (p : Project.t) :
  createProject randomUUID name w = (Return p, w') ->
  1 <= Js.length name <= 100
  /\ ~ In name (project_names (projectsCollection w))
  /\ Project.projectName p = name
  /\ Project.projectId p = randomUUID (uuid_count w)
  /\ projectsCollection w' = projectsCollection w ++ [row_of_project p]
  /\ chunksCollection w' = chunksCollection w
  /\ (NoDup (project_names (projectsCollection w)) ->
      NoDup (project_names (projectsCollection w'))).
Proof.
  unfold createProject.
  destruct (String.eqb_spec name "") as [E|Hne]; [discriminate|].
  destruct (Z.ltb_spec 100 (Js.length name)) as [Hlong|Hlen]; [discriminate|].
  cbn [orb]. intros H.
  apply bind_Return_inv in H as (existing & w1 & Hfind & H).
  destruct existing as [q|]; [discriminate|].
  apply findProjectByName_None_inv in Hfind as (Hno & Hp1 & Hc1 & Hu1 & _).
  apply bind_Return_inv in H as (pid & w2 & Hid & H).
  injection Hid as <- <-.
  apply try_catch_Return_inv in H; [|intros; discriminate].
  apply insertProject_Return_inv in H as (_ & -> & Hp & Hc).
  cbn [projectsCollection chunksCollection clock with_uuid_count] in Hp, Hc |- *.
  rewrite Hp1 in Hp. rewrite Hc1 in Hc. rewrite Hu1 in Hp |- *.
  split.
  { split; [|exact Hlen]. unfold Js.length in *.
    destruct name; [congruence|]. cbn [String.length]. lia. }
  repeat match goal with |- _ /\ _ => split end; try assumption; try reflexivity.
  intros Hnd. rewrite Hp. unfold project_names in *. rewrite flat_map_app.
  cbn [flat_map row_of_project project_row_metadata pm_project_name Project.projectName
       app].
  apply NoDup_app; [exact Hnd|repeat constructor; intros []|].
  intros x Hx [<-|[]]. contradiction.
Qed.

Lemma insertProject_run (pid name : string) (w : World) :
  db_isInitialized w = true ->
  chroma_outages w = [] ->
  ~ In name (project_names (projectsCollection w)) ->
  exists p w',
    insertProject pid name w = (Return p, w')
    /\ Project.projectId p = pid
    /\ Project.projectName p = name
    /\ projectsCollection w' = projectsCollection w ++ [row_of_project p]
    /\ chunksCollection w' = chunksCollection w
    /\ db_isInitialized w' = true
    /\ chroma_outages w' = [].
Proof.
  intros Hdb Hout Hno.
  pose proof (findProjectByName_absent name w Hdb Hout Hno) as Hfind.
  unfold insertProject, ensureInitialized, now.
  unfold bind at 1. rewrite Hdb. unfold bind at 1. unfold try_catch. unfold bind at 1.
  rewrite Hfind. unfold ChromaMore.projects_add. run_with Hdb Hout.
  eexists. eexists. split; [reflexivity|]. cbn. repeat split; assumption.
Qed.

(** X17: creating a project under a fresh name, with a store that answers and a
    generated id that is new, returns the project; from then on
    [projectExists] finds it, and a second [createProject] with the same
    name is rejected with [InvalidParams] and adds nothing. *)
Theorem created_project_is_found_and_its_name_taken
  (randomUUID : nat -> string) (name : string) (w : World) :
  name <> "" -> Js.length name <= 100 ->
  ~ In name (project_names (projectsCollection w)) ->
  randomUUID (uuid_count w) <> "" ->
  ~ In (randomUUID (uuid_count w)) (map project_row_id (projectsCollection w)) ->
  db_isInitialized w = true ->
  chroma_outages w = [] ->
  exists p w',
    createProject randomUUID name w = (Return p, w')
    /\ Project.projectId p = randomUUID (uuid_count w)
    /\ Project.projectName p = name
    /\ fst (projectExists (Project.projectId p) w') = Return true
    /\ fst (createProject randomUUID name w')
       = Throw (McpError InvalidParams ("Project name '" ++ name ++ "' already exists."))
    /\ stores_kept w' (snd (createProject randomUUID name w')).
Proof.
  intros Hne Hlen Hno Hid Hfresh Hdb Hout.
  pose proof (findProjectByName_absent name w Hdb Hout Hno) as Hfind.
  set (w1 := with_uuid_count (with_trace w (trace w ++ [EvProjectsGet name]))
                             (S (uuid_count w))).
  destruct (insertProject_run (randomUUID (uuid_count w)) name w1 Hdb Hout Hno)
    as (p & w' & Hins & Hpid & Hname & Hrows & Hchunks & Hdb' & Hout').
  assert (Hcond : ((name =? "")%string || (100 <? Js.length name))%bool = false).
  { destruct (String.eqb_spec name "") as [E|_]; [contradiction|].
    destruct (Z.ltb_spec 100 (Js.length name)); [lia|reflexivity]. }
  exists p, w'. split.
  { unfold createProject. rewrite Hcond. unfold bind at 1. rewrite Hfind.
    unfold bind at 1. cbn [uuid_count with_trace]. fold w1.
    unfold try_catch. rewrite Hins. reflexivity. }
  split; [exact Hpid|]. split; [exact Hname|].
  cbn [projectsCollection with_uuid_count with_trace w1] in Hrows.
  split.
  - rewrite (known_projectExists (Project.projectId p) w'); [reflexivity| |exact Hdb'|exact Hout'].
    split; [now rewrite Hpid|].
    exists (row_of_project p), [], {| pm_project_id := Project.projectId p;
                                      pm_project_name := Project.projectName p;
                                      pm_created_at := Project.createdAt p;
                                      pm_last_modified_at := Project.lastModifiedAt p |}.
    split; [|reflexivity].
    rewrite Hrows, filter_app, Hpid, (no_row_with_id _ _ Hfresh).
    cbn [filter row_of_project project_row_id app]. rewrite Hpid, String.eqb_refl.
    reflexivity.
  - assert (Htaken : In name (project_names (projectsCollection w'))).
    { rewrite Hrows. unfold project_names. rewrite flat_map_app. apply in_or_app. right.
      cbn. left. exact Hname. }
    destruct (findProjectByName_present name w' Hdb' Hout' Htaken) as [q Hq].
    unfold createProject. rewrite Hcond. unfold bind at 1. rewrite Hq.
    unfold bind at 1. rewrite Hq. cbn. split; [reflexivity|split; reflexivity].
Qed.

Lemma created_project_is_found_and_its_name_taken_witness :
  exists p w',
    createProject (fun n => ("project-" ++ Js.repeat_string n "i")%string) "notes"
                  (Sample.world_with Sample.five_chunks [])
    = (Return p, w')
    /\ Project.projectId p = "project-"
    /\ Project.projectName p = "notes"
    /\ fst (projectExists (Project.projectId p) w') = Return true
    /\ fst (createProject (fun n => ("project-" ++ Js.repeat_string n "i")%string)
                          "notes" w')
       = Throw (McpError InvalidParams "Project name 'notes' already exists.")
    /\ stores_kept w'
         (snd (createProject (fun n => ("project-" ++ Js.repeat_string n "i")%string)
                             "notes" w')).
Proof.
  apply (created_project_is_found_and_its_name_taken
           (fun n => ("project-" ++ Js.repeat_string n "i")%string) "notes"
           (Sample.world_with Sample.five_chunks [])).
  - discriminate.
  - vm_compute. discriminate.
  - cbn. intros [H|[]]. discriminate.
  - discriminate.
  - cbn. intros [H|[]]. discriminate.
  - reflexivity.
  - reflexivity.
Defined.

Lemma createProject_keeps_names_unique_witness :
  exists p w',
    createProject (fun n => ("project-" ++ Js.repeat_string n "i")%string) "notes"
                  (Sample.world_with Sample.five_chunks [])
    = (Return p, w')
    /\ ~ In "notes" (project_names [Sample.project_row])
    /\ projectsCollection w' = [Sample.project_row; row_of_project p]
    /\ (NoDup (project_names [Sample.project_row]) ->
        NoDup (project_names (projectsCollection w'))).
Proof.
  eexists. eexists. split; [vm_compute; reflexivity|].
  destruct (createProject_keeps_names_unique
              (fun n => ("project-" ++ Js.repeat_string n "i")%string) "notes"
              (Sample.world_with Sample.five_chunks []) _ _ eq_refl)
    as (_ & Hno & _ & _ & Hrows & _ & Hnd).
  split; [exact Hno|]. split; [exact Hrows|exact Hnd].
Defined.

Lemma findProjectById_known (pid : string) (w : World) :
  known_project pid (projectsCollection w) ->
  db_isInitialized w = true ->
  chroma_outages w = [] ->
  exists p,
    findProjectById pid w
    = (Return (Some p), with_trace w (trace w ++ [EvProjectsGet pid])).
Proof.
  intros (_ & row & rest & meta & Hrows & Hmeta) Hdb Hout.
  unfold findProjectById, ensureInitialized, Chroma.projects_get, Chroma.limited.
  run_with Hdb Hout. change (Z.to_nat 1) with 1%nat. rewrite Hrows. cbn [firstn].
  rewrite Hmeta. eexists. reflexivity.
Qed.

Lemma findProjectById_unknown (pid : string) (w : World) :
  ~ In pid (map project_row_id (projectsCollection w)) ->
  db_isInitialized w = true ->
  chroma_outages w = [] ->
  findProjectById pid w = (Return None, with_trace w (trace w ++ [EvProjectsGet pid])).
Proof.
  intros Hno Hdb Hout.
  unfold findProjectById, ensureInitialized, Chroma.projects_get, Chroma.limited.
  run_with Hdb Hout. rewrite (no_row_with_id pid _ Hno). reflexivity.
Qed.

Lemma id_removed (pid : string) (rows : list ProjectRow) :
  ~ In pid (map project_row_id
              (List.filter (fun r => negb (project_row_id r =? pid)%string) rows)).
Proof.
  intros H. apply in_map_iff in H as (r & E & Hr).
  apply filter_In in Hr as [_ Hr]. rewrite E, String.eqb_refl in Hr. discriminate.
Qed.

(** X18: deleting an existing project, with a store that answers, removes every
    chunk of the project and the project's rows and nothing else. From then
    on the project does not exist: no file of it is left, [listFiles] and a
    second [deleteProject] fail with the not-found error. *)
Theorem deleteProject_cascades (pid : string) (w : World) :
  fst (projectExists pid w) = Return true ->
  chroma_outages w = [] ->
  exists w',
    deleteProject pid w = (Return true, w')
    /\ chunksCollection w'
       = List.filter (fun r => negb (Chroma.matches [project_id_eq pid] r))
                     (chunksCollection w)
    /\ projectsCollection w'
       = List.filter (fun r => negb (project_row_id r =? pid)%string)
                     (projectsCollection w)
    /\ (forall fileName, ~ file_of_project pid fileName (chunksCollection w'))
    /\ fst (projectExists pid w') = Return false
    /\ fst (listFiles pid w') = Throw (project_not_found pid)
    /\ fst (deleteProject pid w') = Throw (project_not_found pid).
Proof.
  intros Hex Hout.
  pose proof (projectExists_true_known pid w Hex) as Hk.
  pose proof (projectExists_true_db pid w Hex) as Hdb.
  destruct (findProjectById_known pid w Hk Hdb Hout) as [p Hfind].
  assert (Hne : (pid =? "")%string = false)
    by (destruct Hk as [Hne _]; now apply String.eqb_neq).
  assert (Hrun : exists w',
             deleteProject pid w = (Return true, w')
             /\ chunksCollection w'
                = List.filter (fun r => negb (Chroma.matches [project_id_eq pid] r))
                              (chunksCollection w)
             /\ projectsCollection w'
                = List.filter (fun r => negb (project_row_id r =? pid)%string)
                              (projectsCollection w)
             /\ db_isInitialized w' = true
             /\ chroma_outages w' = []).
  { unfold deleteProject. rewrite Hne. unfold bind at 1. rewrite Hfind.
    unfold deleteMemoryBankContentByProject, deleteProjectRecord, ensureInitialized,
      ChromaMore.chunks_delete_where, ChromaMore.projects_delete.
    run_with Hdb Hout. eexists. split; [reflexivity|]. cbn.
    repeat split; assumption. }
  destruct Hrun as (w' & Hdel & Hchunks & Hrows & Hdb' & Hout').
  assert (Hgone : ~ In pid (map project_row_id (projectsCollection w')))
    by (rewrite Hrows; apply id_removed).
  assert (Hnext : next_call_fails w' = false)
    by (unfold next_call_fails; now rewrite Hout').
  destruct (unknown_projectExists pid w' Hgone Hdb' Hnext) as [w1 Hex'].
  exists w'. split; [exact Hdel|]. split; [exact Hchunks|]. split; [exact Hrows|].
  split; [|split; [|split]].
  - intros fileName (row & meta & Hin & Em & Hp & _).
    rewrite Hchunks in Hin. apply filter_In in Hin as [_ Hin].
    assert (Hm : Chroma.matches [project_id_eq pid] row = true)
      by (apply matches_project; now exists meta).
    rewrite Hm in Hin. discriminate.
  - now rewrite Hex'.
  - unfold listFiles. unfold bind at 1. now rewrite Hex'.
  - unfold deleteProject. rewrite Hne. unfold bind at 1.
    now rewrite (findProjectById_unknown pid w' Hgone Hdb' Hout').
Qed.

Lemma deleteProject_cascades_witness :
  exists w',
    deleteProject Sample.pid (Sample.world_with Sample.five_chunks []) = (Return true, w')
    /\ chunksCollection w' = []
    /\ projectsCollection w' = []
    /\ fst (projectExists Sample.pid w') = Return false
    /\ fst (listFiles Sample.pid w') = Throw (project_not_found Sample.pid)
    /\ fst (deleteProject Sample.pid w') = Throw (project_not_found Sample.pid).
Proof.
  destruct (deleteProject_cascades Sample.pid (Sample.world_with Sample.five_chunks []))
    as (w' & Hdel & Hchunks & Hrows & _ & Hex & Hlist & Hagain).
  - vm_compute. reflexivity.
  - reflexivity.
  - exists w'. split; [exact Hdel|]. split; [exact Hchunks|]. split; [exact Hrows|].
    split; [exact Hex|]. split; [exact Hlist|exact Hagain].
Defined.

(* ================================================================= *)
(** ** The memoryBank_updateFile tool *)

(** X19: a call of the update tool with a project id and a file name that the
    schema accepts stores the chunks of the trimmed content: under the
    conditions of a successful update the call returns, and reading the file
    back gives the chunks of the content without its leading and trailing
    white space. *)
Theorem updateFile_tool_stores_trimmed_content
  (tokenizer : PreTrainedTokenizer) (extractor : string -> option Embedding)
  (uuidv4 : nat -> string) (toISOString : string -> option string)
  (pid fileName content : string)
  (chunks : list string) (w : World) :
  is_uuid pid = true ->
  parse_file_name (JString fileName) = Some fileName ->
  chunk tokenizer (Js.trim content) = Some chunks ->
  chunks <> [] ->
  (forall c, In c chunks -> extractor c <> None) ->
  fst (projectExists pid w) = Return true ->
  created_at_parses toISOString pid (projectsCollection w) ->
  chroma_outages w = [] ->
  embedding_isInitialized w = true ->
  exists w',
    memoryBank_updateFile tokenizer extractor uuidv4 toISOString
      {| raw_update_projectId := Some (JString pid);
         raw_update_fileName := Some (JString fileName);
         raw_update_content := Some (JString content) |} w
    = (Return tt, w')
    /\ fst (getFileContent pid fileName w') = Return (concatenation chunks).
Proof.
  intros Huuid Hname Hchunk Hne Hall Hex Hdate Hout Hinit.
  assert (Htrim : Js.trim content <> "").
  { intros E. rewrite E, chunk_empty in Hchunk. now injection Hchunk as <-. }
  assert (Hf : fileName <> "") by (intros ->; cbn in Hname; discriminate).
  destruct (update_and_read_run tokenizer extractor uuidv4 toISOString pid fileName
              (Js.trim content) chunks w Hex Hdate Hout Hinit Hf Hchunk Hne Hall)
    as (w' & Hrun & _ & Hread).
  exists w'. split; [|exact Hread].
  unfold memoryBank_updateFile, parse_update_args, parse_projectId, parse_fileName,
    parse_content.
  cbn [raw_update_projectId raw_update_fileName raw_update_content].
  rewrite Huuid, Hname.
  destruct (Js.trim content) as [|a rest] eqn:Et; [contradiction|].
  cbn [String.length Nat.leb update_projectId update_fileName update_content].
  unfold try_catch. rewrite Hrun. reflexivity.
Qed.

Lemma updateFile_tool_stores_trimmed_content_witness :
  created_at_parses Sample.toISOString Sample.pid
    (projectsCollection (Sample.world_with Sample.five_chunks []))
  /\ exists w',
      memoryBank_updateFile Tokenizers.char_level Sample.extractor Sample.uuidv4
        Sample.toISOString
        {| raw_update_projectId := Some (JString Sample.pid);
           raw_update_fileName := Some (JString "notes.md");
           raw_update_content := Some (JString ("  hello world " ++ LF)) |}
        (Sample.world_with Sample.five_chunks [])
      = (Return tt, w')
      /\ fst (getFileContent Sample.pid "notes.md" w') = Return "hello world".
Proof.
  split; [do 4 eexists; vm_compute; repeat split|].
  apply (updateFile_tool_stores_trimmed_content Tokenizers.char_level Sample.extractor
           Sample.uuidv4 Sample.toISOString Sample.pid "notes.md"
           ("  hello world " ++ LF) ["hello world"]
           (Sample.world_with Sample.five_chunks [])).
  - vm_compute. reflexivity.
  - vm_compute. reflexivity.
  - vm_compute. reflexivity.
  - discriminate.
  - intros c [<-|[]]. vm_compute. discriminate.
  - vm_compute. reflexivity.
  - do 4 eexists; vm_compute; repeat split.
  - reflexivity.
  - reflexivity.
Defined.

(* ================================================================= *)
(** ** An update that fails while it inserts *)

Lemma known_projectExists_answers (projectId : string) (rest : list (option string))
      (w : World) :
  known_project projectId (projectsCollection w) ->
  db_isInitialized w = true ->
  chroma_outages w = None :: rest ->
  projectExists projectId w
  = (Return true,
     with_outages (with_trace w (trace w ++ [EvProjectsGet projectId])) rest).
Proof.
  intros (Hne & row & rows & meta & Hrows & Hmeta) Hdb Hout.
  unfold projectExists.
  destruct (String.eqb_spec projectId "") as [E|_]; [congruence|].
  unfold findProjectById, ensureInitialized, Chroma.projects_get, Chroma.limited.
  change (Z.to_nat 1) with 1%nat.
  run_with Hdb Hout. rewrite Hrows. cbn [firstn].
  rewrite Hmeta. reflexivity.
Qed.

Lemma delete_old_chunks_answers (projectId fileName : string) (rest : list (option string))
      (w : World) :
  db_isInitialized w = true ->
  chroma_outages w = None :: None :: rest ->
  file_ids projectId fileName (chunksCollection w) <> [] ->
  exists w',
    deleteMemoryBankContentByFile projectId fileName w = (Return true, w')
    /\ chunksCollection w'
       = without_ids (file_ids projectId fileName (chunksCollection w)) (chunksCollection w)
    /\ projectsCollection w' = projectsCollection w
    /\ db_isInitialized w' = true
    /\ chroma_outages w' = rest
    /\ embedding_isInitialized w' = embedding_isInitialized w.
Proof.
  intros Hdb Hout Hids.
  unfold deleteMemoryBankContentByFile, ensureInitialized, Chroma.chunks_get,
    Chroma.chunks_delete.
  unfold_run. rewrite Hdb. unfold_run. rewrite Hout. unfold_run.
  unfold Chroma.limited.
  fold (file_ids projectId fileName (chunksCollection w)).
  pose proof (eq_refl (file_ids projectId fileName (chunksCollection w))) as Hsame.
  unfold file_ids at 2 in Hsame.
  destruct (List.filter (Chroma.matches [project_id_eq projectId]) (chunksCollection w))
    as [|r0 rs] eqn:Erows.
  - cbn in Hsame. congruence.
  - destruct (file_ids projectId fileName (chunksCollection w)) as [|i ids] eqn:Eids;
      [congruence|].
    unfold_run. eexists. split; [reflexivity|]. cbn.
    repeat split; try assumption.
Qed.

Lemma stored_texts_app (projectId fileName : string) (l1 l2 : list ChunkRow) :
  stored_texts projectId fileName (l1 ++ l2)
  = stored_texts projectId fileName l1 ++ stored_texts projectId fileName l2.
Proof. unfold stored_texts. apply flat_map_app. Qed.

Lemma stored_texts_inserted (uuidv4 : nat -> string) (projectId fileName now_ : string)
      (es : list Embedding) (chunks : list string) :
  forall n i,
    stored_texts projectId fileName
      (inserted_rows uuidv4 projectId fileName now_ es n i chunks)
    = mapi_from i (fun c i => (i, c)) chunks.
Proof.
  induction chunks as [|c cs IH]; intros n i; [reflexivity|].
  cbn [inserted_rows mapi_from]. unfold stored_texts in *. cbn [flat_map].
  cbn [row_metadata row_document project_id file_name chunk_index].
  rewrite !String.eqb_refl. cbn [andb app]. now rewrite IH.
Qed.

Lemma inserted_row_has_text (uuidv4 : nat -> string) (projectId fileName now_ : string)
      (es : list Embedding) (chunks : list string) (r : ChunkRow) :
  forall n i,
    In r (inserted_rows uuidv4 projectId fileName now_ es n i chunks) ->
    stored_texts projectId fileName [r] <> [].
Proof.
  induction chunks as [|c cs IH]; intros n i Hin; [destruct Hin|].
  cbn [inserted_rows] in Hin. destruct Hin as [<-|Hin]; [|exact (IH _ _ Hin)].
  unfold stored_texts. cbn [flat_map row_metadata row_document project_id file_name].
  rewrite !String.eqb_refl. discriminate.
Qed.

Lemma outage_after_answers (k n : nat) (failure : string) (after : list (option string)) :
  (k < n)%nat ->
  ~ answered n (repeat None k ++ [Some failure]) after.
Proof.
  intros Hk [_ Hall]. revert n Hk Hall. induction k as [|k IH]; intros n Hk Hall.
  - destruct n; [lia|]. cbn in Hall. inversion Hall. discriminate.
  - destruct n; [lia|]. cbn in Hall. inversion Hall; subst. apply (IH n); [lia|assumption].
Qed.

Lemma outage_position (k j : nat) (failure m : string) (after : list (option string)) :
  repeat None k ++ [Some failure] = repeat None j ++ Some m :: after ->
  m = failure.
Proof.
  revert j. induction k as [|k IH]; intros [|j] H; cbn in H.
  - now injection H as ->.
  - discriminate.
  - discriminate.
  - injection H as H. exact (IH j H).
Qed.

(** X20: the update is not atomic. When the store answers up to the
    deletion of the old chunks of the file and one of the inserts fails
    after [k] of them have been answered, the update fails with an internal
    error that carries the message of the failure. At that point the old
    chunks of the file are gone and what is stored for the file are new
    chunks, but not all of them; the project's timestamp is not updated. *)
Theorem failed_insert_leaves_a_partial_file
  (tokenizer : PreTrainedTokenizer) (extractor : string -> option Embedding)
  (uuidv4 : nat -> string) (toISOString : string -> option string)
  (projectId fileName content : string)
  (chunks : list string) (k : nat) (failure : string) (w : World) :
  fst (projectExists projectId w) = Return true ->
  embedding_isInitialized w = true ->
  fileName <> "" ->
  chunk tokenizer content = Some chunks ->
  (forall c, In c chunks -> extractor c <> None) ->
  file_ids projectId fileName (chunksCollection w) <> [] ->
  (k < List.length chunks)%nat ->
  chroma_outages w = [None; None; None] ++ repeat None k ++ [Some failure] ->
  exists w' missing,
    updateFileContent tokenizer extractor uuidv4 toISOString projectId fileName content w
    = (Throw (McpError InternalError ("DB error inserting chunk: " ++ failure)), w')
    /\ missing <> []
    /\ Permutation (stored_texts projectId fileName (chunksCollection w') ++ missing)
                   (mapi (fun c i => (i, c)) chunks)
    /\ projectsCollection w' = projectsCollection w.
Proof.
  intros Hex Hinit Hf Hchunk Hall Hold Hk Hout.
  assert (Hc : content <> "").
  { intros ->. rewrite chunk_empty in Hchunk. injection Hchunk as <-. cbn in Hk. lia. }
  assert (Hne : chunks <> []) by (intros ->; cbn in Hk; lia).
  pose proof (projectExists_true_known projectId w Hex) as Hkn.
  pose proof (projectExists_true_db projectId w Hex) as Hdb.
  set (w1 := with_outages (with_trace w (trace w ++ [EvProjectsGet projectId]))
                          ([None; None] ++ repeat None k ++ [Some failure])).
  assert (Hrun : projectExists projectId w = (Return true, w1))
    by (apply known_projectExists_answers; assumption).
  destruct (embeddings_batch_returns extractor chunks Hall w1 Hinit) as (es & l & Hemb).
  set (w2 := with_arrivals (with_trace w1 (trace w1 ++ map EvExtractor chunks)) l) in *.
  destruct (delete_old_chunks_answers projectId fileName (repeat None k ++ [Some failure])
              w2 Hdb eq_refl Hold)
    as (w3 & Hdel & Hchunks3 & Hproj3 & Hdb3 & Hout3 & _).
  change (chunksCollection w2) with (chunksCollection w) in Hchunks3.
  pose proof (inserts_run uuidv4 projectId fileName es chunks 0 w3 Hdb3) as Hins.
  destruct (Promise_all _ w3) as [[rs|e|] w4] eqn:Eins.
  - exfalso. destruct Hins as (landed & Hperm & _ & _ & _ & _ & Hans).
    rewrite Hout3 in Hans. apply Permutation_length in Hperm.
    apply (outage_after_answers k (List.length landed) failure _) in Hans; [exact Hans|].
    rewrite Hperm.
    assert (Hlen : forall n i, List.length (inserted_rows uuidv4 projectId fileName
                                              (clock w3) es n i chunks)
                               = List.length chunks).
    { clear. induction chunks as [|c cs IH]; intros n i; cbn; [reflexivity|].
      now rewrite IH. }
    now rewrite Hlen.
  - destruct Hins as (landed & m & left & -> & Hperm & Hleft & Hchunks4 & Hproj4 & Hout4).
    rewrite Hout3 in Hout4. apply outage_position in Hout4. subst m.
    exists w4, (stored_texts projectId fileName left).
    split; [|split; [|split]].
    + unfold updateFileContent. unfold bind at 1. rewrite Hrun. cbn [negb].
      destruct (String.eqb_spec fileName "") as [E|_]; [congruence|].
      destruct (String.eqb_spec content "") as [E|_]; [congruence|].
      cbn [orb].
      unfold try_catch at 1. unfold bind at 1. rewrite chunkText_run.
      replace (embedding_isInitialized w1) with true by (symmetry; exact Hinit).
      rewrite Hchunk.
      destruct chunks as [|c0 cs]; [congruence|].
      unfold bind at 1. unfold try_catch at 1. rewrite Hemb.
      unfold bind at 1. rewrite Hdel.
      unfold bind at 1. unfold mapi. rewrite Eins. reflexivity.
    + destruct left as [|r left']; [congruence|].
      change (r :: left') with ([r] ++ left'). rewrite stored_texts_app.
      assert (Hin : In r (inserted_rows uuidv4 projectId fileName (clock w3) es
                            (uuid_count w3) 0 chunks)).
      { apply (Permutation_in _ Hperm). apply in_or_app. right. now left. }
      apply inserted_row_has_text in Hin.
      destruct (stored_texts projectId fileName [r]); [congruence|discriminate].
    + rewrite Hchunks4, Hchunks3, stored_texts_app.
      rewrite <- (stored_chunks_texts projectId fileName (without_ids _ _)).
      rewrite without_file_ids_none_left. cbn [flat_map map app].
      rewrite <- stored_texts_app. unfold mapi.
      rewrite <- (stored_texts_inserted uuidv4 projectId fileName (clock w3) es chunks
                    (uuid_count w3) 0).
      unfold stored_texts. apply Permutation_flat_map. exact Hperm.
    + rewrite Hproj4, Hproj3. reflexivity.
  - destruct Hins.
Qed.

Lemma failed_insert_leaves_a_partial_file_witness :
  stored_texts Sample.pid "notes.md"
    (chunksCollection
       (snd (updateFileContent Tokenizers.char_level Sample.extractor Sample.uuidv4
               Sample.toISOString Sample.pid
               "notes.md" (Js.repeat_string 500 "x")
               (Sample.world_in_order Sample.five_chunks
                  [None; None; None; None; Some Sample.unreachable] [0; 0; 1]%nat))))
  = [(1, Js.repeat_string 100 "x")]
  /\ exists w' missing,
      updateFileContent Tokenizers.char_level Sample.extractor Sample.uuidv4
        Sample.toISOString Sample.pid
        "notes.md" (Js.repeat_string 500 "x")
        (Sample.world_in_order Sample.five_chunks
           [None; None; None; None; Some Sample.unreachable] [0; 0; 1]%nat)
      = (Throw (McpError InternalError
                  "DB error inserting chunk: Failed to connect to chromadb."), w')
      /\ missing <> []
      /\ Permutation (stored_texts Sample.pid "notes.md" (chunksCollection w') ++ missing)
                     (mapi (fun c i => (i, c))
                           [Js.repeat_string 450 "x"; Js.repeat_string 100 "x"])
      /\ projectsCollection w' = [Sample.project_row].
Proof.
  split; [vm_compute; reflexivity|].
  apply (failed_insert_leaves_a_partial_file Tokenizers.char_level Sample.extractor
           Sample.uuidv4 Sample.toISOString Sample.pid "notes.md" (Js.repeat_string 500 "x")
           [Js.repeat_string 450 "x"; Js.repeat_string 100 "x"] 1 Sample.unreachable
           (Sample.world_in_order Sample.five_chunks
              [None; None; None; None; Some Sample.unreachable] [0; 0; 1]%nat)).
  - vm_compute. reflexivity.
  - reflexivity.
  - discriminate.
  - vm_compute. reflexivity.
  - intros c [<-|[<-|[]]]; vm_compute; discriminate.
  - vm_compute. discriminate.
  - cbn. lia.
  - reflexivity.
Defined.

(* ================================================================= *)
(** ** An update and the other files *)

Lemma filter_none {A : Type} (f : A -> bool) (l : list A) :
  (forall x, In x l -> f x = false) -> List.filter f l = [].
Proof.
  induction l as [|x l IH]; intros H; [reflexivity|]. cbn [List.filter].
  rewrite (H x (or_introl eq_refl)). apply IH. intros y Hy. apply H. now right.
Qed.

Lemma inserted_rows_all_of_file (uuidv4 : nat -> string) (projectId fileName now_ : string)
      (embeddings : list Embedding) (chunks : list string) :
  forall n i,
    List.filter
      (fun r => negb (Chroma.matches [project_id_eq projectId; file_name_eq fileName] r))
      (inserted_rows uuidv4 projectId fileName now_ embeddings n i chunks)
    = [].
Proof.
  induction chunks as [|c cs IH]; intros n i; [reflexivity|].
  cbn [inserted_rows List.filter]. unfold Chroma.matches at 1.
  cbn [forallb row_metadata Chroma.holds project_id file_name].
  rewrite !String.eqb_refl. cbn [andb negb]. apply IH.
Qed.

Lemma filter_twice {A : Type} (f : A -> bool) (l : list A) :
  List.filter f (List.filter f l) = List.filter f l.
Proof.
  induction l as [|x l IH]; [reflexivity|]. cbn [List.filter].
  destruct (f x) eqn:E; [|exact IH]. cbn [List.filter]. now rewrite E, IH.
Qed.

Lemma other_file_filter (p f p' f' : string) (rows : list ChunkRow) :
  (p', f') <> (p, f) ->
  List.filter (Chroma.matches [project_id_eq p'; file_name_eq f'])
    (List.filter (fun r => negb (Chroma.matches [project_id_eq p; file_name_eq f] r)) rows)
  = List.filter (Chroma.matches [project_id_eq p'; file_name_eq f']) rows.
Proof.
  intros Hne. induction rows as [|r rows IH]; [reflexivity|]. cbn [List.filter].
  destruct (Chroma.matches [project_id_eq p; file_name_eq f] r) eqn:Em; cbn [negb].
  - destruct (Chroma.matches [project_id_eq p'; file_name_eq f'] r) eqn:Em'; [|exact IH].
    exfalso. apply Hne.
    unfold Chroma.matches in Em, Em'. cbn [forallb] in Em, Em'.
    destruct (row_metadata r) as [meta|]; [|discriminate].
    cbn [Chroma.holds] in Em, Em'. rewrite andb_true_r in Em, Em'.
    apply andb_prop in Em as [E1 E2]. apply andb_prop in Em' as [E1' E2'].
    apply String.eqb_eq in E1, E2, E1', E2'. congruence.
  - cbn [List.filter]. now rewrite IH.
Qed.

(** X21: with ids that are unique in the chunk collection, a successful
    update of one file keeps every row of the other files and of the other
    projects, in its order: what is stored for any other project or file is
    as it was. *)
Theorem update_leaves_other_files_alone
  (tokenizer : PreTrainedTokenizer) (extractor : string -> option Embedding)
  (uuidv4 : nat -> string) (toISOString : string -> option string)
  (pid fileName content : string)
  (chunks : list string) (w : World) :
  fst (projectExists pid w) = Return true ->
  created_at_parses toISOString pid (projectsCollection w) ->
  chroma_outages w = [] ->
  embedding_isInitialized w = true ->
  fileName <> "" ->
  chunk tokenizer content = Some chunks ->
  chunks <> [] ->
  (forall c, In c chunks -> extractor c <> None) ->
  NoDup (map row_id (chunksCollection w)) ->
  exists w',
    updateFileContent tokenizer extractor uuidv4 toISOString pid fileName content w
    = (Return tt, w')
    /\ List.filter
         (fun r => negb (Chroma.matches [project_id_eq pid; file_name_eq fileName] r))
         (chunksCollection w')
       = List.filter
           (fun r => negb (Chroma.matches [project_id_eq pid; file_name_eq fileName] r))
           (chunksCollection w)
    /\ forall p' f', (p', f') <> (pid, fileName) ->
                     stored_texts p' f' (chunksCollection w')
                     = stored_texts p' f' (chunksCollection w).
Proof.
  intros Hex Hdate Hout Hinit Hf Hchunk Hne Hall Hn.
  destruct (update_run tokenizer extractor uuidv4 toISOString pid fileName content chunks w
              Hex Hdate Hout Hinit Hf Hchunk Hne Hall)
    as (w' & now_ & es & n & landed & Hrun & Hcoll & Hperm & _).
  assert (Hkept : List.filter
                    (fun r => negb (Chroma.matches
                                      [project_id_eq pid; file_name_eq fileName] r))
                    (chunksCollection w')
                  = List.filter
                      (fun r => negb (Chroma.matches
                                        [project_id_eq pid; file_name_eq fileName] r))
                      (chunksCollection w)).
  { rewrite Hcoll, filter_app.
    rewrite (filter_none _ landed), app_nil_r.
    - rewrite (without_file_ids_filter pid fileName _ Hn). apply filter_twice.
    - intros r Hr. apply (Permutation_in _ Hperm) in Hr.
      rewrite <- (inserted_rows_match uuidv4 pid fileName now_ es chunks n 0) in Hr.
      apply filter_In in Hr as [_ Hm]. now rewrite Hm. }
  exists w'. split; [exact Hrun|]. split; [exact Hkept|].
  intros p' f' Hother.
  rewrite <- !stored_chunks_texts.
  rewrite <- (other_file_filter pid fileName p' f' (chunksCollection w') Hother).
  rewrite <- (other_file_filter pid fileName p' f' (chunksCollection w) Hother).
  now rewrite Hkept.
Qed.

Lemma update_leaves_other_files_alone_witness :
  created_at_parses Sample.toISOString Sample.pid
    (projectsCollection (Sample.world_with Sample.five_chunks []))
  /\ exists w',
      updateFileContent Tokenizers.char_level Sample.extractor Sample.uuidv4
        Sample.toISOString Sample.pid
        "notes.md" "new notes" (Sample.world_with Sample.five_chunks [])
      = (Return tt, w')
      /\ stored_texts Sample.pid "plan.md" (chunksCollection w')
         = [(0, "delta"); (1, "epsilon")].
Proof.
  split; [do 4 eexists; vm_compute; repeat split|].
  destruct (update_leaves_other_files_alone Tokenizers.char_level Sample.extractor
              Sample.uuidv4 Sample.toISOString Sample.pid "notes.md" "new notes"
              ["new notes"] (Sample.world_with Sample.five_chunks []))
    as (w' & Hrun & _ & Hother).
  - vm_compute. reflexivity.
  - do 4 eexists; vm_compute; repeat split.
  - reflexivity.
  - reflexivity.
  - discriminate.
  - vm_compute. reflexivity.
  - discriminate.
  - intros c [<-|[]]. vm_compute. discriminate.
  - cbn. repeat constructor; cbn; intuition discriminate.
  - exists w'. split; [exact Hrun|].
    rewrite (Hother Sample.pid "plan.md") by discriminate.
    vm_compute. reflexivity.
Defined.

(* ================================================================= *)
(** ** A creation time that is not a date *)

Lemma updateLastModified_unreadable (toISOString : string -> option string)
      (projectId : string) (w : World) (row : ProjectRow) (rest : list ProjectRow)
      (meta : ProjectMetadata) :
  projectId <> "" ->
  db_isInitialized w = true ->
  chroma_outages w = [] ->
  List.filter (fun r => (project_row_id r =? projectId)%string) (projectsCollection w)
  = row :: rest ->
  project_row_metadata row = Some meta ->
  toISOString (pm_created_at meta) = None ->
  exists w',
    updateLastModified toISOString projectId w
    = (Throw (McpError InternalError
                "Failed to update project last modified time due to database error."), w')
    /\ chunksCollection w' = chunksCollection w
    /\ projectsCollection w' = projectsCollection w.
Proof.
  intros Hne Hdb Hout Hrow Hmeta Hiso.
  unfold updateLastModified.
  destruct (String.eqb_spec projectId "") as [->|_]; [congruence|].
  unfold updateProjectLastModified, findProjectById, ensureInitialized, now,
    Chroma.projects_get, Chroma.projects_update.
  run_with Hdb Hout. rewrite Hrow.
  change (Chroma.limited (Some 1) (row :: rest)) with [row]. cbv beta iota.
  rewrite Hmeta. run_with Hdb Hout.
  cbn [Project.createdAt]. rewrite Hiso. run_with Hdb Hout.
  eexists. split; [reflexivity|]. split; reflexivity.
Qed.

(** X22: when the creation time recorded for the project is not a valid
    date, an update whose content gives no chunk deletes the chunks of the
    file and then fails while it renews the project's timestamp: it throws
    the internal error of [updateLastModified], and the project row is
    left as it was. *)
Theorem unreadable_creation_time_fails_the_update
  (tokenizer : PreTrainedTokenizer) (extractor : string -> option Embedding)
  (uuidv4 : nat -> string) (toISOString : string -> option string)
  (projectId fileName content : string) (w : World)
  (row : ProjectRow) (rest : list ProjectRow) (meta : ProjectMetadata) :
  List.filter (fun r => (project_row_id r =? projectId)%string) (projectsCollection w)
  = row :: rest ->
  project_row_metadata row = Some meta ->
  toISOString (pm_created_at meta) = None ->
  projectId <> "" ->
  db_isInitialized w = true ->
  chroma_outages w = [] ->
  embedding_isInitialized w = true ->
  fileName <> "" ->
  content <> "" ->
  chunk tokenizer content = Some [] ->
  exists w',
    updateFileContent tokenizer extractor uuidv4 toISOString projectId fileName content w
    = (Throw (McpError InternalError
                "Failed to update project last modified time due to database error."), w')
    /\ chunksCollection w'
       = without_ids (file_ids projectId fileName (chunksCollection w)) (chunksCollection w)
    /\ projectsCollection w' = projectsCollection w.
Proof.
  intros Hrow Hmeta Hiso Hne Hdb Hout Hinit Hf Hc Hchunk.
  assert (Hk : known_project projectId (projectsCollection w)).
  { split; [exact Hne|]. now exists row, rest, meta. }
  pose proof (known_projectExists projectId w Hk Hdb Hout) as Hrun.
  set (w1 := with_trace w (trace w ++ [EvProjectsGet projectId])) in *.
  destruct (deleteMemoryBankContentByFile_run projectId fileName w1 Hdb Hout)
    as (w2 & Hdel & Hchunks2 & Hprojects2 & Hdb2 & Hout2).
  destruct (updateLastModified_unreadable toISOString projectId w2 row rest meta
              Hne Hdb2 Hout2) as (w3 & Hupd & Hchunks3 & Hprojects3); try assumption.
  { rewrite Hprojects2. exact Hrow. }
  exists w3. split; [|split].
  - unfold updateFileContent. unfold bind at 1. rewrite Hrun. cbn [negb].
    destruct (String.eqb_spec fileName "") as [E|_]; [congruence|].
    destruct (String.eqb_spec content "") as [E|_]; [congruence|].
    cbn [orb].
    unfold try_catch. unfold bind at 1. rewrite chunkText_run.
    replace (embedding_isInitialized w1) with true by (symmetry; exact Hinit).
    rewrite Hchunk.
    unfold bind. rewrite Hdel, Hupd. reflexivity.
  - rewrite Hchunks3, Hchunks2. reflexivity.
  - rewrite Hprojects3, Hprojects2. reflexivity.
Qed.

Lemma unreadable_creation_time_fails_the_update_witness :
  Sample.toISOString "last week" = None
  /\ chunk Tokenizers.char_level "   " = Some []
  /\ exists w',
      updateFileContent Tokenizers.char_level Sample.extractor Sample.uuidv4
        Sample.toISOString Sample.pid "plan.md" "   "
        (Sample.undated_world Sample.five_chunks)
      = (Throw (McpError InternalError
                  "Failed to update project last modified time due to database error."),
         w')
      /\ chunksCollection w'
         = without_ids (file_ids Sample.pid "plan.md" Sample.five_chunks)
                       Sample.five_chunks
      /\ projectsCollection w' = [Sample.undated_project_row].
Proof.
  split; [vm_compute; reflexivity|].
  split; [vm_compute; reflexivity|].
  apply (unreadable_creation_time_fails_the_update Tokenizers.char_level Sample.extractor
           Sample.uuidv4 Sample.toISOString Sample.pid "plan.md" "   "
           (Sample.undated_world Sample.five_chunks)
           Sample.undated_project_row []
           {| pm_project_id := Sample.pid; pm_project_name := "demo";
              pm_created_at := "last week"; pm_last_modified_at := Sample.t0 |});
    try (vm_compute; reflexivity); discriminate.
Defined.
